(** * Usage telemetry of CLIProxyAPI: the durable store and the OTLP exporter

    A shallow embedding of [internal/usage/database_plugin.go] and
    [internal/usage/otlp_plugin.go], and the properties of the usage
    specification settled over it: proved, or refuted at a sample input and
    proved in the form the code has.

    Conventions of the embedding.
    - A Go [string] is a Rocq [string] (a sequence of bytes).
    - Go's [int], [int64] and [uint64] values are integers of [Z]; where the
      code or the storage engine computes with them the 64-bit range is
      written out.
    - A [time.Time] is the number of nanoseconds since the Unix epoch, in UTC.
    - What the code asks of the world (the clock, the file system, the
      outcome of a database statement, the branch a [select] takes) is an
      explicit argument of the function that asks for it.
    - Library functions are written out where the properties depend on what
      they compute ([sha256.Sum256], [hex.EncodeToString],
      [strings.TrimSpace], the layout [2006-01-02] of [Time.Format], the text
      of [Time.String]);
      [filepath.Clean] and [normaliseDetail], of which only determinism
      matters here, are parameters. *)

From Stdlib Require Import ZArith List String Ascii Bool Lia.
From stdpp Require Import gmap strings list fin_maps.

Import ListNotations.
Local Open Scope string_scope.
Local Open Scope Z_scope.

(** ** Bytes, hexadecimal, SHA-256 *)

Module Hex.

Definition digit (n : Z) : ascii :=
  ascii_of_nat (Z.to_nat (if n <? 10 then 48 + n else 87 + n)).

(** [hex.EncodeToString]: two lower-case digits per byte. *)
Fixpoint EncodeToString (bs : list Z) : string :=
  match bs with
  | [] => EmptyString
  | b :: rest =>
      String (digit (Z.shiftr b 4)) (String (digit (Z.land b 15)) (EncodeToString rest))
  end.

Fixpoint bytes_of_string (s : string) : list Z :=
  match s with
  | EmptyString => []
  | String c rest => Z.of_nat (nat_of_ascii c) :: bytes_of_string rest
  end.

End Hex.

Module SHA256.

(** FIPS 180-4, section 6.2, on 32-bit words held in [Z]. *)

Definition w32 (x : Z) : Z := x mod 2 ^ 32.
Definition add32 (x y : Z) : Z := w32 (x + y).
Definition rotr (n x : Z) : Z := Z.lor (Z.shiftr x n) (w32 (Z.shiftl x (32 - n))).
Definition not32 (x : Z) : Z := 2 ^ 32 - 1 - x.

Definition Ch (x y z : Z) : Z := Z.lxor (Z.land x y) (Z.land (not32 x) z).
Definition Maj (x y z : Z) : Z :=
  Z.lxor (Z.lxor (Z.land x y) (Z.land x z)) (Z.land y z).
Definition Sigma0 (x : Z) : Z := Z.lxor (Z.lxor (rotr 2 x) (rotr 13 x)) (rotr 22 x).
Definition Sigma1 (x : Z) : Z := Z.lxor (Z.lxor (rotr 6 x) (rotr 11 x)) (rotr 25 x).
Definition sigma0 (x : Z) : Z := Z.lxor (Z.lxor (rotr 7 x) (rotr 18 x)) (Z.shiftr x 3).
Definition sigma1 (x : Z) : Z := Z.lxor (Z.lxor (rotr 17 x) (rotr 19 x)) (Z.shiftr x 10).

(** The constants are the first 32 bits of the fractional parts of the cube
    roots (round constants) and square roots (initial hash value) of the
    first primes; they are computed here rather than tabulated. *)

Definition is_prime (n : Z) : bool :=
  forallb (fun d => negb (n mod d =? 0))
          (filter (fun d => d * d <=? n) (map Z.of_nat (seq 2 20))).

Definition primes64 : list Z :=
  Eval vm_compute in filter is_prime (map Z.of_nat (seq 2 310)).

Fixpoint icbrt_from (bit : nat) (n r : Z) : Z :=
  match bit with
  | O => r
  | S b =>
      let c := r + 2 ^ Z.of_nat b in
      icbrt_from b n (if c * c * c <=? n then c else r)
  end.

Definition K : list Z :=
  Eval vm_compute in map (fun p => w32 (icbrt_from 40 (p * 2 ^ 96) 0)) primes64.

Definition H0 : list Z :=
  Eval vm_compute in map (fun p => w32 (Z.sqrt (p * 2 ^ 64))) (firstn 8 primes64).

(** Padding: a 1 bit, zeros up to 56 mod 64 bytes, the bit length on 8 bytes. *)
Definition be_bytes (width : nat) (x : Z) : list Z :=
  map (fun i => Z.land (Z.shiftr x (8 * Z.of_nat (width - 1 - i))) 255) (seq 0 width).

Definition pad (msg : list Z) : list Z :=
  let len := Z.of_nat (length msg) in
  let zeros := Z.to_nat ((55 - len) mod 64) in
  msg ++ [128] ++ repeat 0 zeros ++ be_bytes 8 (8 * len).

Fixpoint words_of_bytes (bs : list Z) : list Z :=
  match bs with
  | a :: b :: c :: d :: rest =>
      (Z.shiftl a 24 + Z.shiftl b 16 + Z.shiftl c 8 + d) :: words_of_bytes rest
  | _ => []
  end.

Fixpoint blocks (n : nat) (ws : list Z) : list (list Z) :=
  match n with
  | O => []
  | S k => firstn 16 ws :: blocks k (skipn 16 ws)
  end.

(** Message schedule: the list grows at its end; [W t] depends on the
    entries 2, 7, 15 and 16 places back. *)
Fixpoint schedule (n : nat) (ws : list Z) : list Z :=
  match n with
  | O => ws
  | S k =>
      let t := length ws in
      let at_ i := nth (t - i) ws 0 in
      schedule k (ws ++ [add32 (add32 (sigma1 (at_ 2%nat)) (at_ 7%nat))
                               (add32 (sigma0 (at_ 15%nat)) (at_ 16%nat))])
  end.

Record regs := Regs { ra : Z; rb : Z; rc : Z; rd : Z; re : Z; rf : Z; rg : Z; rh : Z }.

Definition round (s : regs) (kw : Z * Z) : regs :=
  let t1 := add32 (add32 (add32 (rh s) (Sigma1 (re s))) (Ch (re s) (rf s) (rg s)))
                  (add32 (fst kw) (snd kw)) in
  let t2 := add32 (Sigma0 (ra s)) (Maj (ra s) (rb s) (rc s)) in
  Regs (add32 t1 t2) (ra s) (rb s) (rc s) (add32 (rd s) t1) (re s) (rf s) (rg s).

Definition regs_of_list (l : list Z) : regs :=
  Regs (nth 0 l 0) (nth 1 l 0) (nth 2 l 0) (nth 3 l 0)
       (nth 4 l 0) (nth 5 l 0) (nth 6 l 0) (nth 7 l 0).

Definition list_of_regs (s : regs) : list Z :=
  [ra s; rb s; rc s; rd s; re s; rf s; rg s; rh s].

Definition compress (h : list Z) (block : list Z) : list Z :=
  let s := fold_left round (combine K (schedule 48 block)) (regs_of_list h) in
  map (fun p => add32 (fst p) (snd p)) (combine h (list_of_regs s)).

(** [sha256.Sum256]: the 32 bytes of the digest. *)
Definition Sum256 (msg : list Z) : list Z :=
  let ws := words_of_bytes (pad msg) in
  let h := fold_left compress (blocks (Nat.div (length ws) 16) ws) H0 in
  concat (map (be_bytes 4) h).

End SHA256.


(** ** [time]: instants, durations, the layout [2006-01-02] *)

Module time.

(** An instant is a number of nanoseconds since 1970-01-01T00:00:00Z. *)
Definition Time := Z.
(** A [time.Duration] is a signed 64-bit count of nanoseconds. *)
Definition Duration := Z.

Definition Hour : Duration := 3600 * 10 ^ 9.

Definition min_int64 : Z := - 2 ^ 63.
Definition max_int64 : Z := 2 ^ 63 - 1.
Definition in_int64 (x : Z) : bool := (min_int64 <=? x) && (x <=? max_int64).
(** Two's complement wrap-around of 64-bit signed arithmetic. *)
Definition wrap64 (x : Z) : Z := (x + 2 ^ 63) mod 2 ^ 64 - 2 ^ 63.

(** The zero [Time] is January 1, year 1, 00:00:00 UTC. *)
Definition zeroTime : Time := - 62135596800 * 10 ^ 9.
Definition IsZero (t : Time) : bool := t =? zeroTime.

Definition Add (t : Time) (d : Duration) : Time := t + d.

(** Days since the epoch to a proleptic Gregorian (year, month, day). *)
Definition civil (days : Z) : Z * Z * Z :=
  let z := days + 719468 in
  let era := z / 146097 in
  let doe := z - era * 146097 in
  let yoe := (doe - doe / 1460 + doe / 36524 - doe / 146096) / 365 in
  let doy := doe - (365 * yoe + yoe / 4 - yoe / 100) in
  let mp := (5 * doy + 2) / 153 in
  let d := doy - (153 * mp + 2) / 5 + 1 in
  let m := if mp <? 10 then mp + 3 else mp - 9 in
  let y := yoe + era * 400 + (if m <=? 2 then 1 else 0) in
  (y, m, d).

Fixpoint digits (fuel : nat) (n : Z) (acc : string) : string :=
  match fuel with
  | O => acc
  | S k =>
      let acc' := String (ascii_of_nat (Z.to_nat (48 + n mod 10))) acc in
      if n <? 10 then acc' else digits k (n / 10) acc'
  end.

Fixpoint zeros (n : nat) : string :=
  match n with O => EmptyString | S k => String "0"%char (zeros k) end.

(** [appendInt]: decimal, zero-padded to [width] digits, a minus sign first. *)
Definition appendInt (x : Z) (width : nat) : string :=
  let ds := digits 80 (Z.abs x) EmptyString in
  let padded := zeros (width - String.length ds) ++ ds in
  if x <? 0 then String "-"%char padded else padded.

(** [t.Format("2006-01-02")] for an instant in UTC. *)
Definition FormatDay (t : Time) : string :=
  let '(y, m, d) := civil (t / (24 * Hour)) in
  appendInt y 4 ++ "-" ++ appendInt m 2 ++ "-" ++ appendInt d 2.

End time.

(** ** [time.Time.String]

    The text of an instant in UTC that carries no monotonic clock
    reading, by the layout [2006-01-02 15:04:05.999999999 -0700 MST].  It
    is the text the database driver binds for a [time.Time] argument, so
    the text the column [timestamp] holds and the text the cutoff of a
    retention pass is compared with. *)

(** The character of a decimal digit. *)
Definition digitChar (d : Z) : ascii := ascii_of_nat (Z.to_nat (48 + d)).

(** The loop of [formatNano] that fills its buffer, the last digit first. *)
Fixpoint nanoDigits (k : nat) (u : Z) (buf : string) : string :=
  match k with
  | O => buf
  | S k' => nanoDigits k' (u / 10) (String (digitChar (u mod 10)) buf)
  end.

(** The digits without the zeros at their end. *)
Fixpoint trimZeros (s : string) : string :=
  match s with
  | EmptyString => EmptyString
  | String c rest =>
      match trimZeros rest with
      | EmptyString => if Ascii.eqb c "0" then EmptyString else String c EmptyString
      | t => String c t
      end
  end.

(** The fraction [.999999999]: nine digits, the zeros at the end trimmed,
    and nothing at all when all nine are zeros. *)
Definition formatNano (nanosec : Z) : string :=
  match trimZeros (nanoDigits 9 nanosec "") with
  | EmptyString => ""
  | ds => "." ++ ds
  end.

Definition TimeString (t : time.Time) : string :=
  let rest := t mod (24 * time.Hour) in
  let sec := rest / 10 ^ 9 in
  time.FormatDay t ++ " "
  ++ time.appendInt (sec / 3600) 2 ++ ":"
  ++ time.appendInt (sec / 60 mod 60) 2 ++ ":"
  ++ time.appendInt (sec mod 60) 2
  ++ formatNano (rest mod 10 ^ 9) ++ " +0000 UTC".

(** ** [strings.TrimSpace] *)

Module strings.

(** White space as [unicode.IsSpace] has it, by UTF-8 encoding: the six
    ASCII characters, then U+0085, U+00A0, U+1680, U+2000 to U+200A,
    U+2028, U+2029, U+202F, U+205F and U+3000.  UTF-8 is prefix-free and the
    decoder accepts only the shortest encoding, so the first (last) rune of
    a string is one of these exactly when one of these byte sequences is a
    prefix (suffix) of it. *)
Definition spaceEncodings : list (list Z) :=
  [[9]; [10]; [11]; [12]; [13]; [32];
   [194; 133]; [194; 160]; [225; 154; 128];
   [226; 128; 128]; [226; 128; 129]; [226; 128; 130]; [226; 128; 131];
   [226; 128; 132]; [226; 128; 133]; [226; 128; 134]; [226; 128; 135];
   [226; 128; 136]; [226; 128; 137]; [226; 128; 138];
   [226; 128; 168]; [226; 128; 169]; [226; 128; 175];
   [226; 129; 159]; [227; 128; 128]].

Fixpoint hasPrefix (p l : list Z) : bool :=
  match p, l with
  | [], _ => true
  | a :: p', b :: l' => (a =? b) && hasPrefix p' l'
  | _ :: _, [] => false
  end.

(** The width in bytes of the leading white-space rune, if there is one. *)
Definition leadingSpace (encs : list (list Z)) (l : list Z) : option nat :=
  option_map (@length Z) (find (fun e => hasPrefix e l) encs).

Fixpoint trimLeft (fuel : nat) (encs : list (list Z)) (l : list Z) : list Z :=
  match fuel with
  | O => l
  | S k =>
      match leadingSpace encs l with
      | Some w => trimLeft k encs (skipn w l)
      | None => l
      end
  end.

Definition TrimLeftSpace (l : list Z) : list Z :=
  trimLeft (length l) spaceEncodings l.

Definition TrimRightSpace (l : list Z) : list Z :=
  rev (trimLeft (length l) (map (@rev Z) spaceEncodings) (rev l)).

Fixpoint string_of_bytes (bs : list Z) : string :=
  match bs with
  | [] => EmptyString
  | b :: rest => String (ascii_of_nat (Z.to_nat b)) (string_of_bytes rest)
  end.

Definition TrimSpace (s : string) : string :=
  string_of_bytes (TrimRightSpace (TrimLeftSpace (Hex.bytes_of_string s))).

End strings.

(** ** Results of calls *)

(** A Go call returns, panics, or does not return until another goroutine
    acts (a [select] none of whose cases is ready). *)
Inductive outcome (A : Type) : Type :=
  | Returns (a : A)
  | Panics (msg : string)
  | Blocks.
Arguments Returns {A} a.
Arguments Panics {A} msg.
Arguments Blocks {A}.

(** An [error] is its message; [None] is the nil error. *)
Definition error := string.

(** When two cases of a [select] are ready the runtime picks one of them
    "via a uniform pseudo-random selection": the pick is an input. *)
Inductive selected := FirstCase | SecondCase.

(** ** The usage record and the request context *)

(** The record of [sdk/cliproxy/usage], by the fields the package reads. *)
Module coreusage.

Record Detail := {
  InputTokens : Z;
  OutputTokens : Z;
  ReasoningTokens : Z;
  CachedTokens : Z;
  TotalTokens : Z
}.

Record Record_ := {
  Provider : string;
  Model : string;
  APIKey : string;
  AuthID : string;
  AuthIndex : Z;
  Source : string;
  RequestedAt : time.Time;
  Failed : bool;
  Detail_ : Detail
}.

End coreusage.

Module gin.

(** A value stored under a key of the gin context. *)
Inductive any := AnyString (s : string) | AnyOther.

(** [Writer] is [None] for a nil writer, else the status the writer reports. *)
Record Context := {
  Keys : list (string * any);
  Writer : option Z
}.

Fixpoint Get (keys : list (string * any)) (key : string) : option any :=
  match keys with
  | [] => None
  | (k, v) :: rest => if String.eqb k key then Some v else Get rest key
  end.

End gin.

Module context.

(** What the lookup of the key "gin", asserted to be a pointer to a gin
    context, finds: nothing of that type, a nil pointer of that type, or a
    gin context. *)
Inductive ginValue :=
  | NoGin
  | NilGin
  | Gin (g : gin.Context).

(** A [context.Context]: the nil interface, or a context and its gin value. *)
Inductive Context :=
  | Nil
  | Ctx (v : ginValue).

Definition Background : Context := Ctx NoGin.

End context.

(** ** database_plugin.go *)

Record DatabaseOptions := {
  Enabled : bool;
  Path : string;
  RetentionDays : Z
}.

(** Declared in another file of the package; the fields are those the
    statements of [insert] bind. *)
Record TokenStats := {
  InputTokens : Z;
  OutputTokens : Z;
  ReasoningTokens : Z;
  CachedTokens : Z;
  TotalTokens : Z
}.

Record dbRecord := {
  Timestamp : time.Time;
  Provider : string;
  Model : string;
  CredentialLabel : string;
  CredentialFingerprint : string;
  APIKeyHash : string;
  AuthID : string;
  AuthIndex : Z;
  Source : string;
  StatusCode : Z;
  Failed : bool;
  RateLimited : bool;
  Tokens : TokenStats
}.

Definition configsEqual (a b : option DatabaseOptions) : bool :=
  match a, b with
  | Some a, Some b =>
      Bool.eqb (Enabled a) (Enabled b) &&
      String.eqb (Path a) (Path b) &&
      (RetentionDays a =? RetentionDays b)
  | _, _ => false
  end.

Definition StatusTooManyRequests : Z := 429.

Definition resolveStatusCode (ctx : context.Context) : outcome Z :=
  match ctx with
  | context.Nil => Returns 0
  | context.Ctx context.NoGin => Returns 0
  | context.Ctx context.NilGin => Returns 0
  | context.Ctx (context.Gin g) =>
      match gin.Writer g with
      | Some status => Returns status
      | None => Panics "runtime error: invalid memory address or nil pointer dereference"
      end
  end.

Definition nonEmpty (s : string) : bool := negb (String.eqb s "").

Definition credentialLabel (record : coreusage.Record_) : string :=
  if nonEmpty (coreusage.AuthID record) then coreusage.AuthID record
  else if nonEmpty (coreusage.Source record) then coreusage.Source record
  else if nonEmpty (coreusage.Provider record) then coreusage.Provider record
  else if nonEmpty (coreusage.APIKey record) then "api-key"
  else "unknown".

Definition fingerprint (value : string) : string :=
  if String.eqb value "" then ""
  else Hex.EncodeToString (SHA256.Sum256 (Hex.bytes_of_string value)).

Definition credentialFingerprint (record : coreusage.Record_) : string :=
  if nonEmpty (coreusage.AuthID record) then fingerprint (coreusage.AuthID record)
  else if nonEmpty (coreusage.Source record) then fingerprint (coreusage.Source record)
  else if nonEmpty (coreusage.APIKey record) then fingerprint (coreusage.APIKey record)
  else if nonEmpty (coreusage.Provider record) then fingerprint (coreusage.Provider record)
  else fingerprint "unknown".

Definition boolToInt (v : bool) : Z := if v then 1 else 0.

(** *** The two tables *)

(** A row of [usage_requests]; the columns hold what the statement binds. *)
Record requestRow := {
  req_id : Z;
  req_timestamp : time.Time;
  req_provider : string;
  req_model : string;
  req_credential_label : string;
  req_credential_fingerprint : string;
  req_api_key_hash : string;
  req_auth_id : string;
  req_auth_index : Z;
  req_source : string;
  req_status_code : Z;
  req_failed : Z;
  req_rate_limited : Z;
  req_prompt_tokens : Z;
  req_completion_tokens : Z;
  req_reasoning_tokens : Z;
  req_cached_tokens : Z;
  req_total_tokens : Z
}.

(** A counter of [usage_daily].  The engine adds 64-bit integers; a sum
    that leaves the 64-bit range is carried on in floating point, whose
    value is not followed here. *)
Inductive sqlnum :=
  | SqlInt (n : Z)
  | SqlInexact.

Definition sql_add (a b : sqlnum) : sqlnum :=
  match a, b with
  | SqlInt x, SqlInt y => if time.in_int64 (x + y) then SqlInt (x + y) else SqlInexact
  | _, _ => SqlInexact
  end.

(** PRIMARY KEY (day, provider, credential_fingerprint, model). *)
Definition dailyKey : Type := string * string * string * string.

Definition key_day (k : dailyKey) : string := k.1.1.1.

Record dailyRow := {
  credential_label : string;
  total_requests : sqlnum;
  failed_requests : sqlnum;
  rate_limited : sqlnum;
  prompt_tokens : sqlnum;
  completion_tokens : sqlnum;
  total_tokens : sqlnum
}.

(** [requests_seq] is the largest id AUTOINCREMENT has handed out. *)
Record database := {
  usage_requests : list requestRow;
  requests_seq : Z;
  usage_daily : gmap dailyKey dailyRow
}.

Definition emptyDatabase : database :=
  {| usage_requests := []; requests_seq := 0; usage_daily := ∅ |}.

(** INSERT INTO usage_requests (...) VALUES (...) *)
Definition insertRequest (rec : dbRecord) (d : database) : database :=
  let id := requests_seq d + 1 in
  {| usage_requests :=
       usage_requests d ++
       [ {| req_id := id;
            req_timestamp := Timestamp rec;
            req_provider := Provider rec;
            req_model := Model rec;
            req_credential_label := CredentialLabel rec;
            req_credential_fingerprint := CredentialFingerprint rec;
            req_api_key_hash := APIKeyHash rec;
            req_auth_id := AuthID rec;
            req_auth_index := AuthIndex rec;
            req_source := Source rec;
            req_status_code := StatusCode rec;
            req_failed := boolToInt (Failed rec);
            req_rate_limited := boolToInt (RateLimited rec);
            req_prompt_tokens := InputTokens (Tokens rec);
            req_completion_tokens := OutputTokens (Tokens rec);
            req_reasoning_tokens := ReasoningTokens (Tokens rec);
            req_cached_tokens := CachedTokens (Tokens rec);
            req_total_tokens := TotalTokens (Tokens rec) |} ];
     requests_seq := id;
     usage_daily := usage_daily d |}.

Definition dailyKeyOf (rec : dbRecord) : dailyKey :=
  (time.FormatDay (Timestamp rec), Provider rec, CredentialFingerprint rec, Model rec).

(** The row of the VALUES clause, [excluded] in the conflict clause. *)
Definition excludedRow (rec : dbRecord) : dailyRow :=
  {| credential_label := CredentialLabel rec;
     total_requests := SqlInt 1;
     failed_requests := SqlInt (boolToInt (Failed rec));
     rate_limited := SqlInt (boolToInt (RateLimited rec));
     prompt_tokens := SqlInt (InputTokens (Tokens rec));
     completion_tokens := SqlInt (OutputTokens (Tokens rec));
     total_tokens := SqlInt (TotalTokens (Tokens rec)) |}.

(** ON CONFLICT (...) DO UPDATE SET ... *)
Definition mergeDaily (old excluded : dailyRow) : dailyRow :=
  {| total_requests := sql_add (total_requests old) (total_requests excluded);
     failed_requests := sql_add (failed_requests old) (failed_requests excluded);
     rate_limited := sql_add (rate_limited old) (rate_limited excluded);
     prompt_tokens := sql_add (prompt_tokens old) (prompt_tokens excluded);
     completion_tokens := sql_add (completion_tokens old) (completion_tokens excluded);
     total_tokens := sql_add (total_tokens old) (total_tokens excluded);
     credential_label :=
       if nonEmpty (credential_label excluded) then credential_label excluded
       else credential_label old |}.

(** INSERT INTO usage_daily (...) VALUES (...) ON CONFLICT (...) DO UPDATE *)
Definition upsertDaily (rec : dbRecord) (d : database) : database :=
  let k := dailyKeyOf rec in
  let row :=
    match usage_daily d !! k with
    | None => excludedRow rec
    | Some old => mergeDaily old (excludedRow rec)
    end in
  {| usage_requests := usage_requests d;
     requests_seq := requests_seq d;
     usage_daily := <[k := row]> (usage_daily d) |}.

(** DELETE FROM usage_requests WHERE timestamp < ?

    The column holds the text the driver stored for the timestamp of the
    record and the cutoff is bound as such a text: the engine compares the
    two texts byte by byte. *)
Definition deleteRequestsBefore (cutoff : time.Time) (d : database) : database :=
  {| usage_requests :=
       List.filter (fun r => negb (String.ltb (TimeString (req_timestamp r))
                                              (TimeString cutoff)))
         (usage_requests d);
     requests_seq := requests_seq d;
     usage_daily := usage_daily d |}.

(** DELETE FROM usage_daily WHERE day < ? *)
Definition deleteDailyBefore (cutoffDay : string) (d : database) : database :=
  {| usage_requests := usage_requests d;
     requests_seq := requests_seq d;
     usage_daily :=
       filter (fun kv : dailyKey * dailyRow =>
                 String.ltb (key_day kv.1) cutoffDay = false) (usage_daily d) |}.

(** *** [database/sql] transactions

    A transaction works on its own view of the database.  The view becomes
    the database when [Commit] succeeds, and is dropped otherwise.  A
    statement that fails leaves the view as it was.  Once [Commit] or
    [Rollback] has been called the transaction is done and every further
    call on it answers [ErrTxDone].  Whether a call fails is the engine's
    answer, an input here. *)
Module sql.

Definition ErrTxDone : error :=
  "sql: transaction has already been committed or rolled back".

Record Tx := { view : database; done : bool }.

Definition BeginTx (d : database) (fails : option error) : error + Tx :=
  match fails with
  | Some err => inl err
  | None => inr {| view := d; done := false |}
  end.

Definition ExecContext (tx : Tx) (fails : option error)
    (stmt : database -> database) : Tx * option error :=
  if done tx then (tx, Some ErrTxDone)
  else match fails with
       | Some err => (tx, Some err)
       | None => ({| view := stmt (view tx); done := false |}, None)
       end.

Definition Commit (d : database) (tx : Tx) (fails : option error)
    : database * Tx * option error :=
  if done tx then (d, tx, Some ErrTxDone)
  else match fails with
       | Some err => (d, {| view := view tx; done := true |}, Some err)
       | None => (view tx, {| view := view tx; done := true |}, None)
       end.

Definition Rollback (d : database) (tx : Tx) : database * Tx * option error :=
  if done tx then (d, tx, Some ErrTxDone)
  else (d, {| view := view tx; done := true |}, None).

(** The engine's answers to the four calls of one [insert]. *)
Record answers := {
  beginFails : option error;
  firstExecFails : option error;
  secondExecFails : option error;
  commitFails : option error
}.

Definition allSucceed : answers :=
  {| beginFails := None; firstExecFails := None;
     secondExecFails := None; commitFails := None |}.

End sql.

(** *** The store *)

Module usageStore.

(** [db] is the content of the database behind the handle, [dbClosed]
    whether the handle has been closed; [queue] is the content of the
    buffered channel, oldest first; [stop] tells whether the stop channel
    has been closed, [running] whether the goroutine of [run] has not yet
    returned. *)
Record t := {
  db : database;
  dbClosed : bool;
  retentionDays : Z;
  queue : list dbRecord;
  stop : bool;
  running : bool
}.

Definition queueCapacity : nat := 2048.

Definition with_db (s : t) (d : database) : t :=
  {| db := d; dbClosed := dbClosed s; retentionDays := retentionDays s;
     queue := queue s; stop := stop s; running := running s |}.

Definition with_queue (s : t) (q : list dbRecord) : t :=
  {| db := db s; dbClosed := dbClosed s; retentionDays := retentionDays s;
     queue := q; stop := stop s; running := running s |}.

Definition stopped (s : t) : t :=
  {| db := db s; dbClosed := dbClosed s; retentionDays := retentionDays s;
     queue := queue s; stop := true; running := running s |}.

Definition returned (s : t) : t :=
  {| db := db s; dbClosed := dbClosed s; retentionDays := retentionDays s;
     queue := queue s; stop := stop s; running := false |}.

Definition with_db_closed (s : t) : t :=
  {| db := db s; dbClosed := true; retentionDays := retentionDays s;
     queue := queue s; stop := stop s; running := running s |}.

(** The [select] of [enqueue]: its first case, the send, is ready while
    the buffer has room; its second, the receive from [stop], once [stop]
    is closed. *)
Definition enqueue (s : t) (pick : selected) (rec : dbRecord)
    : outcome (t * option error) :=
  let sendReady := (length (queue s) <? queueCapacity)%nat in
  let accepted := Returns (with_queue s (queue s ++ [rec]), None) in
  let refused := Returns (s, Some "usage: database store stopped") in
  match sendReady, stop s with
  | true, false => accepted
  | false, true => refused
  | true, true => match pick with FirstCase => accepted | SecondCase => refused end
  | false, false => Blocks
  end.

(** What [BeginTx] answers on a closed handle. *)
Definition ErrDBClosed : error := "sql: database is closed".

Definition insert (s : t) (a : sql.answers) (rec : dbRecord) : t * option error :=
  if dbClosed s then (s, Some ErrDBClosed)
  else
    match sql.BeginTx (db s) (sql.beginFails a) with
    | inl err => (s, Some err)
    | inr tx =>
        let '(d1, tx1, ret) :=
          match sql.ExecContext tx (sql.firstExecFails a) (insertRequest rec) with
          | (tx, Some err) => (db s, tx, Some err)
          | (tx, None) =>
              match sql.ExecContext tx (sql.secondExecFails a) (upsertDaily rec) with
              | (tx, Some err) => (db s, tx, Some err)
              | (tx, None) => sql.Commit (db s) tx (sql.commitFails a)
              end
          end in
        (* the deferred call of Rollback, its result dropped *)
        let '(d2, _, _) := sql.Rollback d1 tx1 in
        (with_db s d2, ret)
    end.

(** One round of the worker.  While the queue holds a record the next
    round takes the oldest one and inserts it, in the loop of [run] as in
    the loop of [drainRemaining]; a failure is logged and the record is
    gone.  On an empty queue the worker waits while [stop] is open, and
    returns once [stop] is closed. *)
Definition run (s : t) (a : sql.answers) : t * option error :=
  if running s then
    match queue s with
    | rec :: rest => insert (with_queue s rest) a rec
    | [] => if stop s then (returned s, None) else (s, None)
    end
  else (s, None).

(** The rounds of the worker from the closing of [stop] to its return, with
    no new record coming in; [answers n] is the engine's answer to the
    insert of the [n]-th record. *)
Fixpoint drain (s : t) (recs : list dbRecord) (answers : nat -> sql.answers) : t :=
  match recs with
  | [] => s
  | rec :: rest => drain (fst (insert s (answers O) rec)) rest (fun n => answers (S n))
  end.

Definition drainRemaining (s : t) (answers : nat -> sql.answers) : t :=
  returned (drain (with_queue s []) (queue s) answers).

(** The engine's answers to the two statements of a retention pass. *)
Record retentionAnswers := {
  deleteRequestsFails : option error;
  deleteDailyFails : option error
}.

(** The cutoff of a pass: the clock minus the retention, the duration
    computed in 64 bits. *)
Definition retentionCutoff (days : Z) (now : time.Time) : time.Time :=
  time.Add now (time.wrap64 (time.wrap64 (time.wrap64 (- days) * 24) * time.Hour)).

Definition applyRetention (s : t) (now : time.Time) (a : retentionAnswers) : t :=
  if retentionDays s <=? 0 then s
  else
    let cutoff := retentionCutoff (retentionDays s) now in
    let d1 :=
      match dbClosed s, deleteRequestsFails a with
      | false, None => deleteRequestsBefore cutoff (db s)
      | _, _ => db s
      end in
    let cutoffDay := time.FormatDay cutoff in
    let d2 :=
      match dbClosed s, deleteDailyFails a with
      | false, None => deleteDailyBefore cutoffDay d1
      | _, _ => d1
      end in
    with_db s d2.

(** What [close] meets: the answers to the inserts of the drain, the clock
    and the answers of the last retention pass, and which of the two
    workers gets to the database first. *)
Record closing := {
  drainAnswers : nat -> sql.answers;
  closeTime : time.Time;
  lastRetention : retentionAnswers;
  retentionFirst : bool
}.

(** [close]: closing [stop] twice panics; the wait ends when [run] has
    drained the queue and [retentionLoop] has made its last pass. *)
Definition close (s : t) (c : closing) : outcome t :=
  if stop s then Panics "close of closed channel"
  else
    let s1 := stopped s in
    let s2 :=
      if retentionFirst c
      then drainRemaining (applyRetention s1 (closeTime c) (lastRetention c))
             (drainAnswers c)
      else applyRetention (drainRemaining s1 (drainAnswers c))
             (closeTime c) (lastRetention c) in
    Returns (with_db_closed s2).

End usageStore.

(** What the file system and the engine answer to [newUsageStore]: one of
    the three failures, or the content of the database once the schema is
    in place. *)
Inductive openAnswer :=
  | MkdirFails (err : error)
  | OpenFails (err : error)
  | SchemaFails (err : error)
  | Opened (d : database).

Definition newUsageStore (fs : openAnswer) (opts : DatabaseOptions) : error + usageStore.t :=
  if String.eqb (Path opts) "" then inl "usage: database path is empty"
  else
    match fs with
    | MkdirFails err => inl ("usage: mkdir failed: " ++ err)
    | OpenFails err => inl ("usage: open sqlite: " ++ err)
    | SchemaFails err => inl ("usage: apply schema: " ++ err)
    | Opened d =>
        inr {| usageStore.db := d;
               usageStore.dbClosed := false;
               usageStore.retentionDays := RetentionDays opts;
               usageStore.queue := [];
               usageStore.stop := false;
               usageStore.running := true |}
    end.

(** *** The two package variables

    [stores] holds the stores made so far, by address; [currentUsageStore]
    and [currentDBConfig] are the two atomic pointers. *)
Record World := {
  stores : gmap nat usageStore.t;
  allocated : nat;
  currentUsageStore : option nat;
  currentDBConfig : option DatabaseOptions
}.

Definition initialWorld : World :=
  {| stores := ∅; allocated := O; currentUsageStore := None; currentDBConfig := None |}.

Definition closeStore (w : World) (p : option nat) (c : usageStore.closing) : outcome World :=
  match p with
  | None => Returns w
  | Some a =>
      match stores w !! a with
      | None => Panics "runtime error: invalid memory address or nil pointer dereference"
      | Some s =>
          match usageStore.close s c with
          | Returns s' =>
              Returns {| stores := <[a := s']> (stores w);
                         allocated := allocated w;
                         currentUsageStore := currentUsageStore w;
                         currentDBConfig := currentDBConfig w |}
          | Panics msg => Panics msg
          | Blocks => Blocks
          end
      end
  end.

Section Configure.

(** [filepath.Clean] of the platform. *)
Variable filepath_Clean : string -> string.

Definition normalizeDatabaseOptions (opts : DatabaseOptions) : DatabaseOptions :=
  let retention := if RetentionDays opts <=? 0 then 14 else RetentionDays opts in
  let path := if nonEmpty (Path opts) then filepath_Clean (Path opts) else Path opts in
  {| Enabled := Enabled opts; Path := path; RetentionDays := retention |}.

Definition ConfigureDatabase (w : World) (fs : openAnswer) (c : usageStore.closing)
    (opts : DatabaseOptions) : outcome (World * option error) :=
  let normalized := normalizeDatabaseOptions opts in
  let prev := currentDBConfig w in
  if configsEqual prev (Some normalized) then Returns (w, None)
  else if negb (Enabled normalized) || String.eqb (Path normalized) "" then
    let prevStore := currentUsageStore w in
    let w1 := {| stores := stores w; allocated := allocated w;
                 currentUsageStore := None;
                 currentDBConfig := Some normalized |} in
    match closeStore w1 prevStore c with
    | Returns w2 => Returns (w2, None)
    | Panics msg => Panics msg
    | Blocks => Blocks
    end
  else
    match newUsageStore fs normalized with
    | inl err => Returns (w, Some err)
    | inr store =>
        let old := currentUsageStore w in
        let w1 := {| stores := <[allocated w := store]> (stores w);
                     allocated := S (allocated w);
                     currentUsageStore := Some (allocated w);
                     currentDBConfig := currentDBConfig w |} in
        match closeStore w1 old c with
        | Returns w2 =>
            Returns ({| stores := stores w2; allocated := allocated w2;
                        currentUsageStore := currentUsageStore w2;
                        currentDBConfig := Some normalized |}, None)
        | Panics msg => Panics msg
        | Blocks => Blocks
        end
    end.

End Configure.

Module databasePlugin.

Section Handle.

(** [normaliseDetail] belongs to another file of the package. *)
Variable normaliseDetail : coreusage.Detail -> TokenStats.

(** The record [HandleUsage] builds for the store, given the clock.  The
    conversion of the timestamp to UTC changes its location, not the
    instant. *)
Definition dbRecordOf (ctx : context.Context) (record : coreusage.Record_)
    (now : time.Time) : outcome dbRecord :=
  let detail := normaliseDetail (coreusage.Detail_ record) in
  let timestamp :=
    if time.IsZero (coreusage.RequestedAt record) then now
    else coreusage.RequestedAt record in
  match resolveStatusCode ctx with
  | Returns status =>
      let rateLimited := status =? StatusTooManyRequests in
      let apiKeyHash := fingerprint (coreusage.APIKey record) in
      Returns {| Timestamp := timestamp;
                 Provider := coreusage.Provider record;
                 Model := coreusage.Model record;
                 CredentialLabel := credentialLabel record;
                 CredentialFingerprint := credentialFingerprint record;
                 APIKeyHash := apiKeyHash;
                 AuthID := coreusage.AuthID record;
                 AuthIndex := coreusage.AuthIndex record;
                 Source := coreusage.Source record;
                 StatusCode := status;
                 Failed := coreusage.Failed record;
                 RateLimited := rateLimited;
                 Tokens := detail |}
  | Panics msg => Panics msg
  | Blocks => Blocks
  end.

(** [HandleUsage] from the store it loaded onwards; the error is the one it
    logs as a warning. *)
Definition handleOn (store : usageStore.t) (ctx : context.Context)
    (record : coreusage.Record_) (now : time.Time) (pick : selected)
    : outcome (usageStore.t * option error) :=
  match dbRecordOf ctx record now with
  | Returns dbRec => usageStore.enqueue store pick dbRec
  | Panics msg => Panics msg
  | Blocks => Blocks
  end.

Definition HandleUsage (w : World) (ctx : context.Context)
    (record : coreusage.Record_) (now : time.Time) (pick : selected)
    : outcome (World * option error) :=
  match currentUsageStore w with
  | None => Returns (w, None)
  | Some a =>
      match stores w !! a with
      | None => Panics "runtime error: invalid memory address or nil pointer dereference"
      | Some store =>
          match handleOn store ctx record now pick with
          | Returns (store', warning) =>
              Returns ({| stores := <[a := store']> (stores w);
                          allocated := allocated w;
                          currentUsageStore := currentUsageStore w;
                          currentDBConfig := currentDBConfig w |}, warning)
          | Panics msg => Panics msg
          | Blocks => Blocks
          end
      end
  end.

(** The life of one store: calls of [HandleUsage] that find it, rounds of
    its worker, passes of its retention loop, and the closing of [stop].
    Next to the store, the records whose insert returned no error are
    listed, oldest first.  A call of [HandleUsage] that panics or blocks
    leaves the store as it is (a blocked call that goes on later is a later
    event). *)
Inductive event :=
  | Handled (ctx : context.Context) (record : coreusage.Record_)
            (now : time.Time) (pick : selected)
  | Worked (a : sql.answers)
  | Retained (now : time.Time) (a : usageStore.retentionAnswers)
  | Stopped.

Definition step (s : usageStore.t) (e : event) : usageStore.t * list dbRecord :=
  match e with
  | Handled ctx record now pick =>
      match handleOn s ctx record now pick with
      | Returns (s', _) => (s', [])
      | _ => (s, [])
      end
  | Worked a =>
      match usageStore.run s a with
      | (s', None) =>
          (s', if usageStore.running s then firstn 1 (usageStore.queue s) else [])
      | (s', Some _) => (s', [])
      end
  | Retained now a => (usageStore.applyRetention s now a, [])
  | Stopped => (usageStore.stopped s, [])
  end.

Fixpoint steps (s : usageStore.t) (es : list event) : usageStore.t * list dbRecord :=
  match es with
  | [] => (s, [])
  | e :: rest =>
      let '(s1, done1) := step s e in
      let '(s2, done2) := steps s1 rest in
      (s2, (done1 ++ done2)%list)
  end.

End Handle.

End databasePlugin.

(** ** otlp_plugin.go *)

Module OTLPPlugin.

(** A value of the attribute bag. *)
Inductive attribute :=
  | AttrString (s : string)
  | AttrUint (n : Z)
  | AttrBool (b : bool).

(** [ts] holds the instant; its rendering by [time.RFC3339Nano] is left to
    the wire. *)
Record OTLPEvent := {
  Component : string;
  Event : string;
  Timestamp : time.Time;
  Provider : string;
  Model : string;
  AccountEmail : string;
  ConversationID : string;
  TurnID : string;
  Tokens : list (string * Z);
  RequestDurationMs : Z;
  StatusCode : Z;
  Attributes : list (string * attribute)
}.

(** [batch] is the accumulation buffer; [tickerStopped] and [stopChan]
    tell whether the ticker has been stopped and the stop channel closed.
    The client is the constant one with its five second timeout. *)
Record t := {
  endpoint : string;
  enabled : bool;
  batch : list coreusage.Record_;
  batchSize : Z;
  tickerStopped : bool;
  stopChan : bool
}.

Definition defaultEndpoint : string := "http://127.0.0.1:4318/v1/logs".

(** [env] is the value of DY_NOTI_OTEL_ENDPOINT. *)
Definition NewOTLPPlugin (env : string) : t :=
  {| endpoint := if String.eqb env "" then defaultEndpoint else env;
     enabled := true;
     batchSize := 10;
     batch := [];
     tickerStopped := false;
     stopChan := false |}.

(** What a call does to the world outside the plugin. *)
Inductive effect :=
  | Converted (e : OTLPEvent)
  | Posted (url : string) (e : OTLPEvent)
  | Logged (msg : string).

Definition stringKey (g : gin.Context) (key : string) : option string :=
  match gin.Get (gin.Keys g) key with
  | Some (gin.AnyString v) => Some v
  | _ => None
  end.

Definition convertRecordToEvent (ctx : context.Context) (record : coreusage.Record_)
    : outcome OTLPEvent :=
  let detail := coreusage.Detail_ record in
  let event (email conv turn : string) (status : Z) :=
    {| Component := "cli-proxy-api";
       Event := "usage.record";
       Timestamp := coreusage.RequestedAt record;
       Provider := coreusage.Provider record;
       Model := coreusage.Model record;
       AccountEmail := email;
       ConversationID := conv;
       TurnID := turn;
       Tokens := [("input", coreusage.InputTokens detail);
                  ("output", coreusage.OutputTokens detail);
                  ("reasoning", coreusage.ReasoningTokens detail);
                  ("cached", coreusage.CachedTokens detail);
                  ("total", coreusage.TotalTokens detail)];
       RequestDurationMs := 0;
       StatusCode := status;
       Attributes := [("api_key", AttrString (coreusage.APIKey record));
                      ("auth_id", AttrString (coreusage.AuthID record));
                      ("auth_index", AttrUint (coreusage.AuthIndex record));
                      ("source", AttrString (coreusage.Source record));
                      ("failed", AttrBool (coreusage.Failed record))] |} in
  match ctx with
  | context.Nil => Panics "runtime error: invalid memory address or nil pointer dereference"
  | context.Ctx (context.Gin g) =>
      let email :=
        match stringKey g "auth_value" with
        | Some v => if nonEmpty v then v else ""
        | None => ""
        end in
      let conv := default "" (stringKey g "conversation_id") in
      let turn := default "" (stringKey g "turn_id") in
      let status := default 200 (gin.Writer g) in
      Returns (event email conv turn status)
  | context.Ctx _ => Returns (event "" "" "" 200)
  end.

(** What the world answers to one [sendEvent]. *)
Inductive sendAnswer :=
  | MarshalFails (err : error)
  | RequestFails (err : error)
  | TransportFails (err : error)
  | Responded (statusCode : Z) (status : string).

(** The request leaves the process once [client.Do] is called. *)
Definition sendEvent (p : t) (event : OTLPEvent) (a : sendAnswer)
    : list effect * option error :=
  match a with
  | MarshalFails err => ([], Some ("marshal event: " ++ err))
  | RequestFails err => ([], Some ("create request: " ++ err))
  | TransportFails err => ([Posted (endpoint p) event], Some ("send request: " ++ err))
  | Responded code status =>
      ([Posted (endpoint p) event],
       if (code <? 200) || (300 <=? code)
       then Some ("HTTP " ++ time.appendInt code 0 ++ ": " ++ status)
       else None)
  end.

Definition logged (prefix : string) (err : option error) : list effect :=
  match err with
  | Some e => [Logged (prefix ++ e)]
  | None => []
  end.

Definition HandleUsage (p : t) (ctx : context.Context) (record : coreusage.Record_)
    (a : sendAnswer) : outcome (list effect) :=
  if negb (enabled p) then Returns []
  else
    match convertRecordToEvent ctx record with
    | Returns event =>
        let '(sent, err) := sendEvent p event a in
        Returns (Converted event :: sent ++ logged "OTLP plugin: failed to send event: " err)%list
    | Panics msg => Panics msg
    | Blocks => Blocks
    end.

Definition SetEnabled (p : t) (enabled' : bool) : t :=
  {| endpoint := endpoint p; enabled := enabled'; batch := batch p;
     batchSize := batchSize p; tickerStopped := tickerStopped p;
     stopChan := stopChan p |}.

Definition IsEnabled (p : t) : bool := enabled p.

Definition SetEndpoint (p : t) (endpoint' : string) : t :=
  {| endpoint := strings.TrimSpace endpoint'; enabled := enabled p; batch := batch p;
     batchSize := batchSize p; tickerStopped := tickerStopped p;
     stopChan := stopChan p |}.

Definition GetEndpoint (p : t) : string := endpoint p.

(** The loop over the copied batch; [answers n] answers the [n]-th send. *)
Fixpoint sendBatch (p : t) (records : list coreusage.Record_)
    (answers : nat -> sendAnswer) : list effect :=
  match records with
  | [] => []
  | record :: rest =>
      let here :=
        match convertRecordToEvent context.Background record with
        | Returns event =>
            let '(sent, err) := sendEvent p event (answers O) in
            (Converted event :: sent ++
             logged "OTLP plugin: failed to send batched event: " err)%list
        | _ => []
        end in
      (here ++ sendBatch p rest (fun n => answers (S n)))%list
  end.

Definition flushBatch (p : t) (answers : nat -> sendAnswer) : t * list effect :=
  match batch p with
  | [] => (p, [])
  | batchCopy =>
      let p' := {| endpoint := endpoint p; enabled := enabled p; batch := [];
                   batchSize := batchSize p; tickerStopped := tickerStopped p;
                   stopChan := stopChan p |} in
      (p', sendBatch p' batchCopy answers)
  end.

(** One round of the loop of [periodicFlush] on a tick of the ticker.  With
    [stopChan] closed both cases may be ready, and the pick decides. *)
Definition periodicFlush (p : t) (pick : selected) (answers : nat -> sendAnswer)
    : t * list effect :=
  match stopChan p, pick with
  | true, FirstCase => (p, [])
  | _, _ => flushBatch p answers
  end.

Definition Close (p : t) (answers : nat -> sendAnswer) : outcome (t * list effect) :=
  let p1 := {| endpoint := endpoint p; enabled := enabled p; batch := batch p;
               batchSize := batchSize p; tickerStopped := true;
               stopChan := stopChan p |} in
  if stopChan p1 then Panics "close of closed channel"
  else
    let p2 := {| endpoint := endpoint p1; enabled := enabled p1; batch := batch p1;
                 batchSize := batchSize p1; tickerStopped := tickerStopped p1;
                 stopChan := true |} in
    Returns (flushBatch p2 answers).

(** The operations a plugin meets in its life. *)
Inductive call :=
  | CallHandleUsage (ctx : context.Context) (record : coreusage.Record_) (a : sendAnswer)
  | CallSetEnabled (b : bool)
  | CallSetEndpoint (endpoint' : string)
  | CallTick (pick : selected) (answers : nat -> sendAnswer)
  | CallClose (answers : nat -> sendAnswer).

Definition step (p : t) (c : call) : outcome (t * list effect) :=
  match c with
  | CallHandleUsage ctx record a =>
      match HandleUsage p ctx record a with
      | Returns effects => Returns (p, effects)
      | Panics msg => Panics msg
      | Blocks => Blocks
      end
  | CallSetEnabled b => Returns (SetEnabled p b, [])
  | CallSetEndpoint e => Returns (SetEndpoint p e, [])
  | CallTick pick answers => Returns (periodicFlush p pick answers)
  | CallClose answers => Close p answers
  end.

(** The states a plugin made by [NewOTLPPlugin] can be in. *)
Inductive reachable : t -> Prop :=
  | reachable_new (env : string) : reachable (NewOTLPPlugin env)
  | reachable_step (p p' : t) (c : call) (effects : list effect) :
      reachable p -> step p c = Returns (p', effects) -> reachable p'.

(** A sequence of calls, one after the other, and all they did. *)
Fixpoint calls (p : t) (cs : list call) : outcome (t * list effect) :=
  match cs with
  | [] => Returns (p, [])
  | c :: rest =>
      match step p c with
      | Returns (p1, effects1) =>
          match calls p1 rest with
          | Returns (p2, effects2) => Returns (p2, (effects1 ++ effects2)%list)
          | Panics msg => Panics msg
          | Blocks => Blocks
          end
      | Panics msg => Panics msg
      | Blocks => Blocks
      end
  end.

Definition enables (c : call) : bool :=
  match c with
  | CallSetEnabled true => true
  | _ => false
  end.

(** The events that left the process. *)
Definition posts (effects : list effect) : list (string * OTLPEvent) :=
  flat_map (fun e => match e with Posted url ev => [(url, ev)] | _ => [] end) effects.

Definition conversions (effects : list effect) : list OTLPEvent :=
  flat_map (fun e => match e with Converted ev => [ev] | _ => [] end) effects.

End OTLPPlugin.

(** The package variable holding the exporter, and the functions over it. *)
Definition OTLPEnabled (globalOTLPPlugin : option OTLPPlugin.t) : bool :=
  match globalOTLPPlugin with
  | Some p => OTLPPlugin.IsEnabled p
  | None => true
  end.

Definition SetOTLPEnabled (globalOTLPPlugin : option OTLPPlugin.t) (enabled : bool)
    : option OTLPPlugin.t :=
  option_map (fun p => OTLPPlugin.SetEnabled p enabled) globalOTLPPlugin.

Definition OTLPEndpoint (globalOTLPPlugin : option OTLPPlugin.t) : string :=
  match globalOTLPPlugin with
  | Some p => OTLPPlugin.GetEndpoint p
  | None => OTLPPlugin.defaultEndpoint
  end.

Definition SetOTLPEndpoint (globalOTLPPlugin : option OTLPPlugin.t) (endpoint : string)
    : option OTLPPlugin.t :=
  option_map (fun p => OTLPPlugin.SetEndpoint p endpoint) globalOTLPPlugin.

(** [RegisterOTLPPlugin]: the plugin made from the environment becomes the
    package's exporter (and is handed to the usage manager). *)
Definition RegisterOTLPPlugin (env : string) : option OTLPPlugin.t :=
  Some (OTLPPlugin.NewOTLPPlugin env).

(** ** management/otlp.go *)

Module management.

(** A value of a JSON body. *)
Inductive jsonValue :=
  | JSONBool (b : bool)
  | JSONString (s : string).

(** What a handler writes: the status code and the fields of the body. *)
Definition response : Type := Z * list (string * jsonValue).

Definition StatusOK : Z := 200.
Definition StatusBadRequest : Z := 400.

Definition GetOTLPEnabled (globalOTLPPlugin : option OTLPPlugin.t) : response :=
  (StatusOK, [("enabled", JSONBool (OTLPEnabled globalOTLPPlugin))]).

(** [bound] is what [ShouldBindJSON] makes of the body: an error, or the
    field of the request. *)
Definition SetOTLPEnabled (globalOTLPPlugin : option OTLPPlugin.t) (bound : error + bool)
    : option OTLPPlugin.t * response :=
  match bound with
  | inl err => (globalOTLPPlugin, (StatusBadRequest, [("error", JSONString err)]))
  | inr enabled =>
      (SetOTLPEnabled globalOTLPPlugin enabled,
       (StatusOK, [("enabled", JSONBool enabled);
                   ("message", JSONString "OTLP telemetry status updated")]))
  end.

Definition GetOTLPEndpoint (globalOTLPPlugin : option OTLPPlugin.t) : response :=
  (StatusOK, [("endpoint", JSONString (OTLPEndpoint globalOTLPPlugin))]).

Definition SetOTLPEndpoint (globalOTLPPlugin : option OTLPPlugin.t) (bound : error + string)
    : option OTLPPlugin.t * response :=
  match bound with
  | inl err => (globalOTLPPlugin, (StatusBadRequest, [("error", JSONString err)]))
  | inr endpoint =>
      (SetOTLPEndpoint globalOTLPPlugin endpoint,
       (StatusOK, [("endpoint", JSONString endpoint);
                   ("message", JSONString "OTLP endpoint updated")]))
  end.

End management.

(** ** Notions of the specification *)

(** "The first non-empty value among ..., in that priority order". *)
Fixpoint firstNonEmpty (values : list string) : option string :=
  match values with
  | [] => None
  | v :: rest => if nonEmpty v then Some v else firstNonEmpty rest
  end.

(** The one-way hash: SHA-256, in lower-case hexadecimal. *)
Definition oneWayHash (value : string) : string :=
  Hex.EncodeToString (SHA256.Sum256 (Hex.bytes_of_string value)).

Definition isByte (b : Z) : Prop := 0 <= b < 256.

(** A run of white space: white-space runes, one after the other. *)
Definition whiteSpace (l : list Z) : Prop :=
  exists es, Forall (fun e => In e strings.spaceEncodings) es /\ l = concat es.

(** The width of the trailing white-space rune, if there is one. *)
Definition trailingSpace (l : list Z) : option nat :=
  strings.leadingSpace (map (@rev Z) strings.spaceEncodings) (rev l).

(** Every row of the two tables carries a credential label. *)
Definition labelled (d : database) : Prop :=
  Forall (fun row => req_credential_label row <> "") (usage_requests d)
  /\ forall k row, usage_daily d !! k = Some row -> credential_label row <> "".

Definition labelledRecords (recs : list dbRecord) : Prop :=
  Forall (fun rec => CredentialLabel rec <> "") recs.

(** The two package variables agree: the current store, when there is one,
    was made, is open, and has the retention of the current configuration. *)
Definition consistent (w : World) : Prop :=
  forall a, currentUsageStore w = Some a ->
    (a < allocated w)%nat
    /\ exists s cfg,
         stores w !! a = Some s
         /\ currentDBConfig w = Some cfg
         /\ usageStore.retentionDays s = RetentionDays cfg
         /\ usageStore.dbClosed s = false.

(** The records that share a key, in the order given. *)
Definition sharing (k : dailyKey) (recs : list dbRecord) : list dbRecord :=
  List.filter (fun rec => bool_decide (dailyKeyOf rec = k)) recs.




(** The sums [acc + x1], [acc + x1 + x2], ... all fit in 64 bits. *)
Fixpoint sumsFit (acc : Z) (xs : list Z) : bool :=
  match xs with
  | [] => true
  | x :: rest => time.in_int64 (acc + x) && sumsFit (acc + x) rest
  end.



(** The event leaves the daily row of the key in place: it is no retention
    pass, or one of a store without retention, or one whose cutoff day is
    not after the day of the key. *)
Definition spares (retention : Z) (k : dailyKey) (e : databasePlugin.event) : bool :=
  match e with
  | databasePlugin.Retained now _ =>
      (retention <=? 0)
      || negb (String.ltb (key_day k)
                 (time.FormatDay (usageStore.retentionCutoff retention now)))
  | _ => true
  end.

(** The record is the one some call of [HandleUsage] among the events
    built. *)
Definition built (normaliseDetail : coreusage.Detail -> TokenStats)
    (events : list databasePlugin.event) (rec : dbRecord) : Prop :=
  exists ctx record now pick,
    In (databasePlugin.Handled ctx record now pick) events
    /\ databasePlugin.dbRecordOf normaliseDetail ctx record now = Returns rec.

(** [n] rounds of the worker, one after the other. *)
Fixpoint rounds (s : usageStore.t) (n : nat) (answers : nat -> sql.answers) : usageStore.t :=
  match n with
  | O => s
  | S m => rounds (fst (usageStore.run s (answers O))) m (fun i => answers (S i))
  end.

(** ** Sample inputs *)

(** A usage record none of whose identifying fields is set. *)
Definition anonymousRecord : coreusage.Record_ :=
  {| coreusage.Provider := ""; coreusage.Model := ""; coreusage.APIKey := "";
     coreusage.AuthID := ""; coreusage.AuthIndex := 0; coreusage.Source := "";
     coreusage.RequestedAt := time.zeroTime; coreusage.Failed := false;
     coreusage.Detail_ :=
       {| coreusage.InputTokens := 0; coreusage.OutputTokens := 0;
          coreusage.ReasoningTokens := 0; coreusage.CachedTokens := 0;
          coreusage.TotalTokens := 0 |} |}.

(** A retention pass during which nothing fails. *)
Definition quietRetention : usageStore.retentionAnswers :=
  {| usageStore.deleteRequestsFails := None; usageStore.deleteDailyFails := None |}.

(** A close during which nothing fails, at the epoch. *)
Definition quietClosing : usageStore.closing :=
  {| usageStore.drainAnswers := fun _ => sql.allSucceed;
     usageStore.closeTime := 0;
     usageStore.lastRetention := quietRetention;
     usageStore.retentionFirst := false |}.

(** An insert whose commit fails. *)
Definition commitBusy : sql.answers :=
  {| sql.beginFails := None; sql.firstExecFails := None;
     sql.secondExecFails := None; sql.commitFails := Some "database is locked" |}.

(** A store as [newUsageStore] makes it on a new file. *)
Definition freshStore (retention : Z) : usageStore.t :=
  {| usageStore.db := emptyDatabase;
     usageStore.dbClosed := false;
     usageStore.retentionDays := retention;
     usageStore.queue := [];
     usageStore.stop := false;
     usageStore.running := true |}.

(** The record of the first test of the package, on 2026-11-02. *)
Definition qwenRecord : dbRecord :=
  {| Timestamp := 1793618399 * 10 ^ 9;
     Provider := "qwen";
     Model := "qwen3-coder";
     CredentialLabel := "acct@example.com";
     CredentialFingerprint := "fingerprint";
     APIKeyHash := "hash";
     AuthID := "auth-A";
     AuthIndex := 7;
     Source := "source-A";
     StatusCode := 200;
     Failed := false;
     RateLimited := false;
     Tokens := {| InputTokens := 10; OutputTokens := 15; ReasoningTokens := 0;
                  CachedTokens := 0; TotalTokens := 25 |} |}.

(** A database holding that one record, and the store [newUsageStore]
    makes on it with fourteen days of retention. *)
Definition qwenDatabase : database :=
  upsertDaily qwenRecord (insertRequest qwenRecord emptyDatabase).

Definition qwenStore : usageStore.t :=
  {| usageStore.db := qwenDatabase;
     usageStore.dbClosed := false;
     usageStore.retentionDays := 14;
     usageStore.queue := [];
     usageStore.stop := false;
     usageStore.running := true |}.

(** A new store after [close]. *)
Definition closedStore : usageStore.t :=
  {| usageStore.db := emptyDatabase;
     usageStore.dbClosed := true;
     usageStore.retentionDays := 14;
     usageStore.queue := [];
     usageStore.stop := true;
     usageStore.running := false |}.

(** Thirty days after that record. *)
Definition thirtyDaysLater : time.Time := Timestamp qwenRecord + 30 * 24 * time.Hour.

(** The identity on token counts, a stand-in for [normaliseDetail]. *)
Definition copyDetail (detail : coreusage.Detail) : TokenStats :=
  {| InputTokens := coreusage.InputTokens detail;
     OutputTokens := coreusage.OutputTokens detail;
     ReasoningTokens := coreusage.ReasoningTokens detail;
     CachedTokens := coreusage.CachedTokens detail;
     TotalTokens := coreusage.TotalTokens detail |}.

(** The usage record of the second test of the package, on 2026-11-02, and
    a context whose response writer reports the status given. *)
Definition claudeRecord (failed : bool) (total : Z) : coreusage.Record_ :=
  {| coreusage.Provider := "claude"; coreusage.Model := "claude-3";
     coreusage.APIKey := ""; coreusage.AuthID := "auth-X";
     coreusage.AuthIndex := 2; coreusage.Source := "source-X";
     coreusage.RequestedAt := 1793618399 * 10 ^ 9; coreusage.Failed := failed;
     coreusage.Detail_ :=
       {| coreusage.InputTokens := 4; coreusage.OutputTokens := 6;
          coreusage.ReasoningTokens := 0; coreusage.CachedTokens := 0;
          coreusage.TotalTokens := total |} |}.

Definition respondedWith (status : Z) : context.Context :=
  context.Ctx (context.Gin {| gin.Keys := []; gin.Writer := Some status |}).

Definition claudeKey : dailyKey :=
  ("2026-11-02", "claude", fingerprint "auth-X", "claude-3").

(** Five calls of [HandleUsage], the second of a rate-limited and failed
    request, the third for a record whose insert fails at the commit,
    the fifth on the stopped store, after the worker has returned; the
    worker inserts two records before [stop] is closed and one after, and
    a retention pass runs six hours after the first records. *)
Definition claudeEvents : list databasePlugin.event :=
  [databasePlugin.Handled (respondedWith 200) (claudeRecord false 10) 0 FirstCase;
   databasePlugin.Handled (respondedWith 429) (claudeRecord true 0) 0 FirstCase;
   databasePlugin.Worked sql.allSucceed;
   databasePlugin.Handled (respondedWith 200) (claudeRecord false 1000) 0 FirstCase;
   databasePlugin.Worked sql.allSucceed;
   databasePlugin.Worked commitBusy;
   databasePlugin.Retained (1793618399 * 10 ^ 9 + 6 * time.Hour) quietRetention;
   databasePlugin.Handled (respondedWith 200) (claudeRecord false 32) 0 FirstCase;
   databasePlugin.Stopped;
   databasePlugin.Worked sql.allSucceed;
   databasePlugin.Worked sql.allSucceed;
   databasePlugin.Handled (respondedWith 200) (claudeRecord false 7) 0 FirstCase;
   databasePlugin.Worked sql.allSucceed].

(** Options as the second test of the package configures them. *)
Definition testOptions : DatabaseOptions :=
  {| Enabled := true; Path := "usage.db"; RetentionDays := 2 |}.

(** The world after [ConfigureDatabase testOptions] on a new file. *)
Definition testWorld : World :=
  {| stores := <[O := freshStore 2]> ∅;
     allocated := 1;
     currentUsageStore := Some O;
     currentDBConfig := Some testOptions |}.

(** Options with a negative retention, and the world after
    [ConfigureDatabase] with them on a new file. *)
Definition negativeOptions : DatabaseOptions :=
  {| Enabled := true; Path := "usage.db"; RetentionDays := -1 |}.


(** A path that [filepath.Clean] returns as it is, such as [usage.db],
    needs no more than the identity. *)
Definition cleanPath (path : string) : string := path.

(** A collector that answers every event with 200 OK. *)
Definition alwaysOK : nat -> OTLPPlugin.sendAnswer :=
  fun _ => OTLPPlugin.Responded 200 "200 OK".

(** Calls on a disabled exporter, none of which enables it again. *)
Definition quietCalls : list OTLPPlugin.call :=
  [OTLPPlugin.CallSetEndpoint "  https://collector.example/v1/logs  ";
   OTLPPlugin.CallHandleUsage context.Nil anonymousRecord (OTLPPlugin.Responded 200 "200 OK");
   OTLPPlugin.CallTick SecondCase alwaysOK;
   OTLPPlugin.CallSetEnabled false].

(** No-break space, space, [a b], em space, line feed. *)
Definition paddedBytes : list Z := [194; 160; 32; 97; 32; 98; 226; 128; 131; 10].

(** ** Further notions *)

Definition isLowerHex (c : ascii) : bool :=
  let n := Z.of_nat (nat_of_ascii c) in
  ((48 <=? n) && (n <=? 57)) || ((97 <=? n) && (n <=? 102)).

Fixpoint allChars (f : ascii -> bool) (s : string) : bool :=
  match s with
  | EmptyString => true
  | String c rest => f c && allChars f rest
  end.

(** The records the calls of [HandleUsage] among the events build, in the
    order of the calls, whether the queue takes them or not. *)
Fixpoint offered (normaliseDetail : coreusage.Detail -> TokenStats)
    (events : list databasePlugin.event) : list dbRecord :=
  match events with
  | [] => []
  | databasePlugin.Handled ctx record now _ :: rest =>
      match databasePlugin.dbRecordOf normaliseDetail ctx record now with
      | Returns rec => rec :: offered normaliseDetail rest
      | _ => offered normaliseDetail rest
      end
  | _ :: rest => offered normaliseDetail rest
  end.

(** [lo < i1 < i2 < ... < in <= hi]. *)
Fixpoint ascending (lo : Z) (ids : list Z) (hi : Z) : Prop :=
  match ids with
  | [] => lo <= hi
  | i :: rest => lo < i /\ ascending i rest hi
  end.

(** The ids of the fact rows increase along the table and none is above
    the largest id handed out. *)
Definition idsInOrder (d : database) : Prop :=
  exists lo, ascending lo (map req_id (usage_requests d)) (requests_seq d).

(** The fact row of a record, under the id given. *)
Definition requestRowOf (id : Z) (rec : dbRecord) : requestRow :=
  {| req_id := id;
     req_timestamp := Timestamp rec;
     req_provider := Provider rec;
     req_model := Model rec;
     req_credential_label := CredentialLabel rec;
     req_credential_fingerprint := CredentialFingerprint rec;
     req_api_key_hash := APIKeyHash rec;
     req_auth_id := AuthID rec;
     req_auth_index := AuthIndex rec;
     req_source := Source rec;
     req_status_code := StatusCode rec;
     req_failed := boolToInt (Failed rec);
     req_rate_limited := boolToInt (RateLimited rec);
     req_prompt_tokens := InputTokens (Tokens rec);
     req_completion_tokens := OutputTokens (Tokens rec);
     req_reasoning_tokens := ReasoningTokens (Tokens rec);
     req_cached_tokens := CachedTokens (Tokens rec);
     req_total_tokens := TotalTokens (Tokens rec) |}.

(** The fact rows of records, numbered from [seq + 1] on. *)
Fixpoint numbered (seq : Z) (recs : list dbRecord) : list requestRow :=
  match recs with
  | [] => []
  | rec :: rest => requestRowOf (seq + 1) rec :: numbered (seq + 1) rest
  end.

Definition isRetained (e : databasePlugin.event) : bool :=
  match e with
  | databasePlugin.Retained _ _ => true
  | _ => false
  end.

Definition sumOf (f : dbRecord -> Z) (recs : list dbRecord) : Z :=
  fold_right Z.add 0 (map f recs).

(** The running sums of the input and of the output token counts fit in
    64 bits. *)
Definition tokensFit (recs : list dbRecord) : Prop :=
  sumsFit 0 (map (fun rec => InputTokens (Tokens rec)) recs) = true
  /\ sumsFit 0 (map (fun rec => OutputTokens (Tokens rec)) recs) = true.

(** The daily row of a key holds the sums of the input and output token
    counts of the records given, and the label of the last of them. *)
Definition tokenSummary (hits : list dbRecord) (row : option dailyRow) : Prop :=
  match row with
  | None => hits = []
  | Some row =>
      prompt_tokens row = SqlInt (sumOf (fun rec => InputTokens (Tokens rec)) hits)
      /\ completion_tokens row = SqlInt (sumOf (fun rec => OutputTokens (Tokens rec)) hits)
      /\ CredentialLabel <$> last hits = Some (credential_label row)
  end.

(** The database once the records given have been inserted, one after the
    other: the two writes of each. *)
Definition written (recs : list dbRecord) (d : database) : database :=
  fold_left (fun d rec => upsertDaily rec (insertRequest rec d)) recs d.

(** The largest retention whose duration fits in 64 bits of nanoseconds:
    a little more than 292 years. *)
Definition longestRetention : Z := 106751.

(** A store with a retention of one day more than [longestRetention]. *)
Definition centuriesStore : usageStore.t :=
  {| usageStore.db := qwenDatabase;
     usageStore.dbClosed := false;
     usageStore.retentionDays := 106752;
     usageStore.queue := [];
     usageStore.stop := false;
     usageStore.running := true |}.

(** The current store, when there is one, is in use: it was made, its
    [stop] is open, its handle is open and its worker has not returned. *)
Definition live (w : World) : Prop :=
  forall a, currentUsageStore w = Some a ->
    (a < allocated w)%nat
    /\ exists s,
         stores w !! a = Some s
         /\ usageStore.stop s = false
         /\ usageStore.dbClosed s = false
         /\ usageStore.running s = true.

(** What happens to the package, one call after the other: a call of
    [ConfigureDatabase], a call of [HandleUsage], or a round of the worker
    or a pass of the retention loop of one of the stores. *)
Inductive packageCall :=
  | Configured (fs : openAnswer) (c : usageStore.closing) (opts : DatabaseOptions)
  | Recorded (ctx : context.Context) (record : coreusage.Record_)
             (now : time.Time) (pick : selected)
  | WorkerRound (a : nat) (answers : sql.answers)
  | RetentionPass (a : nat) (now : time.Time) (answers : usageStore.retentionAnswers).

Definition onStore (w : World) (a : nat) (f : usageStore.t -> usageStore.t) : World :=
  match stores w !! a with
  | Some s => {| stores := <[a := f s]> (stores w);
                 allocated := allocated w;
                 currentUsageStore := currentUsageStore w;
                 currentDBConfig := currentDBConfig w |}
  | None => w
  end.

Section Package.

Variable filepath_Clean : string -> string.
Variable normaliseDetail : coreusage.Detail -> TokenStats.

Definition packageStep (w : World) (c : packageCall) : outcome (World * option error) :=
  match c with
  | Configured fs c opts => ConfigureDatabase filepath_Clean w fs c opts
  | Recorded ctx record now pick =>
      databasePlugin.HandleUsage normaliseDetail w ctx record now pick
  | WorkerRound a answers =>
      Returns (onStore w a (fun s => fst (usageStore.run s answers)), None)
  | RetentionPass a now answers =>
      Returns (onStore w a (fun s => usageStore.applyRetention s now answers), None)
  end.

(** The worlds the package can be in, from its start. *)
Inductive reachableWorld : World -> Prop :=
  | reachable_start : reachableWorld initialWorld
  | reachable_call (w w' : World) (c : packageCall) (r : option error) :
      reachableWorld w -> packageStep w c = Returns (w', r) -> reachableWorld w'.

End Package.

(** No store is left behind: every store made is the current one or has
    been closed. *)
Definition tidy (w : World) : Prop :=
  forall a s, stores w !! a = Some s ->
    (a < allocated w)%nat
    /\ (currentUsageStore w = Some a
        \/ (usageStore.stop s = true /\ usageStore.dbClosed s = true)).

(** The messages logged. *)
Definition logs (effects : list OTLPPlugin.effect) : list string :=
  flat_map (fun e => match e with OTLPPlugin.Logged msg => [msg] | _ => [] end) effects.

(** The answer is a response with a status code from 200 to 299. *)
Definition accepted (a : OTLPPlugin.sendAnswer) : bool :=
  match a with
  | OTLPPlugin.Responded code _ => (200 <=? code) && (code <? 300)
  | _ => false
  end.

(** The request was handed to the client. *)
Definition handedOver (a : OTLPPlugin.sendAnswer) : bool :=
  match a with
  | OTLPPlugin.MarshalFails _ | OTLPPlugin.RequestFails _ => false
  | _ => true
  end.

(** A store whose queue is full: 2048 copies of one record. *)
Definition fullStore : usageStore.t :=
  {| usageStore.db := emptyDatabase;
     usageStore.dbClosed := false;
     usageStore.retentionDays := 14;
     usageStore.queue := repeat qwenRecord 2048;
     usageStore.stop := false;
     usageStore.running := true |}.

(** The usage record with another API key. *)
Definition withAPIKey (record : coreusage.Record_) (key : string) : coreusage.Record_ :=
  {| coreusage.Provider := coreusage.Provider record;
     coreusage.Model := coreusage.Model record;
     coreusage.APIKey := key;
     coreusage.AuthID := coreusage.AuthID record;
     coreusage.AuthIndex := coreusage.AuthIndex record;
     coreusage.Source := coreusage.Source record;
     coreusage.RequestedAt := coreusage.RequestedAt record;
     coreusage.Failed := coreusage.Failed record;
     coreusage.Detail_ := coreusage.Detail_ record |}.

(** A rate-limited, failed request of another provider, a minute later. *)
Definition limitedRecord : dbRecord :=
  {| Timestamp := 1793618459 * 10 ^ 9;
     Provider := "claude";
     Model := "claude-3";
     CredentialLabel := "auth-X";
     CredentialFingerprint := "fingerprint-X";
     APIKeyHash := "";
     AuthID := "auth-X";
     AuthIndex := 2;
     Source := "source-X";
     StatusCode := 429;
     Failed := true;
     RateLimited := true;
     Tokens := {| InputTokens := 4; OutputTokens := 6; ReasoningTokens := 0;
                  CachedTokens := 0; TotalTokens := 10 |} |}.

(** The store of the first test with two records waiting in its queue. *)
Definition busyStore : usageStore.t :=
  usageStore.with_queue qwenStore [qwenRecord; limitedRecord].

(** Options for another file, seven days of retention. *)
Definition otherOptions : DatabaseOptions :=
  {| Enabled := true; Path := "other.db"; RetentionDays := 7 |}.

(** ** The order of the stored timestamps *)

(** The year of an instant, in UTC. *)
Definition yearOf (t : time.Time) : Z := (time.civil (t / (24 * time.Hour))).1.1.

(** The year is written with four digits: it is one of the years 0 to
    9999. *)
Definition fourDigitYear (t : time.Time) : Prop := 0 <= yearOf t <= 9999.

Definition isDigit (c : ascii) : bool :=
  existsb (Ascii.eqb c) ["0"; "1"; "2"; "3"; "4"; "5"; "6"; "7"; "8"; "9"]%char.

(** [P] holds of [fuel] numbers in a row, from [z] on. *)
Fixpoint allFrom (fuel : nat) (z : Z) (P : Z -> bool) : bool :=
  match fuel with
  | O => true
  | S k => if P z then allFrom k (z + 1) P else false
  end.

(** A number that orders dates as the calendar does. *)
Definition dateCode (date : Z * Z * Z) : Z := (date.1.1 * 13 + date.1.2) * 32 + date.2.

(** The parts of [time.civil]: the year of the era of a day of the era, the
    first day of a year of the era, and the date of a day of a year that
    starts on the first of March. *)
Definition yearOfEra (doe : Z) : Z := (doe - doe / 1460 + doe / 36524 - doe / 146096) / 365.

Definition startOfYear (yoe : Z) : Z := 365 * yoe + yoe / 4 - yoe / 100.

Definition endOfYear (yoe : Z) : Z :=
  if yoe =? 399 then 146096 else startOfYear (yoe + 1) - 1.

Definition dateOfYear (yoe doy : Z) : Z * Z * Z :=
  let mp := (5 * doy + 2) / 153 in
  let d := doy - (153 * mp + 2) / 5 + 1 in
  let m := if mp <? 10 then mp + 3 else mp - 9 in
  (yoe + (if m <=? 2 then 1 else 0), m, d).

Definition yearChecked (yoe : Z) : bool :=
  (yearOfEra (startOfYear yoe) =? yoe) && (yearOfEra (endOfYear yoe) =? yoe)
  && (startOfYear yoe <=? endOfYear yoe) && (endOfYear yoe <=? startOfYear yoe + 365)
  && ((yoe =? 399) || (endOfYear yoe + 1 =? startOfYear (yoe + 1))).

Definition dayChecked (doy : Z) : bool :=
  let '(a, m, d) := dateOfYear 0 doy in
  (0 <=? a) && (a <=? 1) && (1 <=? m) && (m <=? 12) && (1 <=? d) && (d <=? 31)
  && ((doy =? 365) || (dateCode (dateOfYear 0 doy) <? dateCode (dateOfYear 0 (doy + 1)))).

(** The clock of the day. *)
Definition clockText (sec : Z) : string :=
  time.appendInt (sec / 3600) 2 ++ ":" ++ time.appendInt (sec / 60 mod 60) 2 ++ ":"
  ++ time.appendInt (sec mod 60) 2.

(** A retention one day longer than [longestRetention], on the first of
    January 9800, over the record of the first test. *)
Definition year9800 : time.Time := 247090953600 * 10 ^ 9.

(** ** The calls of [HandleUsage] behind the records *)














(** * Properties *)

Example sha256_abc :
  Hex.EncodeToString (SHA256.Sum256 (Hex.bytes_of_string "abc"))
  = "ba7816bf8f01cfea414140de5dae2223b00361a396177a9cb410ff61f20015ad".
Proof. vm_compute. reflexivity. Qed.

Example sha256_unknown :
  Hex.EncodeToString (SHA256.Sum256 (Hex.bytes_of_string "unknown"))
  = "b23a6a8439c0dde5515893e7c90c1e3233b8616e634470f20dc4928bcf3609bc".
Proof. vm_compute. reflexivity. Qed.

Example sha256_two_blocks :
  Hex.EncodeToString (SHA256.Sum256 (repeat 97 120))
  = "2f3d335432c70b580af0e8e1b3674a7c020d683aa5f73aaaedfdc55af904c21c".
Proof. vm_compute. reflexivity. Qed.

Example sha256_56 :
  Hex.EncodeToString (SHA256.Sum256 (repeat 97 56))
  = "b35439a4ac6f0948b6d6f9e3c6af0f5f590ce20f1bde7090ef7970686ec6738a".
Proof. vm_compute. reflexivity. Qed.

Example format_epoch : time.FormatDay 0 = "1970-01-01".
Proof. reflexivity. Qed.
Example format_zero : time.FormatDay time.zeroTime = "0001-01-01".
Proof. vm_compute. reflexivity. Qed.
Example format_2024 : time.FormatDay (1709164800 * 10^9 + 5) = "2024-02-29".
Proof. vm_compute. reflexivity. Qed.
Example format_2026 : time.FormatDay (1793618399 * 10^9) = "2026-11-02".
Proof. vm_compute. reflexivity. Qed.
Example format_neg : time.FormatDay (-1) = "1969-12-31".
Proof. vm_compute. reflexivity. Qed.
Example trim_scenario :
  strings.TrimSpace "  https://collector.example/v1/logs  " = "https://collector.example/v1/logs".
Proof. vm_compute. reflexivity. Qed.
Example trim_all : strings.TrimSpace "   " = "".
Proof. vm_compute. reflexivity. Qed.
Example trim_unicode :
  strings.TrimSpace (strings.string_of_bytes paddedBytes) = "a b".
Proof. vm_compute. reflexivity. Qed.

(** The first test of the package: one insert, one fact row, and a daily
    row with one request, no failure and 25 tokens. *)
Example insert_and_aggregate :
  let s := fst (usageStore.insert (freshStore 3) sql.allSucceed qwenRecord) in
  length (usage_requests (usageStore.db s)) = 1%nat
  /\ usage_daily (usageStore.db s) !! ("2026-11-02", "qwen", "fingerprint", "qwen3-coder")
     = Some {| credential_label := "acct@example.com";
               total_requests := SqlInt 1;
               failed_requests := SqlInt 0;
               rate_limited := SqlInt 0;
               prompt_tokens := SqlInt 10;
               completion_tokens := SqlInt 15;
               total_tokens := SqlInt 25 |}.
Proof. split; vm_compute; reflexivity. Qed.

(** A sum that leaves the 64-bit integers is not followed. *)
Example sql_add_overflow :
  sql_add (SqlInt time.max_int64) (SqlInt 1) = SqlInexact.
Proof. reflexivity. Qed.

(** Fourteen days of retention, as [applyRetention] computes the cutoff. *)
Example cutoff_fourteen :
  usageStore.retentionCutoff 14 thirtyDaysLater = thirtyDaysLater - 14 * 24 * time.Hour.
Proof. reflexivity. Qed.

(** ** The text of an instant

    The texts of instants of the years 0 to 9999 are in the order of the
    instants; outside these years they are not. *)

Example TimeString_epoch : TimeString 0 = "1970-01-01 00:00:00 +0000 UTC".
Proof. reflexivity. Qed.

Example TimeString_fraction :
  TimeString (1793618399 * 10 ^ 9 + 120000000) = "2026-11-02 11:19:59.12 +0000 UTC".
Proof. vm_compute. reflexivity. Qed.

Example TimeString_year_10000 :
  TimeString (253402300800 * 10 ^ 9) = "10000-01-01 00:00:00 +0000 UTC"
  /\ String.ltb (TimeString (253402300800 * 10 ^ 9)) (TimeString 0) = true.
Proof. split; vm_compute; reflexivity. Qed.

Example TimeString_before_year_0 :
  TimeString (-62198755200 * 10 ^ 9 + 1) = "-0001-01-01 00:00:00.000000001 +0000 UTC".
Proof. vm_compute. reflexivity. Qed.

Lemma allFrom_spec (fuel : nat) (lo : Z) (P : Z -> bool) :
  allFrom fuel lo P = true -> forall z, lo <= z < lo + Z.of_nat fuel -> P z = true.
Proof.
  revert lo. induction fuel as [|k IH]; intros lo H z Hz; [lia|].
  cbn [allFrom] in H. destruct (P lo) eqn:Hlo; [|discriminate].
  destruct (Z.eq_dec z lo) as [->|Hne]; [exact Hlo|].
  apply (IH (lo + 1) H). lia.
Qed.

Lemma allFrom_range (n lo : Z) (P : Z -> bool) :
  allFrom (Z.to_nat n) lo P = true -> forall z, lo <= z < lo + n -> P z = true.
Proof. intros H z Hz. apply (allFrom_spec _ _ _ H). lia. Qed.

Lemma compare_refl (s : string) : (s ?= s)%string = Eq.
Proof.
  pose proof (String.compare_antisym s s) as H. destruct (s ?= s)%string; try reflexivity;
    discriminate H.
Qed.

Lemma ascii_compare_refl (c : ascii) : (c ?= c)%char = Eq.
Proof.
  pose proof (Ascii.compare_antisym c c) as H. destruct (c ?= c)%char; try reflexivity;
    discriminate H.
Qed.

Lemma append_cons (c : ascii) (a b : string) :
  (String c a ++ b)%string = String c (a ++ b).
Proof. reflexivity. Qed.

Lemma compare_app (a1 a2 b1 b2 : string) :
  String.length a1 = String.length a2 ->
  (a1 ++ b1 ?= a2 ++ b2)%string
  = match (a1 ?= a2)%string with Eq => (b1 ?= b2)%string | c => c end.
Proof.
  revert a2. induction a1 as [|c1 a1 IH]; intros [|c2 a2] Hlen; try discriminate Hlen.
  - reflexivity.
  - cbn in Hlen. injection Hlen as Hlen. rewrite !append_cons. cbn [String.compare].
    destruct (c1 ?= c2)%char; try reflexivity. apply IH, Hlen.
Qed.

Lemma lex_compare (q1 r1 q2 r2 B : Z) :
  0 <= r1 < B -> 0 <= r2 < B ->
  match q1 ?= q2 with Eq => r1 ?= r2 | c => c end = (q1 * B + r1 ?= q2 * B + r2).
Proof.
  intros H1 H2. destruct (Z.compare_spec q1 q2) as [->|Hlt|Hgt].
  - rewrite Z.add_compare_mono_l. reflexivity.
  - symmetry. apply Z.compare_lt_iff. nia.
  - symmetry. apply Z.compare_gt_iff. nia.
Qed.

Lemma isDigit_cases (c : ascii) :
  isDigit c = true ->
  In c ["0"; "1"; "2"; "3"; "4"; "5"; "6"; "7"; "8"; "9"]%char.
Proof.
  unfold isDigit. intros H. apply existsb_exists in H as (d & Hin & Heq).
  apply Ascii.eqb_eq in Heq. subst. exact Hin.
Qed.

Lemma digit_cases (d : Z) : 0 <= d <= 9 ->
  d = 0 \/ d = 1 \/ d = 2 \/ d = 3 \/ d = 4 \/ d = 5 \/ d = 6 \/ d = 7 \/ d = 8 \/ d = 9.
Proof. lia. Qed.

Lemma digitChar_compare (a b : Z) :
  0 <= a <= 9 -> 0 <= b <= 9 -> (digitChar a ?= digitChar b)%char = (a ?= b).
Proof.
  intros Ha Hb. apply digit_cases in Ha. apply digit_cases in Hb.
  repeat (destruct Ha as [->|Ha]); try subst a;
    repeat (destruct Hb as [->|Hb]); try subst b; reflexivity.
Qed.

Lemma digitChar_isDigit (d : Z) : 0 <= d <= 9 -> isDigit (digitChar d) = true.
Proof.
  intros Hd. apply digit_cases in Hd.
  repeat (destruct Hd as [->|Hd]); try subst d; reflexivity.
Qed.

Lemma append_assoc (a b c : string) : ((a ++ b) ++ c = a ++ (b ++ c))%string.
Proof. induction a as [|x a IH]; [reflexivity|]. rewrite !append_cons, IH. reflexivity. Qed.

Lemma nanoDigits_buf (k : nat) (u : Z) (buf : string) :
  nanoDigits k u buf = (nanoDigits k u "" ++ buf)%string.
Proof.
  revert u buf. induction k as [|k IH]; intros u buf; [reflexivity|].
  cbn [nanoDigits]. rewrite (IH (u / 10) (String _ buf)), (IH (u / 10) (String _ "")).
  rewrite append_assoc. reflexivity.
Qed.

Lemma nanoDigits_S (k : nat) (u : Z) :
  nanoDigits (S k) u "" = (nanoDigits k (u / 10) "" ++ String (digitChar (u mod 10)) "")%string.
Proof. cbn [nanoDigits]. apply nanoDigits_buf. Qed.

Lemma length_append (a b : string) :
  String.length (a ++ b) = (String.length a + String.length b)%nat.
Proof.
  induction a as [|x a IH]; [reflexivity|]. rewrite append_cons. cbn [String.length].
  rewrite IH. reflexivity.
Qed.

Lemma nanoDigits_length (k : nat) (u : Z) : String.length (nanoDigits k u "") = k.
Proof.
  revert u. induction k as [|k IH]; intros u; [reflexivity|].
  rewrite nanoDigits_S, length_append, IH. cbn. lia.
Qed.

Lemma allChars_append (f : ascii -> bool) (a b : string) :
  allChars f (a ++ b) = allChars f a && allChars f b.
Proof.
  induction a as [|x a IH]; [reflexivity|]. rewrite append_cons. cbn [allChars].
  rewrite IH, andb_assoc. reflexivity.
Qed.

Lemma nanoDigits_digits (k : nat) (u : Z) : allChars isDigit (nanoDigits k u "") = true.
Proof.
  revert u. induction k as [|k IH]; intros u; [reflexivity|].
  rewrite nanoDigits_S, allChars_append, IH. cbn [allChars andb].
  rewrite digitChar_isDigit; [reflexivity|].
  pose proof (Z.mod_pos_bound u 10). lia.
Qed.

Lemma nanoDigits_compare (k : nat) (a b : Z) :
  (nanoDigits k a "" ?= nanoDigits k b "")%string = (a mod 10 ^ Z.of_nat k ?= b mod 10 ^ Z.of_nat k).
Proof.
  revert a b. induction k as [|k IH]; intros a b.
  - cbn. rewrite !Z.mod_1_r. reflexivity.
  - rewrite !nanoDigits_S, compare_app by (rewrite !nanoDigits_length; reflexivity).
    rewrite IH. cbn [String.compare].
    replace (match (digitChar (a mod 10) ?= digitChar (b mod 10))%char with
             | Eq => Eq | Lt => Lt | Gt => Gt end)
      with (a mod 10 ?= b mod 10).
    2:{ rewrite digitChar_compare.
        - destruct (a mod 10 ?= b mod 10); reflexivity.
        - pose proof (Z.mod_pos_bound a 10). lia.
        - pose proof (Z.mod_pos_bound b 10). lia. }
    rewrite Nat2Z.inj_succ, Z.pow_succ_r by lia.
    assert (Hpos : 0 < 10 ^ Z.of_nat k) by (apply Z.pow_pos_nonneg; lia).
    rewrite !Z.rem_mul_r by lia.
    rewrite (Z.add_comm (a mod 10)), (Z.add_comm (b mod 10)), !(Z.mul_comm 10).
    apply lex_compare.
    + pose proof (Z.mod_pos_bound a 10). lia.
    + pose proof (Z.mod_pos_bound b 10). lia.
Qed.

(** [appendInt] on the numbers that fill its width. *)
Lemma appendInt_two (n : Z) : 0 <= n <= 99 -> time.appendInt n 2 = nanoDigits 2 n "".
Proof.
  intros Hn.
  assert (H : allFrom (Z.to_nat 100) 0
                (fun n => String.eqb (time.appendInt n 2) (nanoDigits 2 n "")) = true)
    by (vm_compute; reflexivity).
  apply String.eqb_eq. apply (allFrom_range _ _ _ H). lia.
Qed.

Lemma appendInt_four (n : Z) : 0 <= n <= 9999 -> time.appendInt n 4 = nanoDigits 4 n "".
Proof.
  intros Hn.
  assert (H : allFrom (Z.to_nat 10000) 0
                (fun n => String.eqb (time.appendInt n 4) (nanoDigits 4 n "")) = true)
    by (vm_compute; reflexivity).
  apply String.eqb_eq. apply (allFrom_range _ _ _ H). lia.
Qed.

Lemma two_compare (a b : Z) :
  0 <= a <= 99 -> 0 <= b <= 99 ->
  (time.appendInt a 2 ?= time.appendInt b 2)%string = (a ?= b).
Proof.
  intros Ha Hb. rewrite !appendInt_two, nanoDigits_compare by assumption.
  change (10 ^ Z.of_nat 2) with 100. rewrite !Z.mod_small by lia. reflexivity.
Qed.

Lemma four_compare (a b : Z) :
  0 <= a <= 9999 -> 0 <= b <= 9999 ->
  (time.appendInt a 4 ?= time.appendInt b 4)%string = (a ?= b).
Proof.
  intros Ha Hb. rewrite !appendInt_four, nanoDigits_compare by assumption.
  change (10 ^ Z.of_nat 4) with 10000. rewrite !Z.mod_small by lia. reflexivity.
Qed.

(** ** Trimming the zeros *)

Lemma trimZeros_head (c : ascii) (r : string) :
  (trimZeros (String c r) = "" /\ c = "0"%char /\ trimZeros r = "")
  \/ (exists t, trimZeros (String c r) = String c t
                /\ forall suf, (String c t ++ suf = String c (trimZeros r ++ suf))%string).
Proof.
  cbn [trimZeros]. destruct (trimZeros r) as [|d t] eqn:Ht.
  - destruct (Ascii.eqb_spec c "0") as [->|Hne]; [left; auto|].
    right. exists "". split; reflexivity.
  - right. exists (String d t). split; reflexivity.
Qed.

Lemma space_before_digit (c : ascii) : isDigit c = true -> (" " ?= c)%char = Lt.
Proof.
  intros H. apply isDigit_cases in H. cbn in H.
  repeat (destruct H as [<-|H]; [reflexivity|]). contradiction.
Qed.

Lemma zero_before_digit (c : ascii) :
  isDigit c = true -> c <> "0"%char -> ("0" ?= c)%char = Lt.
Proof.
  intros H Hne. apply isDigit_cases in H. cbn in H.
  destruct H as [<-|H]; [contradiction|].
  repeat (destruct H as [<-|H]; [reflexivity|]). contradiction.
Qed.

Lemma compare_Gt (a b : string) : (b ?= a)%string = Lt -> (a ?= b)%string = Gt.
Proof. intros H. rewrite String.compare_antisym, H. reflexivity. Qed.

Lemma ascii_compare_Gt (a b : ascii) : (b ?= a)%char = Lt -> (a ?= b)%char = Gt.
Proof. intros H. rewrite Ascii.compare_antisym, H. reflexivity. Qed.

(** With the zeros at the end of two runs of digits of one length trimmed
    and a space after them, the texts compare as the runs do. *)
Lemma trimZeros_compare (l1 l2 rest : string) :
  String.length l1 = String.length l2 ->
  allChars isDigit l1 = true -> allChars isDigit l2 = true ->
  (trimZeros l1 ++ String " " rest ?= trimZeros l2 ++ String " " rest)%string
  = (l1 ?= l2)%string.
Proof.
  set (suf := String " " rest).
  revert l2. induction l1 as [|c1 r1 IH]; intros [|c2 r2] Hlen H1 H2;
    try discriminate Hlen.
  - apply compare_refl.
  - cbn in Hlen. injection Hlen as Hlen.
    cbn [allChars] in H1, H2. apply andb_prop in H1 as [Hc1 H1].
    apply andb_prop in H2 as [Hc2 H2]. specialize (IH r2 Hlen H1 H2).
    cbn [String.compare].
    destruct (trimZeros_head c1 r1) as [(E1 & -> & T1)|(t1 & E1 & A1)];
      destruct (trimZeros_head c2 r2) as [(E2 & -> & T2)|(t2 & E2 & A2)];
      rewrite E1, E2.
    + rewrite ascii_compare_refl, <- IH, T1, T2. reflexivity.
    + rewrite A2. change ("" ++ suf)%string with suf. unfold suf at 1.
      cbn [String.compare]. rewrite (space_before_digit c2 Hc2).
      destruct (Ascii.eqb_spec c2 "0") as [->|Hne].
      * rewrite ascii_compare_refl, <- IH, T1. change ("" ++ suf)%string with suf.
        destruct (trimZeros r2) as [|d t] eqn:Ht2.
        { exfalso. cbn [trimZeros] in E2. rewrite Ht2 in E2. discriminate E2. }
        destruct r2 as [|d' r2']; [discriminate Ht2|].
        destruct (trimZeros_head d' r2') as [(E & _)|(t' & E & _)];
          rewrite E in Ht2; [discriminate Ht2|]. injection Ht2 as <- _.
        cbn [allChars] in H2. apply andb_prop in H2 as [Hd _].
        rewrite append_cons. unfold suf at 1. cbn [String.compare].
        rewrite (space_before_digit d' Hd). reflexivity.
      * rewrite (zero_before_digit c2 Hc2 Hne). reflexivity.
    + rewrite A1. change ("" ++ suf)%string with suf. unfold suf at 2.
      cbn [String.compare]. rewrite (ascii_compare_Gt _ _ (space_before_digit c1 Hc1)).
      destruct (Ascii.eqb_spec c1 "0") as [->|Hne].
      * rewrite ascii_compare_refl, <- IH, T2. change ("" ++ suf)%string with suf.
        destruct (trimZeros r1) as [|d t] eqn:Ht1.
        { exfalso. cbn [trimZeros] in E1. rewrite Ht1 in E1. discriminate E1. }
        destruct r1 as [|d' r1']; [discriminate Ht1|].
        destruct (trimZeros_head d' r1') as [(E & _)|(t' & E & _)];
          rewrite E in Ht1; [discriminate Ht1|]. injection Ht1 as <- _.
        cbn [allChars] in H1. apply andb_prop in H1 as [Hd _].
        rewrite append_cons. unfold suf at 2. cbn [String.compare].
        rewrite (ascii_compare_Gt _ _ (space_before_digit d' Hd)). reflexivity.
      * rewrite (ascii_compare_Gt _ _ (zero_before_digit c1 Hc1 Hne)). reflexivity.
    + rewrite A1, A2. cbn [String.compare]. rewrite IH. reflexivity.
Qed.

(** The fractions of two instants, with what follows them, compare as the
    nanoseconds do. *)
Lemma formatNano_compare (n1 n2 : Z) (rest : string) :
  0 <= n1 < 10 ^ 9 -> 0 <= n2 < 10 ^ 9 ->
  (formatNano n1 ++ String " " rest ?= formatNano n2 ++ String " " rest)%string
  = (n1 ?= n2).
Proof.
  intros H1 H2.
  pose proof (trimZeros_compare (nanoDigits 9 n1 "") (nanoDigits 9 n2 "") rest) as H.
  rewrite nanoDigits_compare in H. change (10 ^ Z.of_nat 9) with (10 ^ 9) in H.
  rewrite !Z.mod_small in H by assumption.
  rewrite <- H by (rewrite ?nanoDigits_length; auto using nanoDigits_digits).
  clear H. unfold formatNano.
  pose proof (nanoDigits_digits 9 n1) as D1. pose proof (nanoDigits_digits 9 n2) as D2.
  destruct (nanoDigits 9 n1 "") as [|c1 r1]; destruct (nanoDigits 9 n2 "") as [|c2 r2].
  - reflexivity.
  - cbn [allChars] in D2. apply andb_prop in D2 as [Hc2 _].
    change (trimZeros "") with "".
    destruct (trimZeros_head c2 r2) as [(E2 & _)|(t2 & E2 & _)]; rewrite E2; [reflexivity|].
    change ("." ++ String c2 t2)%string with (String "." (String c2 t2)).
    rewrite !append_cons. change ("" ++ String " " rest)%string with (String " " rest).
    cbn [String.compare]. rewrite (space_before_digit c2 Hc2). reflexivity.
  - cbn [allChars] in D1. apply andb_prop in D1 as [Hc1 _].
    change (trimZeros "") with "".
    destruct (trimZeros_head c1 r1) as [(E1 & _)|(t1 & E1 & _)]; rewrite E1; [reflexivity|].
    change ("." ++ String c1 t1)%string with (String "." (String c1 t1)).
    rewrite !append_cons. change ("" ++ String " " rest)%string with (String " " rest).
    cbn [String.compare]. rewrite (ascii_compare_Gt _ _ (space_before_digit c1 Hc1)).
    reflexivity.
  - cbn [allChars] in D1, D2. apply andb_prop in D1 as [Hc1 _].
    apply andb_prop in D2 as [Hc2 _].
    destruct (trimZeros_head c1 r1) as [(E1 & _)|(t1 & E1 & _)];
      destruct (trimZeros_head c2 r2) as [(E2 & _)|(t2 & E2 & _)]; rewrite E1, E2.
    + reflexivity.
    + change ("." ++ String c2 t2)%string with (String "." (String c2 t2)).
      rewrite !append_cons. change ("" ++ String " " rest)%string with (String " " rest).
      cbn [String.compare]. rewrite (space_before_digit c2 Hc2). reflexivity.
    + change ("." ++ String c1 t1)%string with (String "." (String c1 t1)).
      rewrite !append_cons. change ("" ++ String " " rest)%string with (String " " rest).
      cbn [String.compare]. rewrite (ascii_compare_Gt _ _ (space_before_digit c1 Hc1)).
      reflexivity.
    + change ("." ++ String c1 t1)%string with (String "." (String c1 t1)).
      change ("." ++ String c2 t2)%string with (String "." (String c2 t2)).
      rewrite !(append_cons "."). cbn [String.compare]. reflexivity.
Qed.

(** ** The calendar *)

Lemma civil_parts (z : Z) :
  let doe := (z + 719468) mod 146097 in
  let era := (z + 719468) / 146097 in
  let yoe := yearOfEra doe in
  let date := dateOfYear yoe (doe - startOfYear yoe) in
  0 <= doe < 146097
  /\ z = doe - 719468 + 146097 * era
  /\ time.civil z = (date.1.1 + era * 400, date.1.2, date.2).
Proof.
  cbn zeta. pose proof (Z.mod_pos_bound (z + 719468) 146097 ltac:(lia)) as Hdoe.
  pose proof (Z.div_mod (z + 719468) 146097 ltac:(lia)) as Hz.
  split; [exact Hdoe|]. split; [lia|].
  unfold time.civil. cbv zeta.
  replace (z + 719468 - (z + 719468) / 146097 * 146097) with ((z + 719468) mod 146097)
    by (rewrite Z.mod_eq by lia; lia).
  set (doe := (z + 719468) mod 146097). set (era := (z + 719468) / 146097).
  unfold dateOfYear, yearOfEra, startOfYear. cbn [fst snd].
  f_equal; try reflexivity. f_equal; try reflexivity. lia.
Qed.

Lemma years_checked : allFrom (Z.to_nat 400) 0 yearChecked = true.
Proof. vm_compute. reflexivity. Qed.

Lemma days_checked : allFrom (Z.to_nat 366) 0 dayChecked = true.
Proof. vm_compute. reflexivity. Qed.

Lemma year_facts (y : Z) :
  0 <= y < 400 ->
  yearOfEra (startOfYear y) = y /\ yearOfEra (endOfYear y) = y
  /\ startOfYear y <= endOfYear y <= startOfYear y + 365
  /\ (y = 399 \/ endOfYear y + 1 = startOfYear (y + 1)).
Proof.
  intros Hy. pose proof (allFrom_range _ _ _ years_checked y ltac:(lia)) as H.
  unfold yearChecked in H. repeat (apply andb_prop in H as [H ?]).
  repeat match goal with
         | H : (_ =? _) = true |- _ => apply Z.eqb_eq in H
         | H : (_ <=? _) = true |- _ => apply Z.leb_le in H
         | H : (_ || _) = true |- _ => apply orb_prop in H
         end.
  split; [assumption|]. split; [assumption|]. split; [lia|].
  match goal with H : _ \/ _ |- _ => destruct H as [Hlast|Hnext] end.
  - apply Z.eqb_eq in Hlast. auto.
  - apply Z.eqb_eq in Hnext. auto.
Qed.

Lemma day_facts (doy : Z) :
  0 <= doy <= 365 ->
  0 <= (dateOfYear 0 doy).1.1 <= 1
  /\ 1 <= (dateOfYear 0 doy).1.2 <= 12
  /\ 1 <= (dateOfYear 0 doy).2 <= 31
  /\ (doy < 365 -> dateCode (dateOfYear 0 doy) < dateCode (dateOfYear 0 (doy + 1))).
Proof.
  intros Hd. pose proof (allFrom_range _ _ _ days_checked doy ltac:(lia)) as H.
  unfold dayChecked in H. destruct (dateOfYear 0 doy) as [[a m] d] eqn:E.
  repeat (apply andb_prop in H as [H ?]).
  repeat match goal with
         | H : (_ <=? _) = true |- _ => apply Z.leb_le in H
         | H : (_ || _) = true |- _ => apply orb_prop in H
         end.
  cbn [fst snd]. split; [lia|]. split; [lia|]. split; [lia|].
  intros Hlt. match goal with H : _ \/ _ |- _ => destruct H as [Hlast|Hnext] end.
  - apply Z.eqb_eq in Hlast. lia.
  - apply Z.ltb_lt in Hnext. exact Hnext.
Qed.

Lemma dateOfYear_code (yoe doy : Z) :
  dateCode (dateOfYear yoe doy) = yoe * 416 + dateCode (dateOfYear 0 doy).
Proof. unfold dateCode, dateOfYear. cbn [fst snd]. lia. Qed.

Lemma days_monotone (a b : Z) :
  0 <= a -> a < b -> b <= 365 ->
  dateCode (dateOfYear 0 a) < dateCode (dateOfYear 0 b).
Proof.
  intros Ha Hab Hb.
  assert (Hn : forall n : nat, a + 1 + Z.of_nat n <= 365 ->
             dateCode (dateOfYear 0 a) < dateCode (dateOfYear 0 (a + 1 + Z.of_nat n))).
  { induction n as [|n IH]; intros Hle.
    - replace (a + 1 + Z.of_nat 0) with (a + 1) by lia.
      apply (day_facts a); lia.
    - replace (a + 1 + Z.of_nat (S n)) with (a + 1 + Z.of_nat n + 1) by lia.
      specialize (IH ltac:(lia)).
      pose proof (proj2 (proj2 (proj2 (day_facts (a + 1 + Z.of_nat n) ltac:(lia))))
                    ltac:(lia)). lia. }
  specialize (Hn (Z.to_nat (b - a - 1))).
  replace (a + 1 + Z.of_nat (Z.to_nat (b - a - 1))) with b in Hn by lia.
  apply Hn. exact Hb.
Qed.

Lemma yearOfEra_monotone (a b : Z) :
  0 <= a -> a <= b -> b < 146097 -> yearOfEra a <= yearOfEra b.
Proof.
  intros Ha Hab Hb. unfold yearOfEra. apply Z.div_le_mono; [lia|].
  Z.div_mod_to_equations. lia.
Qed.

(** Every day of the era lies in one of its 400 years. *)
Lemma year_of_day (doe : Z) :
  0 <= doe < 146097 ->
  0 <= yearOfEra doe < 400 /\ 0 <= doe - startOfYear (yearOfEra doe) <= 365.
Proof.
  intros Hdoe.
  assert (Hn : forall n : nat, (n < 400)%nat -> doe <= endOfYear (Z.of_nat n) ->
             exists y, 0 <= y <= Z.of_nat n /\ startOfYear y <= doe <= endOfYear y).
  { induction n as [|n IH]; intros Hn Hend.
    - exists 0. split; [lia|]. split; [|exact Hend]. change (startOfYear 0) with 0. lia.
    - destruct (Z_le_gt_dec doe (endOfYear (Z.of_nat n))) as [Hle|Hgt].
      + destruct (IH ltac:(lia) Hle) as (y & Hy & Hin). exists y. split; [lia|exact Hin].
      + exists (Z.of_nat (S n)). split; [lia|]. split; [|exact Hend].
        destruct (year_facts (Z.of_nat n) ltac:(lia)) as (_ & _ & _ & [H|H]); [lia|].
        rewrite Nat2Z.inj_succ. unfold Z.succ. lia. }
  destruct (Hn 399%nat ltac:(lia)) as (y & Hy & Hin).
  { change (endOfYear (Z.of_nat 399)) with 146096. lia. }
  destruct (year_facts y ltac:(lia)) as (Hs & He & Hlen & _).
  assert (Hyear : yearOfEra doe = y).
  { pose proof (yearOfEra_monotone (startOfYear y) doe) as H1.
    pose proof (yearOfEra_monotone doe (endOfYear y)) as H2.
    assert (0 <= startOfYear y) by (unfold startOfYear; Z.div_mod_to_equations; lia).
    assert (endOfYear y < 146097).
    { unfold endOfYear, startOfYear. destruct (y =? 399); [lia|].
      Z.div_mod_to_equations. lia. }
    rewrite Hs in H1. rewrite He in H2. lia. }
  rewrite Hyear. lia.
Qed.

Lemma civil_in_range (z : Z) :
  1 <= (time.civil z).1.2 <= 12 /\ 1 <= (time.civil z).2 <= 31.
Proof.
  destruct (civil_parts z) as (Hdoe & _ & ->). cbn [fst snd].
  destruct (year_of_day _ Hdoe) as [_ Hdoy].
  pose proof (day_facts _ Hdoy) as (_ & Hm & Hd & _).
  unfold dateOfYear in *. cbn [fst snd] in *. lia.
Qed.

(** The code of the date of a day of the era. *)
Lemma era_code (doe : Z) :
  0 <= doe < 146097 ->
  let yoe := yearOfEra doe in
  let doy := doe - startOfYear yoe in
  dateCode (dateOfYear yoe doy) = yoe * 416 + dateCode (dateOfYear 0 doy)
  /\ 0 <= yoe < 400 /\ 0 <= doy <= 365
  /\ 97 <= dateCode (dateOfYear 0 doy) <= 509.
Proof.
  intros Hdoe. cbn zeta. destruct (year_of_day doe Hdoe) as [Hy Hdoy].
  split; [apply dateOfYear_code|]. split; [exact Hy|]. split; [exact Hdoy|].
  set (doy := doe - startOfYear (yearOfEra doe)) in *.
  change 97 with (dateCode (dateOfYear 0 0)). change 509 with (dateCode (dateOfYear 0 365)).
  split.
  - destruct (Z.eq_dec doy 0) as [->|Hne]; [lia|].
    pose proof (days_monotone 0 doy ltac:(lia) ltac:(lia) ltac:(lia)). lia.
  - destruct (Z.eq_dec doy 365) as [->|Hne]; [lia|].
    pose proof (days_monotone doy 365 ltac:(lia) ltac:(lia) ltac:(lia)). lia.
Qed.

(** The dates of two days are in the order of the days. *)
Lemma civil_monotone (z1 z2 : Z) :
  z1 < z2 -> dateCode (time.civil z1) < dateCode (time.civil z2).
Proof.
  intros Hlt.
  destruct (civil_parts z1) as (Hd1 & Hz1 & ->).
  destruct (civil_parts z2) as (Hd2 & Hz2 & ->).
  set (d1 := (z1 + 719468) mod 146097) in *. set (e1 := (z1 + 719468) / 146097) in *.
  set (d2 := (z2 + 719468) mod 146097) in *. set (e2 := (z2 + 719468) / 146097) in *.
  destruct (era_code d1 Hd1) as (C1 & Y1 & D1 & G1).
  destruct (era_code d2 Hd2) as (C2 & Y2 & D2 & G2).
  cbn zeta in *.
  assert (E1 : forall date era, dateCode (date.1.1 + era * 400, date.1.2, date.2)
                                = dateCode date + era * 166400).
  { intros [[y m] d] era. unfold dateCode. cbn [fst snd]. lia. }
  rewrite !E1, C1, C2.
  assert (He : e1 <= e2) by lia.
  destruct (Z.eq_dec e1 e2) as [Heq|Hne].
  - rewrite Heq in *. assert (Hd : d1 < d2) by lia.
    pose proof (yearOfEra_monotone d1 d2 ltac:(lia) ltac:(lia) ltac:(lia)) as Hy.
    destruct (Z.eq_dec (yearOfEra d1) (yearOfEra d2)) as [Hyeq|Hyne].
    + rewrite Hyeq in *.
      pose proof (days_monotone (d1 - startOfYear (yearOfEra d2))
                    (d2 - startOfYear (yearOfEra d2)) ltac:(lia) ltac:(lia) ltac:(lia)).
      lia.
    + lia.
  - lia.
Qed.

Lemma civil_compare (z1 z2 : Z) :
  (dateCode (time.civil z1) ?= dateCode (time.civil z2)) = (z1 ?= z2).
Proof.
  destruct (Z.compare_spec z1 z2) as [->|Hlt|Hgt].
  - apply Z.compare_refl.
  - apply Z.compare_lt_iff, civil_monotone, Hlt.
  - apply Z.compare_gt_iff, civil_monotone, Hgt.
Qed.

(** The year of a later day is no earlier. *)
Lemma civil_year_monotone (z1 z2 : Z) : z1 <= z2 -> (time.civil z1).1.1 <= (time.civil z2).1.1.
Proof.
  intros Hle. apply Z.le_lteq in Hle as [Hlt|Heq]; [|subst z2; apply Z.le_refl].
  pose proof (civil_monotone _ _ Hlt) as Hm.
  pose proof (civil_in_range z1) as R1. pose proof (civil_in_range z2) as R2.
  unfold dateCode in Hm.
  destruct (time.civil z1) as [[y1 m1] d1]. destruct (time.civil z2) as [[y2 m2] d2].
  cbn [fst snd] in *. lia.
Qed.

Lemma yearOf_monotone (t1 t2 : time.Time) : t1 <= t2 -> yearOf t1 <= yearOf t2.
Proof.
  intros Hle. unfold yearOf. apply civil_year_monotone.
  apply Z.div_le_mono; [reflexivity|exact Hle].
Qed.

(** ** The text of an instant *)

Lemma appendInt_two_length (n : Z) : 0 <= n <= 99 -> String.length (time.appendInt n 2) = 2%nat.
Proof. intros H. rewrite appendInt_two by exact H. apply nanoDigits_length. Qed.

Lemma appendInt_four_length (n : Z) :
  0 <= n <= 9999 -> String.length (time.appendInt n 4) = 4%nat.
Proof. intros H. rewrite appendInt_four by exact H. apply nanoDigits_length. Qed.

Lemma FormatDay_parts (t : time.Time) :
  time.FormatDay t
  = (time.appendInt (yearOf t) 4 ++ "-"
     ++ time.appendInt (time.civil (t / (24 * time.Hour))).1.2 2 ++ "-"
     ++ time.appendInt (time.civil (t / (24 * time.Hour))).2 2)%string.
Proof.
  unfold time.FormatDay, yearOf. destruct (time.civil _) as [[y m] d]. reflexivity.
Qed.

Lemma FormatDay_length (t : time.Time) :
  fourDigitYear t -> String.length (time.FormatDay t) = 10%nat.
Proof.
  intros Hy. rewrite FormatDay_parts.
  destruct (civil_in_range (t / (24 * time.Hour))) as [Hm Hd].
  rewrite !length_append, appendInt_four_length, !appendInt_two_length by (try exact Hy; lia).
  reflexivity.
Qed.

(** The days of two instants whose years have four digits compare as
    their dates in the layout [2006-01-02] do. *)
Lemma FormatDay_compare (t1 t2 : time.Time) :
  fourDigitYear t1 -> fourDigitYear t2 ->
  (time.FormatDay t1 ?= time.FormatDay t2)%string
  = (t1 / (24 * time.Hour) ?= t2 / (24 * time.Hour)).
Proof.
  intros H1 H2. rewrite <- civil_compare, !FormatDay_parts.
  unfold fourDigitYear, yearOf in *.
  destruct (civil_in_range (t1 / (24 * time.Hour))) as [Hm1 Hd1].
  destruct (civil_in_range (t2 / (24 * time.Hour))) as [Hm2 Hd2].
  destruct (time.civil (t1 / (24 * time.Hour))) as [[y1 m1] d1].
  destruct (time.civil (t2 / (24 * time.Hour))) as [[y2 m2] d2].
  cbn [fst snd] in *.
  rewrite compare_app by (rewrite !appendInt_four_length by assumption; reflexivity).
  rewrite four_compare by assumption.
  rewrite (compare_app "-" "-") by reflexivity. cbn [String.compare Ascii.compare].
  change (("-" ?= "-")%string) with Eq.
  rewrite compare_app by (rewrite !appendInt_two_length by lia; reflexivity).
  rewrite two_compare by lia.
  rewrite (compare_app "-" "-") by reflexivity. change (("-" ?= "-")%string) with Eq.
  rewrite two_compare by lia.
  unfold dateCode. cbn [fst snd].
  rewrite <- (lex_compare (y1 * 13 + m1) d1 (y2 * 13 + m2) d2 32) by lia.
  rewrite <- (lex_compare y1 m1 y2 m2 13) by lia.
  destruct (y1 ?= y2); reflexivity.
Qed.

Lemma clockText_length (sec : Z) :
  0 <= sec < 86400 -> String.length (clockText sec) = 8%nat.
Proof.
  intros H. unfold clockText.
  rewrite !length_append, !appendInt_two_length; [reflexivity|..];
    Z.div_mod_to_equations; lia.
Qed.

Lemma clockText_compare (s1 s2 : Z) :
  0 <= s1 < 86400 -> 0 <= s2 < 86400 ->
  (clockText s1 ?= clockText s2)%string = (s1 ?= s2).
Proof.
  intros H1 H2. unfold clockText.
  assert (B1 : 0 <= s1 / 3600 <= 99 /\ 0 <= s1 / 60 mod 60 <= 99 /\ 0 <= s1 mod 60 <= 99)
    by (Z.div_mod_to_equations; lia).
  assert (B2 : 0 <= s2 / 3600 <= 99 /\ 0 <= s2 / 60 mod 60 <= 99 /\ 0 <= s2 mod 60 <= 99)
    by (Z.div_mod_to_equations; lia).
  destruct B1 as (Bh1 & Bm1 & Bs1). destruct B2 as (Bh2 & Bm2 & Bs2).
  rewrite compare_app by (rewrite !appendInt_two_length by assumption; reflexivity).
  rewrite two_compare by assumption.
  rewrite (compare_app ":" ":") by reflexivity. change ((":" ?= ":")%string) with Eq.
  rewrite compare_app by (rewrite !appendInt_two_length by assumption; reflexivity).
  rewrite two_compare by assumption.
  rewrite (compare_app ":" ":") by reflexivity. change ((":" ?= ":")%string) with Eq.
  rewrite two_compare by assumption.
  assert (E1 : s1 = (s1 / 3600 * 60 + s1 / 60 mod 60) * 60 + s1 mod 60)
    by (Z.div_mod_to_equations; lia).
  assert (E2 : s2 = (s2 / 3600 * 60 + s2 / 60 mod 60) * 60 + s2 mod 60)
    by (Z.div_mod_to_equations; lia).
  rewrite E1 at 4. rewrite E2 at 4.
  rewrite <- (lex_compare _ (s1 mod 60) _ (s2 mod 60) 60) by (Z.div_mod_to_equations; lia).
  rewrite <- (lex_compare (s1 / 3600) (s1 / 60 mod 60) (s2 / 3600) (s2 / 60 mod 60) 60)
    by (Z.div_mod_to_equations; lia).
  destruct (s1 / 3600 ?= s2 / 3600); reflexivity.
Qed.

Lemma TimeString_parts (t : time.Time) :
  TimeString t
  = (time.FormatDay t ++ " " ++ clockText (t mod (24 * time.Hour) / 10 ^ 9)
     ++ formatNano (t mod (24 * time.Hour) mod 10 ^ 9) ++ " +0000 UTC")%string.
Proof.
  unfold TimeString, clockText. cbv zeta. rewrite !append_assoc. reflexivity.
Qed.

(** The texts of two instants whose years have four digits are in the
    order of the instants. *)
Lemma TimeString_compare (t1 t2 : time.Time) :
  fourDigitYear t1 -> fourDigitYear t2 ->
  (TimeString t1 ?= TimeString t2)%string = (t1 ?= t2).
Proof.
  intros H1 H2. rewrite !TimeString_parts.
  change (24 * time.Hour) with 86400000000000 in *. change (10 ^ 9) with 1000000000.
  assert (B1 : 0 <= t1 mod 86400000000000 / 1000000000 < 86400
               /\ 0 <= t1 mod 86400000000000 mod 1000000000 < 1000000000)
    by (Z.div_mod_to_equations; lia).
  assert (B2 : 0 <= t2 mod 86400000000000 / 1000000000 < 86400
               /\ 0 <= t2 mod 86400000000000 mod 1000000000 < 1000000000)
    by (Z.div_mod_to_equations; lia).
  destruct B1 as [Bs1 Bn1]. destruct B2 as [Bs2 Bn2].
  rewrite compare_app by (rewrite !FormatDay_length by assumption; reflexivity).
  rewrite FormatDay_compare by assumption.
  change (24 * time.Hour) with 86400000000000.
  rewrite (compare_app " " " ") by reflexivity. change ((" " ?= " ")%string) with Eq.
  rewrite compare_app by (rewrite !clockText_length by assumption; reflexivity).
  rewrite clockText_compare by assumption.
  change (" +0000 UTC") with (String " " "+0000 UTC").
  rewrite formatNano_compare by assumption.
  set (s1 := t1 mod 86400000000000 / 1000000000) in *.
  set (n1 := t1 mod 86400000000000 mod 1000000000) in *.
  set (s2 := t2 mod 86400000000000 / 1000000000) in *.
  set (n2 := t2 mod 86400000000000 mod 1000000000) in *.
  assert (E1 : t1 = t1 / 86400000000000 * 86400000000000 + (s1 * 1000000000 + n1))
    by (subst s1 n1; Z.div_mod_to_equations; lia).
  assert (E2 : t2 = t2 / 86400000000000 * 86400000000000 + (s2 * 1000000000 + n2))
    by (subst s2 n2; Z.div_mod_to_equations; lia).
  rewrite E1 at 2. rewrite E2 at 2.
  rewrite <- (lex_compare _ (s1 * 1000000000 + n1) _ (s2 * 1000000000 + n2) 86400000000000)
    by lia.
  rewrite <- (lex_compare s1 n1 s2 n2 1000000000) by lia.
  reflexivity.
Qed.

Lemma TimeString_ltb (t1 t2 : time.Time) :
  fourDigitYear t1 -> fourDigitYear t2 ->
  String.ltb (TimeString t1) (TimeString t2) = (t1 <? t2).
Proof.
  intros H1 H2. unfold String.ltb, Z.ltb. rewrite TimeString_compare by assumption.
  reflexivity.
Qed.

Lemma appendInt_negative (x : Z) (width : nat) :
  x < 0 -> exists r, time.appendInt x width = String "-" r.
Proof.
  intros Hx. unfold time.appendInt. destruct (Z.ltb_spec x 0) as [_|Hge]; [|lia].
  eexists. reflexivity.
Qed.

Lemma nanoDigits_head (k : nat) (u : Z) :
  exists c r, nanoDigits (S k) u "" = String c r /\ isDigit c = true.
Proof.
  pose proof (nanoDigits_digits (S k) u) as Hd.
  destruct (nanoDigits (S k) u "") as [|c r] eqn:E.
  - apply (f_equal String.length) in E. rewrite nanoDigits_length in E. discriminate E.
  - cbn [allChars] in Hd. apply andb_prop in Hd as [Hc _]. eauto.
Qed.

Lemma minus_before_digit (c : ascii) : isDigit c = true -> ("-" ?= c)%char = Lt.
Proof.
  intros H. apply isDigit_cases in H. cbn in H.
  repeat (destruct H as [<-|H]; [reflexivity|]). contradiction.
Qed.

(** A year before year 0 is written with a minus sign, which sorts before
    every digit. *)
Lemma TimeString_negative_year (t1 t2 : time.Time) :
  yearOf t1 < 0 -> fourDigitYear t2 ->
  String.ltb (TimeString t1) (TimeString t2) = true.
Proof.
  intros H1 H2. rewrite !TimeString_parts, !FormatDay_parts.
  unfold fourDigitYear in H2. rewrite (appendInt_four (yearOf t2)) by exact H2.
  destruct (appendInt_negative (yearOf t1) 4 H1) as [r1 ->].
  destruct (nanoDigits_head 3 (yearOf t2)) as (c & r2 & -> & Hc).
  rewrite !append_cons. unfold String.ltb. cbn [String.compare].
  rewrite (minus_before_digit c Hc). reflexivity.
Qed.

(** ** Strings and hashes *)

Lemma nonEmpty_true (s : string) : nonEmpty s = true <-> s <> "".
Proof.
  unfold nonEmpty. destruct (String.eqb_spec s ""); simpl; split; congruence.
Qed.

Lemma be_bytes_length (width : nat) (x : Z) : length (SHA256.be_bytes width x) = width.
Proof. unfold SHA256.be_bytes. rewrite length_map, length_seq. reflexivity. Qed.

Lemma compress_length (h block : list Z) :
  length h = 8%nat -> length (SHA256.compress h block) = 8%nat.
Proof.
  intros Hh. unfold SHA256.compress.
  rewrite length_map, length_combine, Hh. reflexivity.
Qed.

Lemma fold_compress_length (bs : list (list Z)) (h : list Z) :
  length h = 8%nat -> length (fold_left SHA256.compress bs h) = 8%nat.
Proof.
  revert h. induction bs as [|b bs IH]; intros h Hh; simpl.
  - exact Hh.
  - apply IH, compress_length, Hh.
Qed.

Lemma concat_be_bytes_length (h : list Z) :
  length (concat (map (SHA256.be_bytes 4) h)) = (4 * length h)%nat.
Proof.
  induction h as [|x h IH].
  - reflexivity.
  - cbn [map concat]. rewrite length_app, be_bytes_length, IH. simpl length. lia.
Qed.

(** A digest has 32 bytes. *)
Lemma Sum256_length (msg : list Z) : length (SHA256.Sum256 msg) = 32%nat.
Proof.
  unfold SHA256.Sum256. rewrite concat_be_bytes_length.
  rewrite fold_compress_length; reflexivity.
Qed.

Lemma EncodeToString_length (bs : list Z) :
  String.length (Hex.EncodeToString bs) = (2 * length bs)%nat.
Proof.
  induction bs as [|b bs IH]; simpl.
  - reflexivity.
  - rewrite IH. lia.
Qed.

(** The fingerprint of a non-empty value is 64 hexadecimal digits. *)
Lemma fingerprint_length (value : string) :
  value <> "" -> String.length (fingerprint value) = 64%nat.
Proof.
  intros Hv. unfold fingerprint.
  destruct (String.eqb_spec value ""); [contradiction|].
  rewrite EncodeToString_length, Sum256_length. reflexivity.
Qed.

(** Only the empty value has the empty fingerprint. *)
Lemma fingerprint_empty_iff (value : string) : fingerprint value = "" <-> value = "".
Proof.
  split.
  - intros H. destruct (String.eqb_spec value "") as [->|Hne]; [reflexivity|].
    apply fingerprint_length in Hne. rewrite H in Hne. discriminate.
  - intros ->. reflexivity.
Qed.

(** ** The credential fingerprint *)

(** C6, as the code has it: the fingerprint of a usage record is the
    one-way hash of the first non-empty value among auth id, source, raw
    key and provider, in that order, and the hash of the word "unknown"
    when all four are empty; it is 64 hexadecimal digits in every case,
    never the empty string.  The fingerprint of the empty string is the
    empty string. *)
Theorem credentialFingerprint_priority (record : coreusage.Record_) :
  credentialFingerprint record =
    oneWayHash (default "unknown"
      (firstNonEmpty [coreusage.AuthID record; coreusage.Source record;
                      coreusage.APIKey record; coreusage.Provider record]))
  /\ String.length (credentialFingerprint record) = 64%nat
  /\ fingerprint "" = "".
Proof.
  assert (Hfp : forall v, nonEmpty v = true -> fingerprint v = oneWayHash v).
  { intros v Hv. unfold fingerprint, oneWayHash.
    apply nonEmpty_true in Hv. destruct (String.eqb_spec v ""); [contradiction|reflexivity]. }
  assert (Hlen : forall v, nonEmpty v = true -> String.length (fingerprint v) = 64%nat).
  { intros v Hv. apply fingerprint_length, nonEmpty_true, Hv. }
  unfold credentialFingerprint. cbn [firstNonEmpty].
  destruct (nonEmpty (coreusage.AuthID record)) eqn:E1; [auto|].
  destruct (nonEmpty (coreusage.Source record)) eqn:E2; [auto|].
  destruct (nonEmpty (coreusage.APIKey record)) eqn:E3; [auto|].
  destruct (nonEmpty (coreusage.Provider record)) eqn:E4; [auto|].
  cbn [default]. split; [reflexivity|].
  split; [apply fingerprint_length; discriminate | reflexivity].
Qed.

(** C6, as the claim has it, fails on the record whose four identifying
    fields are empty: its fingerprint is the hash of "unknown", not the
    empty string. *)
Lemma credentialFingerprint_anonymous_not_empty :
  coreusage.AuthID anonymousRecord = ""
  /\ coreusage.Source anonymousRecord = ""
  /\ coreusage.APIKey anonymousRecord = ""
  /\ coreusage.Provider anonymousRecord = ""
  /\ credentialFingerprint anonymousRecord
     = "b23a6a8439c0dde5515893e7c90c1e3233b8616e634470f20dc4928bcf3609bc"
  /\ credentialFingerprint anonymousRecord <> "".
Proof.
  do 4 (split; [reflexivity|]).
  split; [vm_compute; reflexivity|].
  intros H. vm_compute in H. discriminate H.
Qed.

(** ** The insert transaction *)

Lemma with_db_same (s : usageStore.t) : usageStore.with_db s (usageStore.db s) = s.
Proof. destruct s. reflexivity. Qed.

(** When the handle is open and the engine accepts the four calls, the
    insert commits the two writes. *)
Lemma insert_commits (s : usageStore.t) (rec : dbRecord) :
  usageStore.dbClosed s = false ->
  usageStore.insert s sql.allSucceed rec
  = (usageStore.with_db s (upsertDaily rec (insertRequest rec (usageStore.db s))), None).
Proof. intros Hopen. unfold usageStore.insert. rewrite Hopen. reflexivity. Qed.

(** The insert returns no error only when the handle is open and the engine
    accepted the four calls. *)
Lemma insert_no_error (s s' : usageStore.t) (a : sql.answers) (rec : dbRecord) :
  usageStore.insert s a rec = (s', None) ->
  usageStore.dbClosed s = false /\ a = sql.allSucceed.
Proof.
  unfold usageStore.insert, sql.allSucceed.
  destruct (usageStore.dbClosed s); [discriminate|].
  destruct a as [[b|] [f1|] [f2|] [c|]]; cbn; intros H; try discriminate H.
  split; reflexivity.
Qed.

(** An insert touches nothing of the store but its database. *)
Lemma insert_frame (s : usageStore.t) (a : sql.answers) (rec : dbRecord) :
  let s' := fst (usageStore.insert s a rec) in
  usageStore.queue s' = usageStore.queue s
  /\ usageStore.stop s' = usageStore.stop s
  /\ usageStore.running s' = usageStore.running s
  /\ usageStore.dbClosed s' = usageStore.dbClosed s
  /\ usageStore.retentionDays s' = usageStore.retentionDays s.
Proof.
  unfold usageStore.insert.
  destruct (usageStore.dbClosed s) eqn:Hclosed; [cbn; auto 6|].
  destruct a as [[b|] [f1|] [f2|] [c|]]; cbn; auto 6.
Qed.

(** Nor does it look at the queue. *)
Lemma insert_with_queue (s : usageStore.t) (q : list dbRecord) (a : sql.answers)
    (rec : dbRecord) :
  fst (usageStore.insert (usageStore.with_queue s q) a rec)
  = usageStore.with_queue (fst (usageStore.insert s a rec)) q.
Proof.
  unfold usageStore.insert. cbn.
  destruct (usageStore.dbClosed s) eqn:Hclosed; [reflexivity|].
  destruct a as [[b|] [f1|] [f2|] [c|]]; reflexivity.
Qed.

(** The drain of [close] is the worker's rounds from the closing of [stop]
    to its return: one round for each record left, and the round that
    finds the queue empty. *)
Lemma drain_rounds (recs : list dbRecord) (s : usageStore.t) (answers : nat -> sql.answers) :
  usageStore.queue s = recs ->
  usageStore.running s = true ->
  usageStore.stop s = true ->
  rounds s (S (length recs)) answers
  = usageStore.returned (usageStore.drain (usageStore.with_queue s []) recs answers).
Proof.
  revert s answers. induction recs as [|rec rest IH]; intros s answers Hq Hrun Hstop.
  - cbn [length rounds usageStore.drain]. unfold usageStore.run.
    rewrite Hrun, Hq, Hstop. cbn [fst].
    destruct s; cbn in *; subst; reflexivity.
  - change (rounds s (S (length (rec :: rest))) answers)
      with (rounds (fst (usageStore.run s (answers O))) (S (length rest))
              (fun i => answers (S i))).
    cbn [usageStore.drain]. unfold usageStore.run at 1. rewrite Hrun, Hq.
    pose proof (insert_frame (usageStore.with_queue s rest) (answers O) rec)
      as (Hq1 & Hstop1 & Hrun1 & _).
    rewrite (IH _ (fun i => answers (S i)) Hq1); [|rewrite Hrun1; exact Hrun
                                                   |rewrite Hstop1; exact Hstop].
    rewrite !insert_with_queue. reflexivity.
Qed.

Lemma drainRemaining_rounds (s : usageStore.t) (answers : nat -> sql.answers) :
  usageStore.running s = true ->
  usageStore.stop s = true ->
  usageStore.drainRemaining s answers
  = rounds s (S (length (usageStore.queue s))) answers.
Proof.
  intros Hrun Hstop. symmetry. apply drain_rounds; auto.
Qed.

(** The two outcomes of an insert. *)
Lemma insert_result (s : usageStore.t) (a : sql.answers) (rec : dbRecord) :
  match snd (usageStore.insert s a rec) with
  | None =>
      usageStore.db (fst (usageStore.insert s a rec))
      = upsertDaily rec (insertRequest rec (usageStore.db s))
      /\ a = sql.allSucceed
  | Some _ => fst (usageStore.insert s a rec) = s
  end.
Proof.
  unfold usageStore.insert.
  destruct (usageStore.dbClosed s) eqn:Hclosed; [reflexivity|].
  destruct a as [[b|] [f1|] [f2|] [c|]]; cbn; rewrite ?with_db_same; auto.
Qed.

(** C2: an insert either returns no error, and then the database is the
    former one with the fact row appended and the daily row upserted (one
    more fact row, and a daily row under the key of the record), or it
    returns an error, and then the store, its database included, is as it
    was.  The second case is the one of every failure: of the begin, of
    either write, of the commit. *)
Theorem insert_atomic (s : usageStore.t) (a : sql.answers) (rec : dbRecord) :
  let d := usageStore.db s in
  let s' := fst (usageStore.insert s a rec) in
  let d' := usageStore.db s' in
  match snd (usageStore.insert s a rec) with
  | None =>
      d' = upsertDaily rec (insertRequest rec d)
      /\ length (usage_requests d') = S (length (usage_requests d))
      /\ is_Some (usage_daily d' !! dailyKeyOf rec)
      /\ a = sql.allSucceed
  | Some _ =>
      s' = s
      /\ usage_requests d' = usage_requests d
      /\ usage_daily d' = usage_daily d
  end.
Proof.
  cbn zeta. pose proof (insert_result s a rec) as H.
  destruct (snd (usageStore.insert s a rec)) as [err|].
  - rewrite H. auto.
  - destruct H as [-> ->]. split; [reflexivity|]. split; [|split; [|reflexivity]].
    + cbn. rewrite length_app. cbn. lia.
    + cbn. rewrite lookup_insert_eq. eauto.
Qed.

(** ** What a retention pass leaves in place *)

Lemma applyRetention_frame (s : usageStore.t) (now : time.Time)
    (a : usageStore.retentionAnswers) :
  let s' := usageStore.applyRetention s now a in
  usageStore.queue s' = usageStore.queue s
  /\ usageStore.stop s' = usageStore.stop s
  /\ usageStore.running s' = usageStore.running s
  /\ usageStore.dbClosed s' = usageStore.dbClosed s
  /\ usageStore.retentionDays s' = usageStore.retentionDays s.
Proof.
  unfold usageStore.applyRetention.
  destruct (usageStore.retentionDays s <=? 0); cbn; auto 6.
Qed.

(** A pass adds no row and changes none. *)
Lemma applyRetention_rows (s : usageStore.t) (now : time.Time)
    (a : usageStore.retentionAnswers) :
  let d' := usageStore.db (usageStore.applyRetention s now a) in
  (forall row, In row (usage_requests d') -> In row (usage_requests (usageStore.db s)))
  /\ (forall k row, usage_daily d' !! k = Some row ->
                    usage_daily (usageStore.db s) !! k = Some row).
Proof.
  unfold usageStore.applyRetention.
  destruct (usageStore.retentionDays s <=? 0); [cbn; auto|].
  set (cutoff := usageStore.retentionCutoff _ _). set (day := time.FormatDay cutoff).
  destruct (usageStore.dbClosed s); [cbn; auto|].
  destruct a as [[e1|] [e2|]]; cbn [usageStore.deleteRequestsFails
    usageStore.deleteDailyFails usageStore.db usageStore.with_db deleteDailyBefore
    deleteRequestsBefore usage_requests usage_daily]; split; auto.
  - intros k row H. apply map_lookup_filter_Some in H as [H _]. exact H.
  - intros row H. apply filter_In in H as [H _]. exact H.
  - intros row H. apply filter_In in H as [H _]. exact H.
  - intros k row H. apply map_lookup_filter_Some in H as [H _]. exact H.
Qed.

(** A pass that spares a key leaves its daily row as it is. *)
Lemma applyRetention_spares (s : usageStore.t) (now : time.Time)
    (a : usageStore.retentionAnswers) (k : dailyKey) :
  spares (usageStore.retentionDays s) k (databasePlugin.Retained now a) = true ->
  usage_daily (usageStore.db (usageStore.applyRetention s now a)) !! k
  = usage_daily (usageStore.db s) !! k.
Proof.
  unfold spares, usageStore.applyRetention.
  destruct (usageStore.retentionDays s <=? 0); [reflexivity|].
  set (cutoff := usageStore.retentionCutoff _ _). set (day := time.FormatDay cutoff).
  cbn [orb]. intros Hday. apply negb_true_iff in Hday.
  destruct (usageStore.dbClosed s); [reflexivity|].
  destruct a as [[e1|] [e2|]]; cbn [usageStore.deleteRequestsFails
    usageStore.deleteDailyFails usageStore.db usageStore.with_db deleteDailyBefore
    deleteRequestsBefore usage_requests usage_daily]; try reflexivity.
  all: rewrite map_lookup_filter;
    destruct (usage_daily (usageStore.db s) !! k) as [row|]; cbn [mbind option_bind];
    [rewrite option_guard_True; [reflexivity|exact Hday]|reflexivity].
Qed.

(** ** Configuring twice *)

Lemma configsEqual_refl (o : DatabaseOptions) : configsEqual (Some o) (Some o) = true.
Proof.
  unfold configsEqual.
  rewrite eqb_reflx, String.eqb_refl, Z.eqb_refl. reflexivity.
Qed.

Lemma configsEqual_eq (a b : DatabaseOptions) :
  configsEqual (Some a) (Some b) = true -> a = b.
Proof.
  unfold configsEqual. destruct a as [e1 p1 r1], b as [e2 p2 r2]; cbn.
  intros H. apply andb_prop in H as [H Hr]. apply andb_prop in H as [He Hp].
  apply eqb_prop in He. apply String.eqb_eq in Hp. apply Z.eqb_eq in Hr.
  congruence.
Qed.

Lemma closeStore_config (w w' : World) (p : option nat) (c : usageStore.closing) :
  closeStore w p c = Returns w' ->
  currentDBConfig w' = currentDBConfig w
  /\ currentUsageStore w' = currentUsageStore w
  /\ allocated w' = allocated w.
Proof.
  unfold closeStore. destruct p as [a|].
  - destruct (stores w !! a) as [s|]; [|discriminate].
    destruct (usageStore.close s c); try discriminate.
    intros [= <-]. cbn. auto.
  - intros [= <-]. auto.
Qed.

Section ConfigureTwice.

Variable filepath_Clean : string -> string.

(** A call that returns no error leaves the normalised options as the
    current configuration. *)
Lemma ConfigureDatabase_config (w w' : World) (fs : openAnswer)
    (c : usageStore.closing) (opts : DatabaseOptions) :
  ConfigureDatabase filepath_Clean w fs c opts = Returns (w', None) ->
  currentDBConfig w' = Some (normalizeDatabaseOptions filepath_Clean opts).
Proof.
  unfold ConfigureDatabase.
  destruct (configsEqual _ _) eqn:Heq.
  - intros [= <-]. destruct (currentDBConfig w) as [prev|]; [|discriminate].
    apply configsEqual_eq in Heq. congruence.
  - destruct (negb _ || _).
    + destruct (closeStore _ _ _) as [w2| |] eqn:Hclose; try discriminate.
      intros [= <-]. apply closeStore_config in Hclose as [-> _]. reflexivity.
    + destruct (newUsageStore _ _) as [err|store]; [discriminate|].
      destruct (closeStore _ _ _) as [w2| |] eqn:Hclose; try discriminate.
      intros [= <-]. reflexivity.
Qed.

(** C5: once [ConfigureDatabase] has returned no error for some options, a
    second call with the same options returns no error and leaves the
    stores, the current store pointer and the current configuration as they
    were, whatever the file system and the engine would have answered. *)
Theorem ConfigureDatabase_twice (w w1 : World) (fs fs' : openAnswer)
    (c c' : usageStore.closing) (opts : DatabaseOptions) :
  ConfigureDatabase filepath_Clean w fs c opts = Returns (w1, None) ->
  ConfigureDatabase filepath_Clean w1 fs' c' opts = Returns (w1, None).
Proof.
  intros H. apply ConfigureDatabase_config in H.
  unfold ConfigureDatabase. rewrite H, configsEqual_refl. reflexivity.
Qed.

End ConfigureTwice.

(** ** Enqueueing on a stopped store *)

(** [enqueue] does not panic: the queue is never closed. *)
Lemma enqueue_never_panics (s : usageStore.t) (pick : selected) (rec : dbRecord) (msg : string) :
  usageStore.enqueue s pick rec <> Panics msg.
Proof.
  unfold usageStore.enqueue.
  destruct (_ <? _)%nat, (usageStore.stop s), pick; discriminate.
Qed.

(** On a stopped store [enqueue] returns: one of its two cases is ready. *)
Lemma enqueue_stopped_returns (s : usageStore.t) (pick : selected) (rec : dbRecord) :
  usageStore.stop s = true -> usageStore.enqueue s pick rec <> Blocks.
Proof.
  intros Hstop. unfold usageStore.enqueue. rewrite Hstop.
  destruct (_ <? _)%nat, pick; discriminate.
Qed.

(** On a stopped store whose queue is full, or when the pick falls on the
    stop case, [enqueue] returns the error. *)
Lemma enqueue_stopped_refused (s : usageStore.t) (pick : selected) (rec : dbRecord) :
  usageStore.stop s = true ->
  pick = SecondCase \/ (usageStore.queueCapacity <= length (usageStore.queue s))%nat ->
  usageStore.enqueue s pick rec = Returns (s, Some "usage: database store stopped").
Proof.
  intros Hstop Hcase. unfold usageStore.enqueue. rewrite Hstop.
  destruct (Nat.ltb_spec (length (usageStore.queue s)) usageStore.queueCapacity) as [Hlt|Hge].
  - destruct Hcase as [->|Hfull]; [reflexivity|lia].
  - reflexivity.
Qed.

(** On a stopped store whose queue has room the send case is ready too, and
    when the pick falls on it the record is accepted. *)
Lemma enqueue_stopped_accepted (s : usageStore.t) (rec : dbRecord) :
  usageStore.stop s = true ->
  (length (usageStore.queue s) < usageStore.queueCapacity)%nat ->
  usageStore.enqueue s FirstCase rec
  = Returns (usageStore.with_queue s (usageStore.queue s ++ [rec])%list, None).
Proof.
  intros Hstop Hroom. unfold usageStore.enqueue. rewrite Hstop.
  destruct (Nat.ltb_spec (length (usageStore.queue s)) usageStore.queueCapacity); [reflexivity|lia].
Qed.

(** C4, on the code: a store made on a new file and closed is stopped, its
    queue is empty; [enqueue] on it, when the runtime picks the send case,
    returns no error and leaves the record in the queue, where no worker
    will take it and whence no insert could reach the closed database. *)
Theorem enqueue_after_close_accepts :
  usageStore.close (freshStore 14) quietClosing = Returns closedStore
  /\ usageStore.stop closedStore = true
  /\ usageStore.enqueue closedStore FirstCase qwenRecord
     = Returns (usageStore.with_queue closedStore [qwenRecord], None)
  /\ (forall a, usageStore.run (usageStore.with_queue closedStore [qwenRecord]) a
                = (usageStore.with_queue closedStore [qwenRecord], None))
  /\ (forall a, snd (usageStore.insert (usageStore.with_queue closedStore [qwenRecord])
                       a qwenRecord)
                = Some usageStore.ErrDBClosed).
Proof.
  split; [reflexivity|]. split; [reflexivity|]. split; [reflexivity|].
  split; intros a; reflexivity.
Qed.

(** ** The exporter *)

Lemma flushBatch_empty (p : OTLPPlugin.t) (answers : nat -> OTLPPlugin.sendAnswer) :
  OTLPPlugin.batch p = [] -> OTLPPlugin.flushBatch p answers = (p, []).
Proof. intros H. unfold OTLPPlugin.flushBatch. rewrite H. reflexivity. Qed.

Lemma flushBatch_fields (p : OTLPPlugin.t) (answers : nat -> OTLPPlugin.sendAnswer) :
  let p' := fst (OTLPPlugin.flushBatch p answers) in
  OTLPPlugin.batch p' = []
  /\ OTLPPlugin.enabled p' = OTLPPlugin.enabled p
  /\ OTLPPlugin.endpoint p' = OTLPPlugin.endpoint p.
Proof.
  unfold OTLPPlugin.flushBatch. destruct (OTLPPlugin.batch p) eqn:Hb; cbn; auto.
Qed.

(** No call other than [SetEnabled] writes the enabled flag. *)
Lemma step_enabled (p p' : OTLPPlugin.t) (c : OTLPPlugin.call) (effects : list OTLPPlugin.effect) :
  OTLPPlugin.step p c = Returns (p', effects) ->
  OTLPPlugin.enabled p' =
    match c with
    | OTLPPlugin.CallSetEnabled b => b
    | _ => OTLPPlugin.enabled p
    end.
Proof.
  destruct c as [ctx record a|b|e|pick answers|answers]; cbn.
  - destruct (OTLPPlugin.HandleUsage p ctx record a); try discriminate.
    intros [= <- _]. reflexivity.
  - intros [= <- _]. reflexivity.
  - intros [= <- _]. reflexivity.
  - unfold OTLPPlugin.periodicFlush.
    destruct (OTLPPlugin.stopChan p), pick; intros [= H].
    + subst. reflexivity.
    + rewrite (surjective_pairing (OTLPPlugin.flushBatch p answers)) in H.
      injection H as <- _. apply flushBatch_fields.
    + rewrite (surjective_pairing (OTLPPlugin.flushBatch p answers)) in H.
      injection H as <- _. apply flushBatch_fields.
    + rewrite (surjective_pairing (OTLPPlugin.flushBatch p answers)) in H.
      injection H as <- _. apply flushBatch_fields.
  - unfold OTLPPlugin.Close. cbn. destruct (OTLPPlugin.stopChan p); [discriminate|].
    intros [= H].
    match type of H with OTLPPlugin.flushBatch ?q _ = _ =>
      rewrite (surjective_pairing (OTLPPlugin.flushBatch q answers)) in H;
      injection H as <- _; apply (flushBatch_fields q) end.
Qed.

Lemma calls_stay_disabled (cs : list OTLPPlugin.call) (p p' : OTLPPlugin.t)
    (effects : list OTLPPlugin.effect) :
  OTLPPlugin.enabled p = false ->
  forallb (fun c => negb (OTLPPlugin.enables c)) cs = true ->
  OTLPPlugin.calls p cs = Returns (p', effects) ->
  OTLPPlugin.enabled p' = false.
Proof.
  revert p effects. induction cs as [|c cs IH]; intros p effects Hp Hcs; cbn.
  - intros [= <- _]. exact Hp.
  - cbn in Hcs. apply andb_prop in Hcs as [Hc Hcs].
    destruct (OTLPPlugin.step p c) as [[p1 e1]| |] eqn:Hstep; try discriminate.
    destruct (OTLPPlugin.calls p1 cs) as [[p2 e2]| |] eqn:Hrest; try discriminate.
    intros [= <- _]. apply (IH p1 e2); [|exact Hcs|exact Hrest].
    rewrite (step_enabled _ _ _ _ Hstep).
    destruct c as [| [|] | | |]; try exact Hp; try reflexivity. discriminate Hc.
Qed.

(** C8: once [SetEnabled false] has been called, and whatever calls follow
    as long as none of them is [SetEnabled true], [HandleUsage] returns at
    once: it converts nothing, sends nothing and logs nothing, whatever the
    context and the record. *)
Theorem disabled_sends_nothing (p p' : OTLPPlugin.t) (cs : list OTLPPlugin.call)
    (effects : list OTLPPlugin.effect) (ctx : context.Context)
    (record : coreusage.Record_) (a : OTLPPlugin.sendAnswer) :
  forallb (fun c => negb (OTLPPlugin.enables c)) cs = true ->
  OTLPPlugin.calls (OTLPPlugin.SetEnabled p false) cs = Returns (p', effects) ->
  OTLPPlugin.IsEnabled p' = false
  /\ OTLPPlugin.HandleUsage p' ctx record a = Returns []
  /\ forall done, OTLPPlugin.HandleUsage p' ctx record a = Returns done ->
       OTLPPlugin.posts done = [] /\ OTLPPlugin.conversions done = [].
Proof.
  intros Hcs Hcalls.
  assert (Hoff : OTLPPlugin.enabled p' = false).
  { apply (calls_stay_disabled cs (OTLPPlugin.SetEnabled p false) p' effects); auto. }
  assert (Hret : OTLPPlugin.HandleUsage p' ctx record a = Returns []).
  { unfold OTLPPlugin.HandleUsage. rewrite Hoff. reflexivity. }
  split; [exact Hoff|]. split; [exact Hret|].
  intros done Hdone. rewrite Hret in Hdone. injection Hdone as <-. split; reflexivity.
Qed.

(** Every call keeps an empty batch empty. *)
Lemma step_batch (p p' : OTLPPlugin.t) (c : OTLPPlugin.call) (effects : list OTLPPlugin.effect) :
  OTLPPlugin.batch p = [] ->
  OTLPPlugin.step p c = Returns (p', effects) ->
  OTLPPlugin.batch p' = [].
Proof.
  intros Hb. destruct c as [ctx record a|b|e|pick answers|answers]; cbn.
  - destruct (OTLPPlugin.HandleUsage p ctx record a); try discriminate.
    intros [= <- _]. exact Hb.
  - intros [= <- _]. exact Hb.
  - intros [= <- _]. exact Hb.
  - unfold OTLPPlugin.periodicFlush. rewrite (flushBatch_empty p answers Hb).
    destruct (OTLPPlugin.stopChan p), pick; intros [= <- _]; exact Hb.
  - unfold OTLPPlugin.Close. cbn. destruct (OTLPPlugin.stopChan p); [discriminate|].
    rewrite flushBatch_empty by exact Hb. intros [= <- _]. exact Hb.
Qed.

Lemma reachable_batch (p : OTLPPlugin.t) : OTLPPlugin.reachable p -> OTLPPlugin.batch p = [].
Proof.
  induction 1 as [env|p p' c effects _ IH Hstep].
  - reflexivity.
  - exact (step_batch p p' c effects IH Hstep).
Qed.

(** C9: in every state a plugin made by [NewOTLPPlugin] can reach through
    [HandleUsage], [SetEnabled], [SetEndpoint], ticks of the ticker and
    [Close], the batch is empty.  [HandleUsage] leaves the plugin as it is
    and posts at most the one event it has just converted, to the current
    endpoint; a periodic flush and the flush of [Close] do nothing. *)
Theorem batch_always_empty (p : OTLPPlugin.t) :
  OTLPPlugin.reachable p ->
  OTLPPlugin.batch p = []
  /\ (forall c p' effects,
        OTLPPlugin.step p c = Returns (p', effects) -> OTLPPlugin.batch p' = [])
  /\ (forall ctx record a p' effects,
        OTLPPlugin.step p (OTLPPlugin.CallHandleUsage ctx record a) = Returns (p', effects) ->
        p' = p
        /\ (OTLPPlugin.posts effects = []
            \/ exists event,
                 OTLPPlugin.convertRecordToEvent ctx record = Returns event
                 /\ OTLPPlugin.posts effects = [(OTLPPlugin.endpoint p, event)]))
  /\ (forall pick answers, OTLPPlugin.periodicFlush p pick answers = (p, []))
  /\ (forall answers p' effects,
        OTLPPlugin.Close p answers = Returns (p', effects) ->
        effects = [] /\ OTLPPlugin.batch p' = []).
Proof.
  intros Hreach. pose proof (reachable_batch p Hreach) as Hb.
  split; [exact Hb|]. split; [|split; [|split]].
  - intros c p' effects. apply step_batch, Hb.
  - intros ctx record a p' effects. cbn. unfold OTLPPlugin.HandleUsage.
    destruct (OTLPPlugin.enabled p); cbn.
    + destruct (OTLPPlugin.convertRecordToEvent ctx record) as [event| |]; try discriminate.
      destruct a as [err|err|err|code status]; cbn; intros [= <- <-]; (split; [reflexivity|]);
        cbn; eauto.
      destruct (_ || _); cbn; eauto.
    + intros [= <- <-]. auto.
  - intros pick answers. unfold OTLPPlugin.periodicFlush.
    rewrite (flushBatch_empty p answers Hb). destruct (OTLPPlugin.stopChan p), pick; reflexivity.
  - intros answers p' effects. unfold OTLPPlugin.Close. cbn.
    destruct (OTLPPlugin.stopChan p); [discriminate|].
    rewrite flushBatch_empty by exact Hb. intros [= <- <-]. auto.
Qed.

(** ** Trimming *)

Lemma hasPrefix_skipn (p l : list Z) :
  strings.hasPrefix p l = true -> l = (p ++ skipn (length p) l)%list.
Proof.
  revert l. induction p as [|a p IH]; intros l H.
  - reflexivity.
  - destruct l as [|b l]; [discriminate|]. cbn in H.
    apply andb_prop in H as [Hab Hp]. apply Z.eqb_eq in Hab. subst b.
    cbn. f_equal. apply IH, Hp.
Qed.

Lemma hasPrefix_app (p l r : list Z) :
  strings.hasPrefix p l = true -> strings.hasPrefix p (l ++ r) = true.
Proof.
  revert l. induction p as [|a p IH]; intros l H.
  - reflexivity.
  - destruct l as [|b l]; [discriminate|]. cbn in *.
    apply andb_prop in H as [Hab Hp]. rewrite Hab. cbn. apply IH, Hp.
Qed.

Lemma leadingSpace_Some (encs : list (list Z)) (l : list Z) (w : nat) :
  strings.leadingSpace encs l = Some w ->
  exists e, In e encs /\ length e = w /\ l = (e ++ skipn w l)%list.
Proof.
  unfold strings.leadingSpace. destruct (find _ encs) as [e|] eqn:Hfind; [|discriminate].
  intros [= <-]. apply find_some in Hfind as [Hin Hpre].
  exists e. split; [exact Hin|]. split; [reflexivity|]. apply hasPrefix_skipn, Hpre.
Qed.

Lemma leadingSpace_None (encs : list (list Z)) (l : list Z) :
  strings.leadingSpace encs l = None ->
  forall e, In e encs -> strings.hasPrefix e l = false.
Proof.
  unfold strings.leadingSpace. destruct (find _ encs) as [e|] eqn:Hfind; [discriminate|].
  intros _ e He. exact (find_none _ _ Hfind e He).
Qed.

Lemma leadingSpace_None_intro (encs : list (list Z)) (l : list Z) :
  (forall e, In e encs -> strings.hasPrefix e l = false) ->
  strings.leadingSpace encs l = None.
Proof.
  intros H. unfold strings.leadingSpace.
  destruct (find _ encs) as [e|] eqn:Hfind; [|reflexivity].
  apply find_some in Hfind as [Hin Hpre]. rewrite (H e Hin) in Hpre. discriminate.
Qed.

(** What [trimLeft] removes is a run of the given encodings. *)
Lemma trimLeft_split (fuel : nat) (encs : list (list Z)) (l : list Z) :
  exists es, Forall (fun e => In e encs) es
             /\ l = (concat es ++ strings.trimLeft fuel encs l)%list.
Proof.
  revert l. induction fuel as [|k IH]; intros l; cbn.
  - exists []. split; [constructor|reflexivity].
  - destruct (strings.leadingSpace encs l) as [w|] eqn:Hlead.
    + apply leadingSpace_Some in Hlead as (e & Hin & Hlen & Hl).
      destruct (IH (skipn w l)) as (es & Hes & Hrest).
      exists (e :: es). split; [constructor; assumption|].
      cbn. rewrite <- app_assoc, <- Hrest. exact Hl.
    + exists []. split; [constructor|reflexivity].
Qed.

(** With fuel for every byte, [trimLeft] stops on a list that starts with
    none of the encodings. *)
Lemma trimLeft_done (fuel : nat) (encs : list (list Z)) (l : list Z) :
  Forall (fun e => e <> []) encs ->
  (length l <= fuel)%nat ->
  strings.leadingSpace encs (strings.trimLeft fuel encs l) = None.
Proof.
  intros Hne. revert l. induction fuel as [|k IH]; intros l Hlen; cbn.
  - destruct l; [|cbn in Hlen; lia].
    apply leadingSpace_None_intro. intros e He.
    rewrite List.Forall_forall in Hne. specialize (Hne e He).
    destruct e; [contradiction|reflexivity].
  - destruct (strings.leadingSpace encs l) as [w|] eqn:Hlead; [|exact Hlead].
    apply IH. apply leadingSpace_Some in Hlead as (e & Hin & Hw & Hl).
    rewrite List.Forall_forall in Hne. specialize (Hne e Hin).
    rewrite length_skipn. destruct e; [contradiction|]. cbn in Hw. lia.
Qed.

Lemma spaceEncodings_nonempty : Forall (fun e => e <> []) strings.spaceEncodings.
Proof. repeat constructor; discriminate. Qed.

Lemma rev_spaceEncodings_nonempty :
  Forall (fun e => e <> []) (map (@rev Z) strings.spaceEncodings).
Proof. repeat constructor; discriminate. Qed.

Lemma TrimLeftSpace_split (l : list Z) :
  exists pre, whiteSpace pre /\ l = (pre ++ strings.TrimLeftSpace l)%list.
Proof.
  destruct (trimLeft_split (length l) strings.spaceEncodings l) as (es & Hes & Hl).
  exists (concat es). split; [exists es; auto|exact Hl].
Qed.

Lemma concat_rev (es : list (list Z)) :
  rev (concat es) = concat (rev (map (@rev Z) es)).
Proof.
  induction es as [|e es IH]; cbn.
  - reflexivity.
  - rewrite rev_app_distr, IH, concat_app. cbn. rewrite app_nil_r. reflexivity.
Qed.

Lemma TrimRightSpace_split (l : list Z) :
  exists post, whiteSpace post /\ l = (strings.TrimRightSpace l ++ post)%list.
Proof.
  unfold strings.TrimRightSpace.
  destruct (trimLeft_split (length l) (map (@rev Z) strings.spaceEncodings) (rev l))
    as (es & Hes & Hl).
  exists (rev (concat es)). split.
  - exists (rev (map (@rev Z) es)). split; [|apply concat_rev].
    apply List.Forall_rev. rewrite List.Forall_map. eapply List.Forall_impl; [|exact Hes].
    intros e He. apply in_map_iff in He as (e0 & <- & He0).
    rewrite rev_involutive. exact He0.
  - rewrite <- rev_app_distr, <- Hl, rev_involutive. reflexivity.
Qed.

Lemma TrimLeftSpace_done (l : list Z) :
  strings.leadingSpace strings.spaceEncodings (strings.TrimLeftSpace l) = None.
Proof. apply trimLeft_done; [apply spaceEncodings_nonempty|lia]. Qed.

Lemma TrimRightSpace_done (l : list Z) : trailingSpace (strings.TrimRightSpace l) = None.
Proof.
  unfold trailingSpace, strings.TrimRightSpace. rewrite rev_involutive.
  apply trimLeft_done; [apply rev_spaceEncodings_nonempty|].
  rewrite length_rev. lia.
Qed.

(** Trimming on the right does not bring white space to the front. *)
Lemma TrimRightSpace_keeps_front (l : list Z) :
  strings.leadingSpace strings.spaceEncodings l = None ->
  strings.leadingSpace strings.spaceEncodings (strings.TrimRightSpace l) = None.
Proof.
  intros Hl. destruct (TrimRightSpace_split l) as (post & _ & Hsplit).
  apply leadingSpace_None_intro. intros e He.
  destruct (strings.hasPrefix e (strings.TrimRightSpace l)) eqn:Hpre; [|reflexivity].
  apply (hasPrefix_app _ _ post) in Hpre. rewrite <- Hsplit in Hpre.
  rewrite (leadingSpace_None _ _ Hl e He) in Hpre. discriminate.
Qed.

Lemma string_of_bytes_of_string (s : string) :
  strings.string_of_bytes (Hex.bytes_of_string s) = s.
Proof.
  induction s as [|c s IH]; cbn.
  - reflexivity.
  - rewrite Nat2Z.id, ascii_nat_embedding, IH. reflexivity.
Qed.

Lemma bytes_of_string_bytes (s : string) : Forall isByte (Hex.bytes_of_string s).
Proof.
  induction s as [|c s IH]; cbn; constructor; [|exact IH].
  pose proof (nat_ascii_bounded c). unfold isByte. lia.
Qed.

Lemma bytes_of_string_of_bytes (l : list Z) :
  Forall isByte l -> Hex.bytes_of_string (strings.string_of_bytes l) = l.
Proof.
  induction 1 as [|b l Hb _ IH]; cbn.
  - reflexivity.
  - rewrite nat_ascii_embedding, IH by (unfold isByte in Hb; lia).
    rewrite Z2Nat.id by (unfold isByte in Hb; lia). reflexivity.
Qed.

(** The same through the package functions the management handlers call,
    once the exporter is registered. *)
Lemma OTLPEndpoint_set (p : OTLPPlugin.t) (s : string) :
  OTLPEndpoint (SetOTLPEndpoint (Some p) s) = strings.TrimSpace s
  /\ OTLPEnabled (SetOTLPEndpoint (Some p) s) = OTLPEnabled (Some p)
  /\ OTLPEndpoint (SetOTLPEndpoint None s) = OTLPPlugin.defaultEndpoint.
Proof. repeat split. Qed.

(** C7: after [SetEndpoint s], [GetEndpoint] returns [strings.TrimSpace s]:
    the bytes of [s] are a run of white space, then the bytes returned,
    then a run of white space, and what is returned neither starts nor ends
    with a white-space rune. *)
Theorem endpoint_round_trip (p : OTLPPlugin.t) (s : string) :
  let got := OTLPPlugin.GetEndpoint (OTLPPlugin.SetEndpoint p s) in
  got = strings.TrimSpace s
  /\ exists pre post,
       Hex.bytes_of_string s = (pre ++ Hex.bytes_of_string got ++ post)%list
       /\ whiteSpace pre /\ whiteSpace post
       /\ strings.leadingSpace strings.spaceEncodings (Hex.bytes_of_string got) = None
       /\ trailingSpace (Hex.bytes_of_string got) = None.
Proof.
  cbn. split; [reflexivity|]. unfold strings.TrimSpace.
  set (l := Hex.bytes_of_string s).
  destruct (TrimLeftSpace_split l) as (pre & Hpre & Hl).
  destruct (TrimRightSpace_split (strings.TrimLeftSpace l)) as (post & Hpost & Hr).
  assert (Hbytes : Forall isByte (strings.TrimRightSpace (strings.TrimLeftSpace l))).
  { pose proof (bytes_of_string_bytes s) as Hall. fold l in Hall.
    rewrite Hl, Hr in Hall. apply Forall_app in Hall as [_ Hall].
    apply Forall_app in Hall as [Hall _]. exact Hall. }
  rewrite (bytes_of_string_of_bytes _ Hbytes).
  exists pre, post. split; [rewrite <- Hr; exact Hl|].
  split; [exact Hpre|]. split; [exact Hpost|]. split.
  - apply TrimRightSpace_keeps_front, TrimLeftSpace_done.
  - apply TrimRightSpace_done.
Qed.

(** ** The credential label *)

Lemma credentialLabel_fallback (record : coreusage.Record_) :
  credentialLabel record =
    default (if nonEmpty (coreusage.APIKey record) then "api-key" else "unknown")
      (firstNonEmpty [coreusage.AuthID record; coreusage.Source record;
                      coreusage.Provider record]).
Proof.
  unfold credentialLabel. cbn [firstNonEmpty].
  destruct (nonEmpty (coreusage.AuthID record)); [reflexivity|].
  destruct (nonEmpty (coreusage.Source record)); [reflexivity|].
  destruct (nonEmpty (coreusage.Provider record)); reflexivity.
Qed.

Lemma credentialLabel_nonempty (record : coreusage.Record_) : credentialLabel record <> "".
Proof.
  unfold credentialLabel.
  destruct (nonEmpty (coreusage.AuthID record)) eqn:E1; [apply nonEmpty_true, E1|].
  destruct (nonEmpty (coreusage.Source record)) eqn:E2; [apply nonEmpty_true, E2|].
  destruct (nonEmpty (coreusage.Provider record)) eqn:E3; [apply nonEmpty_true, E3|].
  destruct (nonEmpty (coreusage.APIKey record)); discriminate.
Qed.

(** With a label in the incoming row, the conflict clause takes it. *)
Lemma mergeDaily_label (old : dailyRow) (rec : dbRecord) :
  CredentialLabel rec <> "" ->
  credential_label (mergeDaily old (excludedRow rec)) = CredentialLabel rec.
Proof.
  intros H. apply nonEmpty_true in H. unfold mergeDaily. cbn. rewrite H. reflexivity.
Qed.

Lemma labelled_writes (rec : dbRecord) (d : database) :
  CredentialLabel rec <> "" -> labelled d ->
  labelled (upsertDaily rec (insertRequest rec d)).
Proof.
  intros Hrec [Hreq Hdaily]. split; cbn.
  - apply Forall_app. split; [exact Hreq|]. constructor; [exact Hrec|constructor].
  - intros k row. rewrite lookup_insert. destruct (decide (dailyKeyOf rec = k)) as [_|_].
    + intros [= <-]. destruct (usage_daily d !! dailyKeyOf rec) as [old|].
      * rewrite mergeDaily_label by exact Hrec. exact Hrec.
      * exact Hrec.
    + apply Hdaily.
Qed.

Lemma labelled_insert (s : usageStore.t) (a : sql.answers) (rec : dbRecord) :
  CredentialLabel rec <> "" -> labelled (usageStore.db s) ->
  labelled (usageStore.db (fst (usageStore.insert s a rec)))
  /\ usageStore.queue (fst (usageStore.insert s a rec)) = usageStore.queue s.
Proof.
  intros Hrec Hs. split; [|apply insert_frame].
  pose proof (insert_result s a rec) as H.
  destruct (usageStore.insert s a rec) as [s' [err|]]; cbn in *.
  - rewrite H. exact Hs.
  - destruct H as [-> _]. apply labelled_writes; assumption.
Qed.

Section CredentialLabel.

Variable normaliseDetail : coreusage.Detail -> TokenStats.

Lemma dbRecordOf_label (ctx : context.Context) (record : coreusage.Record_)
    (now : time.Time) (rec : dbRecord) :
  databasePlugin.dbRecordOf normaliseDetail ctx record now = Returns rec ->
  CredentialLabel rec = credentialLabel record.
Proof.
  unfold databasePlugin.dbRecordOf.
  destruct (resolveStatusCode ctx); try discriminate. intros [= <-]. reflexivity.
Qed.

Lemma step_labelled (s : usageStore.t) (e : databasePlugin.event) :
  labelled (usageStore.db s) -> labelledRecords (usageStore.queue s) ->
  let s' := fst (databasePlugin.step normaliseDetail s e) in
  labelled (usageStore.db s')
  /\ labelledRecords (usageStore.queue s')
  /\ labelledRecords (snd (databasePlugin.step normaliseDetail s e)).
Proof.
  intros Hdb Hq.
  assert (Hsame : labelled (usageStore.db s) /\ labelledRecords (usageStore.queue s)
                  /\ labelledRecords []).
  { split; [exact Hdb|]. split; [exact Hq|constructor]. }
  destruct e as [ctx record now pick|a|now a|]; cbn [databasePlugin.step]; cycle 2.
  - cbn [fst snd].
    pose proof (applyRetention_rows s now a) as [Hreq Hdaily].
    pose proof (applyRetention_frame s now a) as (Hq' & _). cbn zeta in Hreq, Hdaily, Hq'.
    rewrite Hq'. split; [|split; [exact Hq|constructor]].
    destruct Hdb as [Hdb1 Hdb2]. split.
    + apply List.Forall_forall. intros row Hrow.
      rewrite List.Forall_forall in Hdb1. apply Hdb1, Hreq, Hrow.
    + intros k row Hrow. apply (Hdb2 k), Hdaily, Hrow.
  - exact Hsame.
  - unfold databasePlugin.handleOn.
    destruct (databasePlugin.dbRecordOf normaliseDetail ctx record now) as [rec| |] eqn:Hrec;
      cbn [fst snd]; try exact Hsame.
    apply dbRecordOf_label in Hrec.
    assert (Hmore : labelledRecords (usageStore.queue s ++ [rec])).
    { apply Forall_app. split; [exact Hq|].
      constructor; [rewrite Hrec; apply credentialLabel_nonempty|constructor]. }
    unfold usageStore.enqueue.
    destruct (_ <? _)%nat, (usageStore.stop s), pick; cbn [fst snd]; try exact Hsame.
    all: split; [exact Hdb|]; split; [exact Hmore|constructor].
  - unfold usageStore.run. destruct (usageStore.running s); [|exact Hsame].
    destruct (usageStore.queue s) as [|rec rest] eqn:Hqueue.
    + destruct (usageStore.stop s); cbn; rewrite ?Hqueue; exact Hsame.
    + inversion Hq as [|? ? Hrec Hrest]; subst.
      destruct (labelled_insert (usageStore.with_queue s rest) a rec Hrec Hdb) as [Hdb' Hq'].
      destruct (usageStore.insert (usageStore.with_queue s rest) a rec) as [s' [err|]];
        cbn [fst snd firstn] in *; rewrite Hq'.
      * split; [exact Hdb'|]. split; [exact Hrest|constructor].
      * split; [exact Hdb'|]. split; [exact Hrest|]. constructor; [exact Hrec|constructor].
Qed.

(** C10: the credential label of a usage record is never empty: it is the
    first non-empty value among auth id, source and provider, else
    "api-key" when there is a raw key, else "unknown".  Hence, from a store
    all of whose rows and queued records carry a label (a new store has
    none), whatever calls of [HandleUsage] and worker iterations follow,
    every fact row and every daily row carries a label, and so does every
    record inserted, for which the conflict clause of the upsert therefore
    takes the incoming label. *)
Theorem credential_label_never_empty (s : usageStore.t) (events : list databasePlugin.event) :
  labelled (usageStore.db s) ->
  labelledRecords (usageStore.queue s) ->
  let s' := fst (databasePlugin.steps normaliseDetail s events) in
  let inserted := snd (databasePlugin.steps normaliseDetail s events) in
  (forall record : coreusage.Record_,
     credentialLabel record <> ""
     /\ credentialLabel record =
          default (if nonEmpty (coreusage.APIKey record) then "api-key" else "unknown")
            (firstNonEmpty [coreusage.AuthID record; coreusage.Source record;
                            coreusage.Provider record]))
  /\ labelled (usageStore.db s')
  /\ labelledRecords (usageStore.queue s')
  /\ Forall (fun rec =>
       CredentialLabel rec <> ""
       /\ forall old, credential_label (mergeDaily old (excludedRow rec)) = CredentialLabel rec)
       inserted.
Proof.
  intros Hdb Hq. cbn zeta.
  split; [intros record; split;
          [apply credentialLabel_nonempty|apply credentialLabel_fallback]|].
  revert s Hdb Hq. induction events as [|e events IH]; intros s Hdb Hq; cbn.
  - split; [exact Hdb|]. split; [exact Hq|constructor].
  - destruct (step_labelled s e Hdb Hq) as (Hdb1 & Hq1 & Hins1).
    destruct (databasePlugin.step normaliseDetail s e) as [s1 done1]; cbn in *.
    specialize (IH s1 Hdb1 Hq1).
    destruct (databasePlugin.steps normaliseDetail s1 events) as [s2 done2]; cbn in *.
    destruct IH as (Hdb2 & Hq2 & Hins2).
    split; [exact Hdb2|]. split; [exact Hq2|].
    apply Forall_app. split; [|exact Hins2].
    eapply List.Forall_impl; [|exact Hins1].
    intros rec Hrec. split; [exact Hrec|]. intros old. apply mergeDaily_label, Hrec.
Qed.

End CredentialLabel.

(** ** Retention *)

(** A store whose retention is not positive deletes nothing. *)
Lemma applyRetention_disabled (s : usageStore.t) (now : time.Time)
    (a : usageStore.retentionAnswers) :
  usageStore.retentionDays s <= 0 -> usageStore.applyRetention s now a = s.
Proof.
  intros H. unfold usageStore.applyRetention.
  destruct (Z.leb_spec (usageStore.retentionDays s) 0); [reflexivity|lia].
Qed.



Lemma closeStore_other (w w' : World) (p : option nat) (c : usageStore.closing) (a : nat) :
  closeStore w p c = Returns w' -> p <> Some a -> stores w' !! a = stores w !! a.
Proof.
  unfold closeStore. destruct p as [b|].
  - destruct (stores w !! b) as [s|]; [|discriminate].
    destruct (usageStore.close s c); try discriminate.
    intros [= <-] Hne. cbn. apply lookup_insert_ne. congruence.
  - intros [= <-] _. reflexivity.
Qed.

Section Retention.

Variable filepath_Clean : string -> string.


Lemma ConfigureDatabase_consistent (w w' : World) (fs : openAnswer) (c : usageStore.closing)
    (opts : DatabaseOptions) (err : option error) :
  consistent w ->
  ConfigureDatabase filepath_Clean w fs c opts = Returns (w', err) ->
  consistent w'.
Proof.
  intros Hcons. unfold ConfigureDatabase.
  destruct (configsEqual _ _) eqn:Heq; [intros [= <- _]; exact Hcons|].
  destruct (negb _ || _).
  - destruct (closeStore _ _ _) as [w2| |] eqn:Hclose; try discriminate.
    intros [= <- _] a Hcur. apply closeStore_config in Hclose as (_ & Hp & _).
    rewrite Hp in Hcur. discriminate.
  - destruct (newUsageStore _ _) as [e|store] eqn:Hnew; [intros [= <- _]; exact Hcons|].
    destruct (closeStore _ _ _) as [w2| |] eqn:Hclose; try discriminate.
    intros [= <- _] a. cbn. intros Hcur.
    pose proof (closeStore_config _ _ _ _ Hclose) as (_ & Hp & Halloc). cbn in Hp, Halloc.
    rewrite Hp in Hcur. injection Hcur as <-. rewrite Halloc. split; [lia|].
    exists store, (normalizeDatabaseOptions filepath_Clean opts).
    split.
    + rewrite (closeStore_other _ _ _ _ (allocated w) Hclose).
      * cbn. apply lookup_insert_eq.
      * intros Hold. destruct (Hcons _ Hold) as [Hlt _]. lia.
    + split; [reflexivity|]. unfold newUsageStore in Hnew.
      destruct (String.eqb _ ""); [discriminate|].
      destruct fs; try discriminate. injection Hnew as <-. cbn. auto.
Qed.


(** The fact rows a retention pass keeps when the cutoff and the
    timestamps of the rows are of the years 0 to 9999: those not before the
    cutoff. *)
Lemma kept_rows_four_digits (cutoff : time.Time) (row : requestRow) :
  fourDigitYear cutoff -> fourDigitYear (req_timestamp row) ->
  negb (String.ltb (TimeString (req_timestamp row)) (TimeString cutoff))
  = (cutoff <=? req_timestamp row).
Proof.
  intros Hc Hr. rewrite TimeString_ltb by assumption. symmetry. apply Z.leb_antisym.
Qed.


End Retention.


(** ** The daily aggregate *)


Lemma sumsFit_app (acc : Z) (xs ys : list Z) :
  sumsFit acc (xs ++ ys) = sumsFit acc xs && sumsFit (acc + fold_right Z.add 0 xs) ys.
Proof.
  revert acc. induction xs as [|x xs IH]; intros acc; cbn.
  - rewrite Z.add_0_r. reflexivity.
  - rewrite IH, Z.add_assoc, andb_assoc. reflexivity.
Qed.









Lemma upsert_lookup (rec : dbRecord) (d : database) (k : dailyKey) :
  usage_daily (upsertDaily rec (insertRequest rec d)) !! k =
    if decide (dailyKeyOf rec = k)
    then Some match usage_daily d !! k with
              | None => excludedRow rec
              | Some row => mergeDaily row (excludedRow rec)
              end
    else usage_daily d !! k.
Proof.
  cbn. rewrite lookup_insert. destruct (decide (dailyKeyOf rec = k)) as [<-|]; reflexivity.
Qed.

Lemma sharing_one (k : dailyKey) (rec : dbRecord) :
  sharing k [rec] = if decide (dailyKeyOf rec = k) then [rec] else [].
Proof.
  unfold sharing. cbn. destruct (decide (dailyKeyOf rec = k)) as [H|H].
  - rewrite bool_decide_eq_true_2 by exact H. reflexivity.
  - rewrite bool_decide_eq_false_2 by exact H. reflexivity.
Qed.


Section DailyAggregate.

Variable normaliseDetail : coreusage.Detail -> TokenStats.




Lemma built_more (before after : list databasePlugin.event) (rec : dbRecord) :
  built normaliseDetail before rec -> built normaliseDetail (before ++ after) rec.
Proof.
  intros (ctx & record & now & pick & Hin & Hrec).
  exists ctx, record, now, pick. split; [apply in_or_app; left; exact Hin|exact Hrec].
Qed.

Lemma step_built (before : list databasePlugin.event) (s : usageStore.t)
    (e : databasePlugin.event) :
  Forall (built normaliseDetail before) (usageStore.queue s) ->
  Forall (built normaliseDetail (before ++ [e]))
         (usageStore.queue (fst (databasePlugin.step normaliseDetail s e)))
  /\ Forall (built normaliseDetail (before ++ [e]))
            (snd (databasePlugin.step normaliseDetail s e)).
Proof.
  intros Hq.
  assert (Hq' : Forall (built normaliseDetail (before ++ [e])) (usageStore.queue s)).
  { eapply List.Forall_impl; [|exact Hq]. intros rec. apply built_more. }
  clear Hq.
  destruct e as [ctx record now pick|a|now a|]; cbn [databasePlugin.step]; cycle 2.
  - cbn [fst snd]. pose proof (applyRetention_frame s now a) as (Hq1 & _).
    cbn zeta in Hq1. rewrite Hq1. split; [exact Hq'|constructor].
  - split; [exact Hq'|constructor].
  - unfold databasePlugin.handleOn.
    destruct (databasePlugin.dbRecordOf normaliseDetail ctx record now) as [rec| |] eqn:Hrec;
      cbn [fst snd]; try (split; [exact Hq'|constructor]).
    assert (Hmore : Forall (built normaliseDetail
                              (before ++ [databasePlugin.Handled ctx record now pick]))
                           (usageStore.queue s ++ [rec])).
    { apply Forall_app. split; [exact Hq'|]. constructor; [|constructor].
      exists ctx, record, now, pick. split; [|exact Hrec].
      apply in_or_app. right. left. reflexivity. }
    unfold usageStore.enqueue.
    destruct (_ <? _)%nat, (usageStore.stop s), pick; cbn [fst snd];
      (split; [first [exact Hmore|exact Hq']|constructor]).
  - unfold usageStore.run. destruct (usageStore.running s); [|split; [exact Hq'|constructor]].
    destruct (usageStore.queue s) as [|rec rest] eqn:Hqueue.
    + destruct (usageStore.stop s); cbn; rewrite ?Hqueue; split; constructor.
    + inversion Hq' as [|? ? Hrec Hrest]; subst.
      pose proof (insert_frame (usageStore.with_queue s rest) a rec) as (Hq1 & _).
      destruct (usageStore.insert (usageStore.with_queue s rest) a rec) as [s' [err|]];
        cbn [fst snd firstn] in Hq1 |- *; rewrite Hq1; cbn.
      * split; [exact Hrest|constructor].
      * split; [exact Hrest|]. constructor; [exact Hrec|constructor].
Qed.

(** Every record inserted was built by one of the calls of [HandleUsage]:
    its failed flag is the one of the usage record, its status code the one
    resolved from the context of the call, its token counts the normalised
    ones of the usage record. *)
Lemma steps_built (events before : list databasePlugin.event) (s : usageStore.t) :
  Forall (built normaliseDetail before) (usageStore.queue s) ->
  Forall (built normaliseDetail (before ++ events))
         (usageStore.queue (fst (databasePlugin.steps normaliseDetail s events)))
  /\ Forall (built normaliseDetail (before ++ events))
            (snd (databasePlugin.steps normaliseDetail s events)).
Proof.
  revert before s. induction events as [|e events IH]; intros before s Hq.
  - cbn. rewrite app_nil_r. split; [exact Hq|constructor].
  - cbn [databasePlugin.steps].
    destruct (step_built before s e Hq) as [Hq1 Hins1].
    destruct (databasePlugin.step normaliseDetail s e) as [s1 done1]; cbn [fst snd] in *.
    destruct (IH (before ++ [e])%list s1 Hq1) as [Hq2 Hins2].
    destruct (databasePlugin.steps normaliseDetail s1 events) as [s2 done2];
      cbn [fst snd] in *.
    replace (before ++ e :: events)%list with ((before ++ [e]) ++ events)%list
      by (rewrite <- app_assoc; reflexivity).
    split; [exact Hq2|]. apply Forall_app. split; [|exact Hins2].
    eapply List.Forall_impl; [|exact Hins1]. intros rec. apply built_more.
Qed.


End DailyAggregate.

(** ** The theorems at sample inputs *)

(** A retention pass thirty days after a record deletes its daily row: the
    row of a key sums up the records inserted since the last pass that did
    not spare it. *)
Example retention_forgets :
  let events :=
    [databasePlugin.Handled (respondedWith 200) (claudeRecord false 10) 0 FirstCase;
     databasePlugin.Worked sql.allSucceed;
     databasePlugin.Retained thirtyDaysLater quietRetention] in
  let run := databasePlugin.steps copyDetail (freshStore 14) events in
  length (snd run) = 1%nat
  /\ spares 14 claudeKey (databasePlugin.Retained thirtyDaysLater quietRetention) = false
  /\ usage_daily (usageStore.db (fst run)) !! claudeKey = None.
Proof. repeat split; vm_compute; reflexivity. Qed.

(** The three records of [claudeEvents] end up in one daily row. *)
Example claude_daily_row :
  usage_daily (usageStore.db (fst (databasePlugin.steps copyDetail (freshStore 14) claudeEvents)))
    !! claudeKey
  = Some {| credential_label := "auth-X";
            total_requests := SqlInt 3;
            failed_requests := SqlInt 1;
            rate_limited := SqlInt 1;
            prompt_tokens := SqlInt 12;
            completion_tokens := SqlInt 18;
            total_tokens := SqlInt 42 |}.
Proof. vm_compute. reflexivity. Qed.


(** The options of the test, twice; the second time the file system would
    refuse to open the database. *)
Lemma ConfigureDatabase_twice_witness :
  ConfigureDatabase cleanPath initialWorld (Opened emptyDatabase) quietClosing
    testOptions = Returns (testWorld, None)
  /\ ConfigureDatabase cleanPath testWorld (OpenFails "disk full") quietClosing
       testOptions = Returns (testWorld, None).
Proof.
  assert (H1 : ConfigureDatabase cleanPath initialWorld (Opened emptyDatabase)
                 quietClosing testOptions = Returns (testWorld, None)) by reflexivity.
  split; [exact H1|].
  exact (ConfigureDatabase_twice cleanPath initialWorld testWorld
           (Opened emptyDatabase) (OpenFails "disk full") quietClosing quietClosing
           testOptions H1).
Defined.

(** A new exporter, disabled, then [quietCalls]: a record dispatched after
    them has no effect. *)
Lemma disabled_sends_nothing_witness :
  let p := OTLPPlugin.NewOTLPPlugin "" in
  let p' := OTLPPlugin.SetEnabled
              (OTLPPlugin.SetEndpoint p "  https://collector.example/v1/logs  ") false in
  forallb (fun c => negb (OTLPPlugin.enables c)) quietCalls = true
  /\ OTLPPlugin.calls (OTLPPlugin.SetEnabled p false) quietCalls = Returns (p', [])
  /\ OTLPPlugin.HandleUsage p' (respondedWith 200) (claudeRecord false 10)
       (OTLPPlugin.Responded 200 "200 OK") = Returns [].
Proof.
  cbn zeta.
  assert (H1 : forallb (fun c => negb (OTLPPlugin.enables c)) quietCalls = true)
    by reflexivity.
  assert (H2 : OTLPPlugin.calls (OTLPPlugin.SetEnabled (OTLPPlugin.NewOTLPPlugin "") false)
                 quietCalls
               = Returns (OTLPPlugin.SetEnabled
                            (OTLPPlugin.SetEndpoint (OTLPPlugin.NewOTLPPlugin "")
                               "  https://collector.example/v1/logs  ") false, []))
    by (vm_compute; reflexivity).
  split; [exact H1|]. split; [exact H2|].
  exact (proj1 (proj2 (disabled_sends_nothing (OTLPPlugin.NewOTLPPlugin "") _ quietCalls []
                         (respondedWith 200) (claudeRecord false 10)
                         (OTLPPlugin.Responded 200 "200 OK") H1 H2))).
Defined.

(** A new exporter after [SetEndpoint]. *)
Lemma batch_always_empty_witness :
  let p := OTLPPlugin.SetEndpoint (OTLPPlugin.NewOTLPPlugin "") "http://collector:4318/v1/logs" in
  OTLPPlugin.reachable p
  /\ OTLPPlugin.batch p = []
  /\ OTLPPlugin.periodicFlush p SecondCase alwaysOK = (p, []).
Proof.
  cbn zeta.
  assert (H1 : OTLPPlugin.reachable
                 (OTLPPlugin.SetEndpoint (OTLPPlugin.NewOTLPPlugin "")
                    "http://collector:4318/v1/logs")).
  { apply (OTLPPlugin.reachable_step (OTLPPlugin.NewOTLPPlugin "") _
             (OTLPPlugin.CallSetEndpoint "http://collector:4318/v1/logs") []).
    - apply OTLPPlugin.reachable_new.
    - reflexivity. }
  split; [exact H1|].
  pose proof (batch_always_empty _ H1) as (Hbatch & _ & _ & Hflush & _).
  split; [exact Hbatch|apply Hflush].
Defined.

(** The theorem on [claudeEvents], from a new store. *)
Lemma credential_label_never_empty_witness :
  let run := databasePlugin.steps copyDetail (freshStore 14) claudeEvents in
  labelled (usageStore.db (freshStore 14))
  /\ labelledRecords (usageStore.queue (freshStore 14))
  /\ labelled (usageStore.db (fst run))
  /\ labelledRecords (snd run).
Proof.
  cbn zeta.
  assert (H1 : labelled (usageStore.db (freshStore 14))).
  { split; [constructor|]. intros k row H.
    change ((∅ : gmap dailyKey dailyRow) !! k = Some row) in H.
    rewrite lookup_empty in H. discriminate H. }
  assert (H2 : labelledRecords (usageStore.queue (freshStore 14))) by constructor.
  split; [exact H1|]. split; [exact H2|].
  pose proof (credential_label_never_empty copyDetail (freshStore 14) claudeEvents H1 H2)
    as (_ & Hdb & _ & Hins).
  split; [exact Hdb|].
  eapply List.Forall_impl; [|exact Hins]. intros rec [Hrec _]. exact Hrec.
Defined.

(** * Further properties *)

(** ** Fingerprints and labels *)

Lemma digit_isLowerHex (n : Z) : 0 <= n < 16 -> isLowerHex (Hex.digit n) = true.
Proof.
  intros Hn.
  assert (Hall : forallb (fun k => isLowerHex (Hex.digit (Z.of_nat k))) (seq 0 16) = true)
    by reflexivity.
  rewrite forallb_forall in Hall.
  rewrite <- (Z2Nat.id n) by lia. apply Hall. apply in_seq. lia.
Qed.

Lemma EncodeToString_hex (bs : list Z) :
  Forall isByte bs -> allChars isLowerHex (Hex.EncodeToString bs) = true.
Proof.
  induction 1 as [|b bs Hb _ IH]; [reflexivity|].
  unfold isByte in Hb. cbn [Hex.EncodeToString allChars].
  rewrite IH, !digit_isLowerHex; [reflexivity| |].
  - change 15 with (Z.ones 4). rewrite Z.land_ones by lia.
    pose proof (Z.mod_pos_bound b (2 ^ 4)). lia.
  - rewrite Z.shiftr_div_pow2 by lia. change (2 ^ 4) with 16.
    split; [apply Z.div_pos; lia|apply Z.div_lt_upper_bound; lia].
Qed.

Lemma be_bytes_bytes (width : nat) (x : Z) : Forall isByte (SHA256.be_bytes width x).
Proof.
  unfold SHA256.be_bytes. apply List.Forall_forall. intros b Hb.
  apply in_map_iff in Hb as (i & <- & _).
  change 255 with (Z.ones 8). rewrite Z.land_ones by lia.
  unfold isByte. pose proof (Z.mod_pos_bound (Z.shiftr x (8 * Z.of_nat (width - 1 - i))) (2 ^ 8)).
  lia.
Qed.

Lemma Sum256_bytes (msg : list Z) : Forall isByte (SHA256.Sum256 msg).
Proof.
  unfold SHA256.Sum256. generalize (fold_left SHA256.compress
    (SHA256.blocks (Nat.div (length (SHA256.words_of_bytes (SHA256.pad msg))) 16)
       (SHA256.words_of_bytes (SHA256.pad msg))) SHA256.H0) as h.
  intros h. induction h as [|x h IH]; cbn [map concat]; [constructor|].
  apply Forall_app. split; [apply be_bytes_bytes|exact IH].
Qed.

(** X1: a fingerprint is 64 lower-case hexadecimal digits for a non-empty
    value and the empty string for the empty one; in particular it is empty
    only for the empty value. *)
Theorem fingerprint_shape (value : string) :
  String.length (fingerprint value) = (if nonEmpty value then 64 else 0)%nat
  /\ allChars isLowerHex (fingerprint value) = true
  /\ (fingerprint value = "" <-> value = "").
Proof.
  unfold fingerprint, nonEmpty.
  destruct (String.eqb_spec value "") as [->|Hne]; cbn [negb].
  - repeat split; reflexivity.
  - split; [rewrite EncodeToString_length, Sum256_length; reflexivity|].
    split; [apply EncodeToString_hex, Sum256_bytes|].
    split; [|contradiction].
    intros H. apply (f_equal String.length) in H.
    rewrite EncodeToString_length, Sum256_length in H. discriminate H.
Qed.

(** X2: the credential label is one of auth id, source, provider, "api-key"
    and "unknown": the API key field is never copied into it, and the label
    depends on that field only through whether it is empty (a source that
    happens to hold the key is copied as any source is).  The credential
    fingerprint is the fingerprint of the label, except for a record with a
    raw key and neither auth id nor source, whose fingerprint is the one of
    the key while its label is the provider (or "api-key"). *)
Theorem label_and_fingerprint (record : coreusage.Record_) :
  In (credentialLabel record)
     [coreusage.AuthID record; coreusage.Source record; coreusage.Provider record;
      "api-key"; "unknown"]
  /\ (forall key,
        nonEmpty key = nonEmpty (coreusage.APIKey record) ->
        credentialLabel (withAPIKey record key) = credentialLabel record)
  /\ credentialFingerprint record =
       fingerprint
         (if negb (nonEmpty (coreusage.AuthID record))
             && negb (nonEmpty (coreusage.Source record))
             && nonEmpty (coreusage.APIKey record)
          then coreusage.APIKey record
          else credentialLabel record).
Proof.
  split; [|split].
  - unfold credentialLabel.
    destruct (nonEmpty (coreusage.AuthID record)); [cbn; auto|].
    destruct (nonEmpty (coreusage.Source record)); [cbn; auto|].
    destruct (nonEmpty (coreusage.Provider record)); [cbn; auto|].
    destruct (nonEmpty (coreusage.APIKey record)); cbn; auto 8.
  - intros key Hkey. unfold credentialLabel, withAPIKey.
    cbn [coreusage.AuthID coreusage.Source coreusage.Provider coreusage.APIKey].
    rewrite Hkey. reflexivity.
  - unfold credentialLabel, credentialFingerprint.
    destruct (nonEmpty (coreusage.AuthID record)); [reflexivity|].
    destruct (nonEmpty (coreusage.Source record)); [reflexivity|].
    destruct (nonEmpty (coreusage.APIKey record)), (nonEmpty (coreusage.Provider record));
      reflexivity.
Qed.

(** ** Contexts and status codes *)

(** X3: the status code a usage record is stored with and the one it is
    exported with both come from the response writer of the gin context,
    and the record is marked rate limited exactly when that status is 429;
    for a context without a gin context the store records 0 where the
    exporter reports 200. *)
Theorem status_code_of_context (normaliseDetail : coreusage.Detail -> TokenStats)
    (ctx : context.Context) (record : coreusage.Record_) (now : time.Time)
    (rec : dbRecord) (event : OTLPPlugin.OTLPEvent) :
  databasePlugin.dbRecordOf normaliseDetail ctx record now = Returns rec ->
  OTLPPlugin.convertRecordToEvent ctx record = Returns event ->
  RateLimited rec = (StatusCode rec =? 429)
  /\ match ctx with
     | context.Ctx (context.Gin g) =>
         gin.Writer g = Some (StatusCode rec)
         /\ OTLPPlugin.StatusCode event = StatusCode rec
     | _ => StatusCode rec = 0 /\ OTLPPlugin.StatusCode event = 200
     end.
Proof.
  unfold databasePlugin.dbRecordOf, OTLPPlugin.convertRecordToEvent, resolveStatusCode.
  destruct ctx as [|[| |g]]; try discriminate.
  - intros [= <-] [= <-]. cbn. auto.
  - intros [= <-] [= <-]. cbn. auto.
  - destruct (gin.Writer g) as [status|]; [|discriminate].
    intros [= <-] [= <-]. cbn. auto.
Qed.

(** X4: the two plugins fail on different contexts.  On the nil context the
    store's record is built, with status 0, while an enabled exporter
    panics; on a gin context whose writer is nil the exporter builds its
    event, with status 200, while the store's [HandleUsage] panics before
    anything is queued. *)
Theorem nil_context_and_nil_writer (normaliseDetail : coreusage.Detail -> TokenStats)
    (p : OTLPPlugin.t) (store : usageStore.t) (record : coreusage.Record_)
    (now : time.Time) (pick : selected) (a : OTLPPlugin.sendAnswer)
    (keys : list (string * gin.any)) :
  let noWriter := context.Ctx (context.Gin {| gin.Keys := keys; gin.Writer := None |}) in
  (exists rec, databasePlugin.dbRecordOf normaliseDetail context.Nil record now = Returns rec
               /\ StatusCode rec = 0 /\ RateLimited rec = false)
  /\ OTLPPlugin.HandleUsage (OTLPPlugin.SetEnabled p true) context.Nil record a
     = Panics "runtime error: invalid memory address or nil pointer dereference"
  /\ databasePlugin.handleOn normaliseDetail store noWriter record now pick
     = Panics "runtime error: invalid memory address or nil pointer dereference"
  /\ (exists event, OTLPPlugin.convertRecordToEvent noWriter record = Returns event
                    /\ OTLPPlugin.StatusCode event = 200).
Proof.
  cbn zeta. split; [eexists; repeat split|].
  split; [reflexivity|]. split; [reflexivity|].
  eexists. split; reflexivity.
Qed.

(** A record with a gin context whose writer reports 429. *)
Lemma status_code_of_context_witness :
  exists rec event,
    databasePlugin.dbRecordOf copyDetail (respondedWith 429) (claudeRecord true 0) 0
    = Returns rec
    /\ OTLPPlugin.convertRecordToEvent (respondedWith 429) (claudeRecord true 0)
       = Returns event
    /\ RateLimited rec = true
    /\ OTLPPlugin.StatusCode event = 429.
Proof.
  eexists. eexists.
  assert (H1 : databasePlugin.dbRecordOf copyDetail (respondedWith 429) (claudeRecord true 0) 0
               = Returns _) by reflexivity.
  assert (H2 : OTLPPlugin.convertRecordToEvent (respondedWith 429) (claudeRecord true 0)
               = Returns _) by reflexivity.
  split; [exact H1|]. split; [exact H2|].
  pose proof (status_code_of_context copyDetail _ _ _ _ _ H1 H2) as [Hrate [_ Hev]].
  split; [exact Hrate|exact Hev].
Defined.

(** ** The queue *)

Lemma step_queue_bound (normaliseDetail : coreusage.Detail -> TokenStats)
    (s : usageStore.t) (e : databasePlugin.event) :
  (length (usageStore.queue s) <= usageStore.queueCapacity)%nat ->
  (length (usageStore.queue (fst (databasePlugin.step normaliseDetail s e)))
   <= usageStore.queueCapacity)%nat.
Proof.
  intros Hlen. destruct e as [ctx record now pick|a|now a|]; cbn [databasePlugin.step].
  - unfold databasePlugin.handleOn.
    destruct (databasePlugin.dbRecordOf normaliseDetail ctx record now) as [rec| |];
      cbn [fst]; try exact Hlen.
    unfold usageStore.enqueue.
    destruct (Nat.ltb_spec (length (usageStore.queue s)) usageStore.queueCapacity) as [Hlt|Hge];
      destruct (usageStore.stop s), pick; cbn; rewrite ?length_app; cbn; lia.
  - unfold usageStore.run. destruct (usageStore.running s); [|exact Hlen].
    destruct (usageStore.queue s) as [|rec rest] eqn:Hq.
    + destruct (usageStore.stop s); cbn; rewrite Hq; cbn; lia.
    + pose proof (insert_frame (usageStore.with_queue s rest) a rec) as (Hq' & _).
      destruct (usageStore.insert (usageStore.with_queue s rest) a rec) as [s' [err|]];
        cbn [fst] in *; rewrite Hq'; cbn in *; lia.
  - cbn [fst]. pose proof (applyRetention_frame s now a) as (Hq' & _). cbn zeta in Hq'.
    rewrite Hq'. exact Hlen.
  - exact Hlen.
Qed.

(** X5: the queue of a store never holds more than 2048 records, whatever
    calls of [HandleUsage], worker rounds, retention passes and closing of
    [stop] the store meets. *)
Theorem queue_never_overflows (normaliseDetail : coreusage.Detail -> TokenStats)
    (s : usageStore.t) (events : list databasePlugin.event) :
  (length (usageStore.queue s) <= 2048)%nat ->
  (length (usageStore.queue (fst (databasePlugin.steps normaliseDetail s events))) <= 2048)%nat.
Proof.
  revert s. induction events as [|e events IH]; intros s Hlen; [exact Hlen|].
  cbn [databasePlugin.steps].
  pose proof (step_queue_bound normaliseDetail s e Hlen) as Hstep.
  destruct (databasePlugin.step normaliseDetail s e) as [s1 done1]. cbn [fst] in Hstep.
  specialize (IH s1 Hstep).
  destruct (databasePlugin.steps normaliseDetail s1 events) as [s2 done2]. exact IH.
Qed.

Lemma queue_never_overflows_witness :
  (length (usageStore.queue (freshStore 14)) <= 2048)%nat
  /\ (length (usageStore.queue (fst (databasePlugin.steps copyDetail (freshStore 14)
                                       claudeEvents))) <= 2048)%nat.
Proof.
  assert (H : (length (usageStore.queue (freshStore 14)) <= 2048)%nat) by (cbn; lia).
  split; [exact H|].
  exact (queue_never_overflows copyDetail (freshStore 14) claudeEvents H).
Defined.

Lemma offered_app (normaliseDetail : coreusage.Detail -> TokenStats)
    (es1 es2 : list databasePlugin.event) :
  offered normaliseDetail (es1 ++ es2)
  = (offered normaliseDetail es1 ++ offered normaliseDetail es2)%list.
Proof.
  induction es1 as [|e es1 IH]; [reflexivity|].
  destruct e as [ctx record now pick|a|now a|]; cbn; try exact IH.
  destruct (databasePlugin.dbRecordOf normaliseDetail ctx record now); cbn; rewrite ?IH;
    reflexivity.
Qed.

Lemma step_in_order (normaliseDetail : coreusage.Detail -> TokenStats)
    (s : usageStore.t) (e : databasePlugin.event) (later : list dbRecord) :
  (snd (databasePlugin.step normaliseDetail s e)
   ++ usageStore.queue (fst (databasePlugin.step normaliseDetail s e)) ++ later)%list
  `sublist_of` (usageStore.queue s ++ offered normaliseDetail [e] ++ later)%list.
Proof.
  destruct e as [ctx record now pick|a|now a|]; cbn [databasePlugin.step offered].
  - unfold databasePlugin.handleOn.
    destruct (databasePlugin.dbRecordOf normaliseDetail ctx record now) as [rec| |];
      cbn [fst snd app]; try reflexivity.
    unfold usageStore.enqueue.
    destruct (_ <? _)%nat, (usageStore.stop s), pick; cbn [fst snd app usageStore.queue
      usageStore.with_queue]; rewrite <- ?app_assoc; cbn [app]; try reflexivity.
    all: apply sublist_app; [reflexivity|apply sublist_cons; reflexivity].
  - unfold usageStore.run. destruct (usageStore.running s); [|reflexivity].
    destruct (usageStore.queue s) as [|rec rest] eqn:Hq.
    + destruct (usageStore.stop s); cbn; rewrite Hq; reflexivity.
    + pose proof (insert_frame (usageStore.with_queue s rest) a rec) as (Hq' & _).
      destruct (usageStore.insert (usageStore.with_queue s rest) a rec) as [s' [err|]];
        cbn [fst snd firstn app] in *; rewrite Hq'; cbn [usageStore.queue
          usageStore.with_queue app].
      * apply sublist_cons. reflexivity.
      * reflexivity.
  - cbn [fst snd app]. pose proof (applyRetention_frame s now a) as (Hq' & _).
    cbn zeta in Hq'. rewrite Hq'. reflexivity.
  - reflexivity.
Qed.

Lemma steps_in_order (normaliseDetail : coreusage.Detail -> TokenStats)
    (s : usageStore.t) (events : list databasePlugin.event) :
  (snd (databasePlugin.steps normaliseDetail s events)
   ++ usageStore.queue (fst (databasePlugin.steps normaliseDetail s events)))%list
  `sublist_of` (usageStore.queue s ++ offered normaliseDetail events)%list.
Proof.
  revert s. induction events as [|e events IH]; intros s.
  - cbn. rewrite app_nil_r. reflexivity.
  - cbn [databasePlugin.steps].
    pose proof (step_in_order normaliseDetail s e (offered normaliseDetail events)) as Hstep.
    destruct (databasePlugin.step normaliseDetail s e) as [s1 done1]. cbn [fst snd] in Hstep.
    specialize (IH s1).
    destruct (databasePlugin.steps normaliseDetail s1 events) as [s2 done2].
    cbn [fst snd] in IH |- *.
    change (e :: events) with ([e] ++ events)%list. rewrite offered_app.
    etransitivity; [|exact Hstep].
    rewrite <- app_assoc. apply sublist_app; [reflexivity|exact IH].
Qed.

(** X6: the records inserted, followed by the records still in the queue,
    appear in the order in which they were queued or offered by
    [HandleUsage], each at most once: the worker inserts in the order of
    arrival, a record whose insert fails or that the queue refuses is gone,
    and none is inserted twice. *)
Theorem inserted_in_order (normaliseDetail : coreusage.Detail -> TokenStats)
    (s : usageStore.t) (events : list databasePlugin.event) :
  (snd (databasePlugin.steps normaliseDetail s events)
   ++ usageStore.queue (fst (databasePlugin.steps normaliseDetail s events)))%list
  `sublist_of` (usageStore.queue s ++ offered normaliseDetail events)%list.
Proof. apply steps_in_order. Qed.

(** ** The fact table *)

(** What an event does to the database: a retention pass apart, nothing, or
    the two writes of the one record inserted. *)
Lemma step_database (normaliseDetail : coreusage.Detail -> TokenStats)
    (s : usageStore.t) (e : databasePlugin.event) :
  let s1 := fst (databasePlugin.step normaliseDetail s e) in
  let done1 := snd (databasePlugin.step normaliseDetail s e) in
  match e with
  | databasePlugin.Retained now a =>
      s1 = usageStore.applyRetention s now a /\ done1 = []
  | _ =>
      (done1 = [] /\ usageStore.db s1 = usageStore.db s)
      \/ (exists rec, done1 = [rec]
                      /\ usageStore.db s1 = upsertDaily rec (insertRequest rec (usageStore.db s)))
  end.
Proof.
  cbn zeta. destruct e as [ctx record now pick|a|now a|]; cbn [databasePlugin.step].
  - left. unfold databasePlugin.handleOn.
    destruct (databasePlugin.dbRecordOf normaliseDetail ctx record now) as [rec| |];
      cbn [fst snd]; auto.
    unfold usageStore.enqueue.
    destruct (_ <? _)%nat, (usageStore.stop s), pick; cbn; auto.
  - unfold usageStore.run. destruct (usageStore.running s); [|left; auto].
    destruct (usageStore.queue s) as [|rec rest] eqn:Hq.
    + left. destruct (usageStore.stop s); cbn; rewrite ?Hq; auto.
    + pose proof (insert_result (usageStore.with_queue s rest) a rec) as Hres.
      destruct (usageStore.insert (usageStore.with_queue s rest) a rec) as [s' [err|]];
        cbn [fst snd firstn] in *.
      * left. rewrite Hres. auto.
      * right. exists rec. destruct Hres as [-> _]. auto.
  - auto.
  - left. auto.
Qed.

Lemma ascending_le (lo : Z) (ids : list Z) (hi : Z) : ascending lo ids hi -> lo <= hi.
Proof.
  revert lo. induction ids as [|i ids IH]; intros lo; cbn; [auto|].
  intros [Hlt H]. apply IH in H. lia.
Qed.

Lemma ascending_weaken (lo lo' : Z) (ids : list Z) (hi : Z) :
  lo' <= lo -> ascending lo ids hi -> ascending lo' ids hi.
Proof. destruct ids; cbn; intros; [lia|intuition lia]. Qed.

Lemma ascending_snoc (lo : Z) (ids : list Z) (hi : Z) :
  ascending lo ids hi -> ascending lo (ids ++ [hi + 1]) (hi + 1).
Proof.
  revert lo. induction ids as [|i ids IH]; intros lo; cbn.
  - intros H. lia.
  - intros [Hlt H]. split; [exact Hlt|apply IH, H].
Qed.

Lemma ascending_filter (f : requestRow -> bool) (lo : Z) (rows : list requestRow) (hi : Z) :
  ascending lo (map req_id rows) hi ->
  ascending lo (map req_id (List.filter f rows)) hi.
Proof.
  revert lo. induction rows as [|r rows IH]; intros lo; cbn; [auto|].
  intros [Hlt H]. destruct (f r); cbn.
  - split; [exact Hlt|apply IH, H].
  - apply IH. eapply ascending_weaken; [|exact H]. lia.
Qed.

Lemma ascending_bounds (lo : Z) (ids : list Z) (hi : Z) :
  ascending lo ids hi -> Forall (fun i => lo < i <= hi) ids.
Proof.
  revert lo. induction ids as [|i ids IH]; intros lo; cbn; [constructor|].
  intros [Hlt H]. constructor.
  - apply ascending_le in H. lia.
  - eapply List.Forall_impl; [|exact (IH i H)]. cbn. intros j Hj. lia.
Qed.

Lemma ascending_NoDup (lo : Z) (ids : list Z) (hi : Z) : ascending lo ids hi -> NoDup ids.
Proof.
  revert lo. induction ids as [|i ids IH]; intros lo; cbn; [constructor|].
  intros [Hlt H]. constructor; [|exact (IH i H)].
  intros Hin. apply ascending_bounds in H.
  rewrite List.Forall_forall in H. apply list_elem_of_In in Hin. specialize (H i Hin). lia.
Qed.

Lemma idsInOrder_writes (rec : dbRecord) (d : database) :
  idsInOrder d -> idsInOrder (upsertDaily rec (insertRequest rec d)).
Proof.
  intros [lo H]. exists lo. cbn. rewrite map_app. cbn. apply ascending_snoc, H.
Qed.

Lemma idsInOrder_retention (s : usageStore.t) (now : time.Time)
    (a : usageStore.retentionAnswers) :
  idsInOrder (usageStore.db s) ->
  idsInOrder (usageStore.db (usageStore.applyRetention s now a)).
Proof.
  intros [lo H]. exists lo. unfold usageStore.applyRetention.
  destruct (usageStore.retentionDays s <=? 0); [exact H|].
  set (cutoff := usageStore.retentionCutoff _ _). set (day := time.FormatDay cutoff).
  destruct (usageStore.dbClosed s); [exact H|].
  destruct a as [[e1|] [e2|]]; cbn [usageStore.deleteRequestsFails
    usageStore.deleteDailyFails usageStore.db usageStore.with_db deleteDailyBefore
    deleteRequestsBefore usage_requests requests_seq]; try exact H;
    apply ascending_filter, H.
Qed.

(** X7: the ids of the fact rows stay pairwise distinct and increasing along
    the table, and none exceeds the largest id handed out, through inserts
    and retention passes alike: an id is never reused, not even after the
    rows that carried the largest ids have been deleted. *)
Theorem fact_ids_in_order (normaliseDetail : coreusage.Detail -> TokenStats)
    (s : usageStore.t) (events : list databasePlugin.event) :
  idsInOrder (usageStore.db s) ->
  let d' := usageStore.db (fst (databasePlugin.steps normaliseDetail s events)) in
  idsInOrder d'
  /\ NoDup (map req_id (usage_requests d'))
  /\ requests_seq (usageStore.db s) <= requests_seq d'.
Proof.
  cbn zeta. intros Hids.
  assert (Hmain : idsInOrder
                    (usageStore.db (fst (databasePlugin.steps normaliseDetail s events)))
                  /\ requests_seq (usageStore.db s)
                     <= requests_seq
                          (usageStore.db (fst (databasePlugin.steps normaliseDetail s events)))).
  { revert s Hids. induction events as [|e events IH]; intros s Hids;
      [cbn [databasePlugin.steps fst]; split; [exact Hids|lia]|].
    cbn [databasePlugin.steps].
    pose proof (step_database normaliseDetail s e) as Hstep. cbn zeta in Hstep.
    destruct (databasePlugin.step normaliseDetail s e) as [s1 done1]. cbn [fst snd] in Hstep.
    assert (H1 : idsInOrder (usageStore.db s1)
                 /\ requests_seq (usageStore.db s) <= requests_seq (usageStore.db s1)).
    { destruct e as [ctx record now pick|a|now a|].
      - destruct Hstep as [[_ ->]|(rec & _ & ->)];
          [split; [exact Hids|lia]|split; [apply idsInOrder_writes, Hids|cbn; lia]].
      - destruct Hstep as [[_ ->]|(rec & _ & ->)];
          [split; [exact Hids|lia]|split; [apply idsInOrder_writes, Hids|cbn; lia]].
      - destruct Hstep as [-> _]. split; [apply idsInOrder_retention, Hids|].
        unfold usageStore.applyRetention.
        destruct (usageStore.retentionDays s <=? 0); [lia|].
        destruct (usageStore.dbClosed s), a as [[e1|] [e2|]]; cbn; lia.
      - destruct Hstep as [[_ ->]|(rec & _ & ->)];
          [split; [exact Hids|lia]|split; [apply idsInOrder_writes, Hids|cbn; lia]]. }
    destruct H1 as [Hids1 Hseq1]. specialize (IH s1 Hids1).
    destruct (databasePlugin.steps normaliseDetail s1 events) as [s2 done2].
    cbn [fst] in IH |- *. destruct IH as [IH1 IH2]. split; [exact IH1|lia]. }
  destruct Hmain as [[lo Hasc] Hseq].
  split; [exists lo; exact Hasc|]. split; [exact (ascending_NoDup _ _ _ Hasc)|exact Hseq].
Qed.

Lemma fact_ids_in_order_witness :
  idsInOrder (usageStore.db (freshStore 14))
  /\ NoDup (map req_id (usage_requests
       (usageStore.db (fst (databasePlugin.steps copyDetail (freshStore 14) claudeEvents))))).
Proof.
  assert (H : idsInOrder (usageStore.db (freshStore 14))) by (exists 0; cbn; lia).
  split; [exact H|].
  exact (proj1 (proj2 (fact_ids_in_order copyDetail (freshStore 14) claudeEvents H))).
Defined.

Lemma numbered_app (seq : Z) (recs1 recs2 : list dbRecord) :
  numbered seq (recs1 ++ recs2)
  = (numbered seq recs1 ++ numbered (seq + Z.of_nat (length recs1)) recs2)%list.
Proof.
  revert seq. induction recs1 as [|rec recs1 IH]; intros seq.
  - cbn. rewrite Z.add_0_r. reflexivity.
  - cbn [app numbered length]. rewrite IH. do 3 f_equal. lia.
Qed.

(** X8: without a retention pass in between, the fact table gains exactly
    one row for each record inserted, in the order of the inserts: the rows
    of the records, with all their columns, numbered on from the largest id
    handed out; the earlier rows stay as they were. *)
Theorem fact_rows_appended (normaliseDetail : coreusage.Detail -> TokenStats)
    (s : usageStore.t) (events : list databasePlugin.event) :
  forallb (fun e => negb (isRetained e)) events = true ->
  let d := usageStore.db s in
  let d' := usageStore.db (fst (databasePlugin.steps normaliseDetail s events)) in
  let inserted := snd (databasePlugin.steps normaliseDetail s events) in
  usage_requests d' = (usage_requests d ++ numbered (requests_seq d) inserted)%list
  /\ requests_seq d' = requests_seq d + Z.of_nat (length inserted).
Proof.
  cbn zeta. revert s. induction events as [|e events IH]; intros s Hno.
  - cbn. rewrite app_nil_r. split; [reflexivity|lia].
  - cbn in Hno. apply andb_prop in Hno as [He Hno]. cbn [databasePlugin.steps].
    pose proof (step_database normaliseDetail s e) as Hstep. cbn zeta in Hstep.
    destruct (databasePlugin.step normaliseDetail s e) as [s1 done1]. cbn [fst snd] in Hstep.
    specialize (IH s1 Hno).
    destruct (databasePlugin.steps normaliseDetail s1 events) as [s2 done2].
    cbn [fst snd] in IH |- *. destruct IH as [IHrows IHseq].
    assert (Hcases : (done1 = [] /\ usageStore.db s1 = usageStore.db s)
                     \/ (exists rec, done1 = [rec]
                           /\ usageStore.db s1
                              = upsertDaily rec (insertRequest rec (usageStore.db s)))).
    { destruct e; try exact Hstep. discriminate He. }
    destruct Hcases as [[-> Hdb]|(rec & -> & Hdb)]; rewrite Hdb in IHrows, IHseq.
    + cbn [app]. split; assumption.
    + rewrite IHrows, IHseq. cbn [usage_requests requests_seq upsertDaily insertRequest
        app length numbered].
      rewrite <- app_assoc. split; [reflexivity|lia].
Qed.

Lemma fact_rows_appended_witness :
  let events := [databasePlugin.Handled (respondedWith 429) (claudeRecord true 0) 0 FirstCase;
                 databasePlugin.Worked sql.allSucceed] in
  forallb (fun e => negb (isRetained e)) events = true
  /\ length (usage_requests
               (usageStore.db (fst (databasePlugin.steps copyDetail (freshStore 14) events))))
     = 1%nat.
Proof.
  cbn zeta.
  assert (H : forallb (fun e => negb (isRetained e))
                [databasePlugin.Handled (respondedWith 429) (claudeRecord true 0) 0 FirstCase;
                 databasePlugin.Worked sql.allSucceed] = true) by reflexivity.
  split; [exact H|].
  rewrite (proj1 (fact_rows_appended copyDetail (freshStore 14) _ H)). reflexivity.
Defined.

(** ** The token columns and the label of the daily row *)

Lemma sumOf_snoc (f : dbRecord -> Z) (xs : list dbRecord) (rec : dbRecord) :
  sumOf f (xs ++ [rec]) = sumOf f xs + f rec.
Proof.
  unfold sumOf. rewrite map_app, fold_right_app. cbn.
  generalize (f rec) as x. intros x.
  induction (map f xs) as [|y ys IH]; cbn; lia.
Qed.

Lemma sumsFit_last (f : dbRecord -> Z) (xs : list dbRecord) (rec : dbRecord) :
  sumsFit 0 (map f (xs ++ [rec])) = true -> time.in_int64 (sumOf f xs + f rec) = true.
Proof.
  rewrite map_app, sumsFit_app. intros H. apply andb_prop in H as [_ H].
  cbn in H. rewrite andb_true_r in H. exact H.
Qed.

Lemma tokensFit_prefix (xs ys : list dbRecord) : tokensFit (xs ++ ys) -> tokensFit xs.
Proof.
  intros [H1 H2]. rewrite map_app, sumsFit_app in H1, H2.
  apply andb_prop in H1 as [H1 _]. apply andb_prop in H2 as [H2 _]. split; assumption.
Qed.

(** One more record under the key, with a label: the row the upsert writes
    adds its two token counts and takes its label. *)
Lemma tokenSummary_snoc (hits : list dbRecord) (old : option dailyRow) (rec : dbRecord) :
  tokenSummary hits old -> CredentialLabel rec <> "" -> tokensFit (hits ++ [rec]) ->
  tokenSummary (hits ++ [rec])
    (Some match old with
          | None => excludedRow rec
          | Some row => mergeDaily row (excludedRow rec)
          end).
Proof.
  intros Hsum Hlabel [Hin Hout].
  apply sumsFit_last in Hin. apply sumsFit_last in Hout.
  destruct old as [row|]; cbn [tokenSummary] in Hsum |- *.
  - destruct Hsum as (Hp & Hc & _).
    rewrite mergeDaily_label by exact Hlabel. rewrite last_snoc, !sumOf_snoc.
    cbn [mergeDaily prompt_tokens completion_tokens excludedRow]. rewrite Hp, Hc.
    unfold sql_add. rewrite Hin, Hout. auto.
  - subst hits. cbn [app] in *. unfold sumOf in *. cbn in *.
    rewrite !Z.add_0_r. auto.
Qed.

Lemma step_retentionDays (normaliseDetail : coreusage.Detail -> TokenStats)
    (s : usageStore.t) (e : databasePlugin.event) :
  usageStore.retentionDays (fst (databasePlugin.step normaliseDetail s e))
  = usageStore.retentionDays s.
Proof.
  destruct e as [ctx record now pick|a|now a|]; cbn [databasePlugin.step].
  - unfold databasePlugin.handleOn.
    destruct (databasePlugin.dbRecordOf normaliseDetail ctx record now) as [rec| |];
      cbn [fst]; try reflexivity.
    unfold usageStore.enqueue.
    destruct (_ <? _)%nat, (usageStore.stop s), pick; reflexivity.
  - unfold usageStore.run. destruct (usageStore.running s); [|reflexivity].
    destruct (usageStore.queue s) as [|rec rest].
    + destruct (usageStore.stop s); reflexivity.
    + pose proof (insert_frame (usageStore.with_queue s rest) a rec) as (_ & _ & _ & _ & H).
      destruct (usageStore.insert (usageStore.with_queue s rest) a rec) as [s' [err|]];
        exact H.
  - cbn [fst]. apply applyRetention_frame.
  - reflexivity.
Qed.

(** A property of the records [HandleUsage] builds holds of the records
    queued and of the records inserted, once it holds of the queue. *)
Lemma step_records (normaliseDetail : coreusage.Detail -> TokenStats) (P : dbRecord -> Prop)
    (s : usageStore.t) (e : databasePlugin.event) :
  (forall ctx record now rec,
     databasePlugin.dbRecordOf normaliseDetail ctx record now = Returns rec -> P rec) ->
  Forall P (usageStore.queue s) ->
  Forall P (usageStore.queue (fst (databasePlugin.step normaliseDetail s e)))
  /\ Forall P (snd (databasePlugin.step normaliseDetail s e)).
Proof.
  intros Hbuilt Hq.
  destruct e as [ctx record now pick|a|now a|]; cbn [databasePlugin.step].
  - unfold databasePlugin.handleOn.
    destruct (databasePlugin.dbRecordOf normaliseDetail ctx record now) as [rec| |] eqn:Hrec;
      cbn [fst snd]; try (split; [exact Hq|constructor]).
    apply Hbuilt in Hrec.
    assert (Hmore : Forall P (usageStore.queue s ++ [rec])).
    { apply Forall_app. split; [exact Hq|]. constructor; [exact Hrec|constructor]. }
    unfold usageStore.enqueue.
    destruct (_ <? _)%nat, (usageStore.stop s), pick; cbn [fst snd];
      (split; [first [exact Hmore|exact Hq]|constructor]).
  - unfold usageStore.run. destruct (usageStore.running s); [|split; [exact Hq|constructor]].
    destruct (usageStore.queue s) as [|rec rest] eqn:Hqueue.
    + destruct (usageStore.stop s); cbn; rewrite ?Hqueue; split; constructor.
    + inversion Hq as [|? ? Hrec Hrest]; subst.
      pose proof (insert_frame (usageStore.with_queue s rest) a rec) as (Hq1 & _).
      destruct (usageStore.insert (usageStore.with_queue s rest) a rec) as [s' [err|]];
        cbn [fst snd firstn] in Hq1 |- *; rewrite Hq1; cbn.
      * split; [exact Hrest|constructor].
      * split; [exact Hrest|]. constructor; [exact Hrec|constructor].
  - cbn [fst snd]. pose proof (applyRetention_frame s now a) as (Hq1 & _).
    cbn zeta in Hq1. rewrite Hq1. split; [exact Hq|constructor].
  - split; [exact Hq|constructor].
Qed.

Lemma step_tokenSummary (normaliseDetail : coreusage.Detail -> TokenStats)
    (s : usageStore.t) (e : databasePlugin.event) (k : dailyKey) (past : list dbRecord) :
  let s' := fst (databasePlugin.step normaliseDetail s e) in
  let inserted := snd (databasePlugin.step normaliseDetail s e) in
  labelledRecords (usageStore.queue s) ->
  tokenSummary past (usage_daily (usageStore.db s) !! k) ->
  spares (usageStore.retentionDays s) k e = true ->
  tokensFit (past ++ sharing k inserted) ->
  labelledRecords (usageStore.queue s')
  /\ tokenSummary (past ++ sharing k inserted) (usage_daily (usageStore.db s') !! k).
Proof.
  cbn zeta. intros Hq Hsum Hspares.
  assert (Hbuilt : forall ctx record now rec,
            databasePlugin.dbRecordOf normaliseDetail ctx record now = Returns rec ->
            CredentialLabel rec <> "").
  { intros ctx record now rec Hrec. rewrite (dbRecordOf_label _ _ _ _ _ Hrec).
    apply credentialLabel_nonempty. }
  destruct (step_records normaliseDetail _ s e Hbuilt Hq) as [Hq1 Hdone].
  pose proof (step_database normaliseDetail s e) as Hstep. cbn zeta in Hstep.
  destruct (databasePlugin.step normaliseDetail s e) as [s1 done1]. cbn [fst snd] in *.
  intros Hfit. split; [exact Hq1|]. revert Hfit.
  assert (Hcases : (done1 = [] /\ usage_daily (usageStore.db s1) !! k
                                  = usage_daily (usageStore.db s) !! k)
                   \/ (exists rec, done1 = [rec]
                           /\ usageStore.db s1
                              = upsertDaily rec (insertRequest rec (usageStore.db s)))).
  { destruct e as [ctx record now pick|a|now a|].
    - destruct Hstep as [[-> ->]|Hone]; [left; auto|right; exact Hone].
    - destruct Hstep as [[-> ->]|Hone]; [left; auto|right; exact Hone].
    - destruct Hstep as [-> ->]. left. split; [reflexivity|].
      apply applyRetention_spares, Hspares.
    - destruct Hstep as [[-> ->]|Hone]; [left; auto|right; exact Hone]. }
  destruct Hcases as [[-> Hsame]|(rec & -> & Hdb)].
  - intros _. cbn. rewrite app_nil_r, Hsame. exact Hsum.
  - rewrite Hdb, upsert_lookup, sharing_one.
    inversion Hdone as [|? ? Hlabel _]; subst.
    destruct (decide (dailyKeyOf rec = k)).
    + intros Hfit. apply tokenSummary_snoc; assumption.
    + intros _. rewrite app_nil_r. exact Hsum.
Qed.

(** X9: the two token columns and the label of a daily row.  Take a store
    whose queued records carry a label and whose daily row of a key holds
    the sums of the input and of the output token counts of the records of
    that key inserted in the past, and the label of the last of them.
    After any calls of [HandleUsage], rounds of the worker, closing of
    [stop] and retention passes that spare the row, prompt_tokens is the sum
    of the input token counts of those records and of the ones of that key
    inserted since, completion_tokens the sum of their output token counts,
    and credential_label the label of the record inserted last: the last
    writer's label wins.  The sums are taken to fit in 64 bits. *)
Theorem daily_row_tokens_and_label (normaliseDetail : coreusage.Detail -> TokenStats)
    (s : usageStore.t) (events : list databasePlugin.event)
    (k : dailyKey) (past : list dbRecord) :
  let s' := fst (databasePlugin.steps normaliseDetail s events) in
  let inserted := snd (databasePlugin.steps normaliseDetail s events) in
  labelledRecords (usageStore.queue s) ->
  tokenSummary past (usage_daily (usageStore.db s) !! k) ->
  forallb (spares (usageStore.retentionDays s) k) events = true ->
  tokensFit (past ++ sharing k inserted) ->
  tokenSummary (past ++ sharing k inserted) (usage_daily (usageStore.db s') !! k).
Proof.
  cbn zeta. revert s past.
  induction events as [|e events IH]; intros s past Hq Hsum Hspares; cbn.
  - rewrite app_nil_r. intros _. exact Hsum.
  - cbn in Hspares. apply andb_prop in Hspares as [Hspare Hspares].
    pose proof (step_tokenSummary normaliseDetail s e k past) as Hstep. cbn zeta in Hstep.
    pose proof (step_retentionDays normaliseDetail s e) as Hr1.
    destruct (databasePlugin.step normaliseDetail s e) as [s1 done1].
    cbn [fst snd] in Hstep, Hr1.
    specialize (IH s1 (past ++ sharing k done1)%list).
    destruct (databasePlugin.steps normaliseDetail s1 events) as [s2 done2].
    cbn [fst snd] in IH |- *.
    assert (Hshare : sharing k (done1 ++ done2) = (sharing k done1 ++ sharing k done2)%list)
      by apply List.filter_app.
    rewrite Hshare, app_assoc. intros Hfit.
    destruct (Hstep Hq Hsum Hspare (tokensFit_prefix _ _ Hfit)) as (Hq1 & Hsum1).
    apply IH; [exact Hq1|exact Hsum1|rewrite Hr1; exact Hspares|exact Hfit].
Qed.

Lemma daily_row_tokens_and_label_witness :
  let run := databasePlugin.steps copyDetail (freshStore 14) claudeEvents in
  labelledRecords (usageStore.queue (freshStore 14))
  /\ tokenSummary [] (usage_daily (usageStore.db (freshStore 14)) !! claudeKey)
  /\ forallb (spares (usageStore.retentionDays (freshStore 14)) claudeKey) claudeEvents = true
  /\ tokensFit ([] ++ sharing claudeKey (snd run))
  /\ tokenSummary ([] ++ sharing claudeKey (snd run))
       (usage_daily (usageStore.db (fst run)) !! claudeKey).
Proof.
  cbn zeta.
  assert (H1 : labelledRecords (usageStore.queue (freshStore 14))) by constructor.
  assert (H2 : tokenSummary [] (usage_daily (usageStore.db (freshStore 14)) !! claudeKey))
    by reflexivity.
  assert (H3 : forallb (spares (usageStore.retentionDays (freshStore 14)) claudeKey)
                 claudeEvents = true) by (vm_compute; reflexivity).
  assert (H4 : tokensFit
                 ([] ++ sharing claudeKey
                          (snd (databasePlugin.steps copyDetail (freshStore 14) claudeEvents)))).
  { split; vm_compute; reflexivity. }
  split; [exact H1|]. split; [exact H2|]. split; [exact H3|]. split; [exact H4|].
  exact (daily_row_tokens_and_label copyDetail (freshStore 14) claudeEvents claudeKey []
           H1 H2 H3 H4).
Defined.

(** ** The worker *)

Lemma steps_app (normaliseDetail : coreusage.Detail -> TokenStats)
    (s : usageStore.t) (es1 es2 : list databasePlugin.event) :
  databasePlugin.steps normaliseDetail s (es1 ++ es2)
  = let '(s1, done1) := databasePlugin.steps normaliseDetail s es1 in
    let '(s2, done2) := databasePlugin.steps normaliseDetail s1 es2 in
    (s2, (done1 ++ done2)%list).
Proof.
  revert s. induction es1 as [|e es1 IH]; intros s.
  - cbn. destruct (databasePlugin.steps normaliseDetail s es2). reflexivity.
  - cbn [app databasePlugin.steps].
    destruct (databasePlugin.step normaliseDetail s e) as [s1 done1]. rewrite IH.
    destruct (databasePlugin.steps normaliseDetail s1 es1) as [s2 done2].
    destruct (databasePlugin.steps normaliseDetail s2 es2) as [s3 done3].
    rewrite app_assoc. reflexivity.
Qed.

Lemma worker_rounds (normaliseDetail : coreusage.Detail -> TokenStats)
    (recs : list dbRecord) (s : usageStore.t) :
  usageStore.queue s = recs ->
  usageStore.running s = true ->
  usageStore.dbClosed s = false ->
  databasePlugin.steps normaliseDetail s
    (repeat (databasePlugin.Worked sql.allSucceed) (length recs))
  = (usageStore.with_db (usageStore.with_queue s []) (written recs (usageStore.db s)), recs).
Proof.
  revert s. induction recs as [|rec rest IH]; intros s Hq Hrun Hopen.
  - cbn. f_equal. destruct s; cbn in *; subst; reflexivity.
  - cbn [length repeat databasePlugin.steps databasePlugin.step]. unfold usageStore.run.
    rewrite Hrun, Hq, insert_commits by exact Hopen.
    cbn [firstn]. rewrite IH by (try reflexivity; assumption).
    cbn. reflexivity.
Qed.

(** X10: no record is lost in the queue.  On a store whose worker has not
    returned and whose database is open, as many rounds of the worker as the
    queue holds records, each insert accepted by the engine, empty the queue
    and insert every record, oldest first, whether [stop] has been closed or
    not (the loop of [run] before, the loop of [drainRemaining] after); one
    more round then finds the queue empty and inserts nothing, and the
    worker returns exactly when [stop] is closed. *)
Theorem worker_empties_queue (normaliseDetail : coreusage.Detail -> TokenStats)
    (s : usageStore.t) :
  usageStore.running s = true ->
  usageStore.dbClosed s = false ->
  let work := databasePlugin.Worked sql.allSucceed in
  let r := databasePlugin.steps normaliseDetail s
             (repeat work (length (usageStore.queue s))) in
  snd r = usageStore.queue s
  /\ usageStore.queue (fst r) = []
  /\ usageStore.db (fst r) = written (usageStore.queue s) (usageStore.db s)
  /\ databasePlugin.step normaliseDetail (fst r) work
     = (if usageStore.stop s then usageStore.returned (fst r) else fst r, []).
Proof.
  cbn zeta. intros Hrun Hopen.
  rewrite (worker_rounds normaliseDetail (usageStore.queue s) s eq_refl Hrun Hopen).
  cbn [fst snd]. split; [reflexivity|]. split; [reflexivity|]. split; [reflexivity|].
  cbn [databasePlugin.step]. unfold usageStore.run. cbn. rewrite Hrun.
  destruct (usageStore.stop s); reflexivity.
Qed.

Lemma worker_empties_queue_witness :
  let run := databasePlugin.steps copyDetail busyStore
               (repeat (databasePlugin.Worked sql.allSucceed)
                  (length (usageStore.queue busyStore))) in
  usageStore.running busyStore = true
  /\ usageStore.dbClosed busyStore = false
  /\ snd run = [qwenRecord; limitedRecord]
  /\ usageStore.queue (fst run) = []
  /\ map req_id (usage_requests (usageStore.db (fst run))) = [1; 2; 3].
Proof.
  cbn zeta.
  assert (H1 : usageStore.running busyStore = true) by reflexivity.
  assert (H2 : usageStore.dbClosed busyStore = false) by reflexivity.
  split; [exact H1|]. split; [exact H2|].
  destruct (worker_empties_queue copyDetail busyStore H1 H2) as (Hdone & Hq & Hdb & _).
  split; [exact Hdone|]. split; [exact Hq|]. rewrite Hdb. reflexivity.
Defined.

(** ** After [close] *)

Lemma drain_frame (recs : list dbRecord) (s : usageStore.t) (answers : nat -> sql.answers) :
  let s' := usageStore.drain s recs answers in
  usageStore.queue s' = usageStore.queue s
  /\ usageStore.stop s' = usageStore.stop s
  /\ usageStore.running s' = usageStore.running s
  /\ usageStore.dbClosed s' = usageStore.dbClosed s
  /\ usageStore.retentionDays s' = usageStore.retentionDays s.
Proof.
  cbn zeta. revert s answers. induction recs as [|rec rest IH]; intros s answers.
  - cbn. auto 6.
  - cbn [usageStore.drain].
    destruct (IH (fst (usageStore.insert s (answers O) rec)) (fun n => answers (S n)))
      as (H1 & H2 & H3 & H4 & H5).
    destruct (insert_frame s (answers O) rec) as (G1 & G2 & G3 & G4 & G5).
    rewrite H1, H2, H3, H4, H5. auto 6.
Qed.

(** Behind a closed handle nothing is written: every insert fails and every
    statement of a retention pass fails. *)
Lemma step_closed (normaliseDetail : coreusage.Detail -> TokenStats)
    (s : usageStore.t) (e : databasePlugin.event) :
  usageStore.dbClosed s = true ->
  usageStore.dbClosed (fst (databasePlugin.step normaliseDetail s e)) = true
  /\ usageStore.db (fst (databasePlugin.step normaliseDetail s e)) = usageStore.db s
  /\ snd (databasePlugin.step normaliseDetail s e) = [].
Proof.
  intros Hclosed. destruct e as [ctx record now pick|a|now a|]; cbn [databasePlugin.step].
  - unfold databasePlugin.handleOn.
    destruct (databasePlugin.dbRecordOf normaliseDetail ctx record now) as [rec| |];
      cbn [fst snd]; auto.
    unfold usageStore.enqueue.
    destruct (_ <? _)%nat, (usageStore.stop s), pick; cbn; auto.
  - unfold usageStore.run. destruct (usageStore.running s); [|cbn; auto].
    destruct (usageStore.queue s) as [|rec rest].
    + destruct (usageStore.stop s); cbn; auto.
    + unfold usageStore.insert. cbn. rewrite Hclosed. cbn. auto.
  - cbn [fst snd]. unfold usageStore.applyRetention.
    destruct (usageStore.retentionDays s <=? 0); [auto|].
    rewrite Hclosed. cbn. auto.
  - cbn. auto.
Qed.

Lemma steps_closed (normaliseDetail : coreusage.Detail -> TokenStats)
    (events : list databasePlugin.event) (s : usageStore.t) :
  usageStore.dbClosed s = true ->
  usageStore.db (fst (databasePlugin.steps normaliseDetail s events)) = usageStore.db s
  /\ snd (databasePlugin.steps normaliseDetail s events) = [].
Proof.
  revert s. induction events as [|e events IH]; intros s Hclosed; [cbn; auto|].
  cbn [databasePlugin.steps].
  destruct (step_closed normaliseDetail s e Hclosed) as (H1 & H2 & H3).
  destruct (databasePlugin.step normaliseDetail s e) as [s1 done1]. cbn [fst snd] in *.
  destruct (IH s1 H1) as [G1 G2].
  destruct (databasePlugin.steps normaliseDetail s1 events) as [s2 done2]. cbn [fst snd] in *.
  subst. rewrite G1, H2. auto.
Qed.

(** [close] on a store whose [stop] is open. *)
Lemma close_fields (s : usageStore.t) (c : usageStore.closing) :
  usageStore.stop s = false ->
  exists s',
    usageStore.close s c = Returns s'
    /\ usageStore.stop s' = true
    /\ usageStore.running s' = false
    /\ usageStore.dbClosed s' = true
    /\ usageStore.queue s' = []
    /\ usageStore.retentionDays s' = usageStore.retentionDays s.
Proof.
  intros Hstop. unfold usageStore.close. rewrite Hstop.
  eexists. split; [reflexivity|].
  set (s2 := if usageStore.retentionFirst c then _ else _).
  assert (Hs2 : usageStore.queue s2 = [] /\ usageStore.stop s2 = true
                /\ usageStore.running s2 = false
                /\ usageStore.retentionDays s2 = usageStore.retentionDays s).
  { subst s2. destruct (usageStore.retentionFirst c).
    - unfold usageStore.drainRemaining. cbn [usageStore.returned usageStore.queue
        usageStore.stop usageStore.running usageStore.retentionDays].
      match goal with |- context [usageStore.drain ?x ?r ?f] =>
        destruct (drain_frame r x f) as (H1 & H2 & _ & _ & H5) end.
      destruct (applyRetention_frame (usageStore.stopped s) (usageStore.closeTime c)
                  (usageStore.lastRetention c)) as (_ & G2 & _ & _ & G5).
      cbn zeta in *. rewrite H1, H2, H5. cbn [usageStore.with_queue usageStore.queue
        usageStore.stop usageStore.retentionDays]. rewrite G2, G5. cbn. auto.
    - match goal with |- context [usageStore.applyRetention ?x ?n ?a] =>
        destruct (applyRetention_frame x n a) as (G1 & G2 & G3 & _ & G5) end.
      cbn zeta in *. rewrite G1, G2, G3, G5.
      unfold usageStore.drainRemaining. cbn [usageStore.returned usageStore.queue
        usageStore.stop usageStore.running usageStore.retentionDays].
      match goal with |- context [usageStore.drain ?x ?r ?f] =>
        destruct (drain_frame r x f) as (H1 & H2 & _ & _ & H5) end.
      cbn zeta in *. rewrite H1, H2, H5. cbn. auto. }
  destruct Hs2 as (Hq & Hst & Hrun & Hret). clearbody s2.
  cbn [usageStore.with_db_closed usageStore.stop usageStore.running usageStore.dbClosed
       usageStore.queue usageStore.retentionDays].
  auto 6.
Qed.

(** X11: [close] on a store whose [stop] is open returns, whatever the
    engine answers during the drain and the last retention pass, and leaves
    the store stopped, its worker returned, its queue empty and its handle
    closed.  A second [close] panics, on the closed channel.  From then on
    the database never changes: whatever calls of [HandleUsage], rounds of
    the worker and retention passes still reach the store, no record is
    inserted and no row is written or deleted. *)
Theorem closed_store_never_changes (s : usageStore.t) (c : usageStore.closing) :
  usageStore.stop s = false ->
  exists s',
    usageStore.close s c = Returns s'
    /\ usageStore.stop s' = true
    /\ usageStore.running s' = false
    /\ usageStore.dbClosed s' = true
    /\ usageStore.queue s' = []
    /\ usageStore.retentionDays s' = usageStore.retentionDays s
    /\ (forall c', usageStore.close s' c' = Panics "close of closed channel")
    /\ (forall normaliseDetail events,
          usageStore.db (fst (databasePlugin.steps normaliseDetail s' events)) = usageStore.db s'
          /\ snd (databasePlugin.steps normaliseDetail s' events) = []).
Proof.
  intros Hstop.
  destruct (close_fields s c Hstop) as (s' & Hclose & Hst & Hrun & Hclosed & Hq & Hret).
  exists s'. split; [exact Hclose|]. split; [exact Hst|]. split; [exact Hrun|].
  split; [exact Hclosed|]. split; [exact Hq|]. split; [exact Hret|]. split.
  - intros c'. unfold usageStore.close. rewrite Hst. reflexivity.
  - intros normaliseDetail events. apply steps_closed, Hclosed.
Qed.

Lemma closed_store_never_changes_witness :
  usageStore.stop qwenStore = false
  /\ exists s', usageStore.close qwenStore quietClosing = Returns s'
                /\ usageStore.dbClosed s' = true.
Proof.
  assert (H : usageStore.stop qwenStore = false) by reflexivity.
  split; [exact H|].
  destruct (closed_store_never_changes qwenStore quietClosing H)
    as (s' & Hclose & _ & _ & Hclosed & _).
  exists s'. split; [exact Hclose|exact Hclosed].
Defined.

(** ** The horizon of a retention pass *)

Lemma wrap64_small (x : Z) : time.min_int64 <= x <= time.max_int64 -> time.wrap64 x = x.
Proof.
  unfold time.min_int64, time.max_int64, time.wrap64.
  change (2 ^ 63) with 9223372036854775808. change (2 ^ 64) with 18446744073709551616.
  intros H. rewrite Z.mod_small by lia. lia.
Qed.

Lemma wrap64_below (x : Z) :
  time.min_int64 - 2 ^ 64 <= x < time.min_int64 -> time.wrap64 x = x + 2 ^ 64.
Proof.
  unfold time.min_int64, time.wrap64.
  change (2 ^ 63) with 9223372036854775808. change (2 ^ 64) with 18446744073709551616.
  intros H.
  rewrite <- (Z.mod_unique (x + 9223372036854775808) 18446744073709551616 (-1)
                (x + 9223372036854775808 + 18446744073709551616)) by lia.
  lia.
Qed.

Lemma retentionCutoff_exact (days : Z) (now : time.Time) :
  0 < days <= longestRetention ->
  usageStore.retentionCutoff days now = now - days * (24 * time.Hour).
Proof.
  unfold longestRetention. intros H. unfold usageStore.retentionCutoff, time.Add.
  rewrite (wrap64_small (- days))
    by (unfold time.min_int64, time.max_int64;
        change (2 ^ 63) with 9223372036854775808; lia).
  rewrite (wrap64_small (- days * 24))
    by (unfold time.min_int64, time.max_int64;
        change (2 ^ 63) with 9223372036854775808; lia).
  unfold time.Hour. change (3600 * 10 ^ 9) with 3600000000000.
  rewrite wrap64_small
    by (unfold time.min_int64, time.max_int64;
        change (2 ^ 63) with 9223372036854775808; lia).
  lia.
Qed.

Lemma retentionCutoff_wraps (days : Z) (now : time.Time) :
  longestRetention < days <= 2 * longestRetention + 1 ->
  usageStore.retentionCutoff days now = now + (2 ^ 64 - days * (24 * time.Hour)).
Proof.
  unfold longestRetention. intros H. unfold usageStore.retentionCutoff, time.Add.
  rewrite (wrap64_small (- days))
    by (unfold time.min_int64, time.max_int64;
        change (2 ^ 63) with 9223372036854775808; lia).
  rewrite (wrap64_small (- days * 24))
    by (unfold time.min_int64, time.max_int64;
        change (2 ^ 63) with 9223372036854775808; lia).
  unfold time.Hour. change (3600 * 10 ^ 9) with 3600000000000.
  rewrite wrap64_below
    by (unfold time.min_int64;
        change (2 ^ 63) with 9223372036854775808;
        change (2 ^ 64) with 18446744073709551616; lia).
  lia.
Qed.

(** What a pass of an open store with retention does, given its cutoff. *)
Lemma applyRetention_open (s : usageStore.t) (now : time.Time)
    (a : usageStore.retentionAnswers) :
  0 < usageStore.retentionDays s -> usageStore.dbClosed s = false ->
  let cutoff := usageStore.retentionCutoff (usageStore.retentionDays s) now in
  let d' := usageStore.db (usageStore.applyRetention s now a) in
  usage_requests d'
  = match usageStore.deleteRequestsFails a with
    | None => List.filter (fun r => negb (String.ltb (TimeString (req_timestamp r))
                                                     (TimeString cutoff)))
                (usage_requests (usageStore.db s))
    | Some _ => usage_requests (usageStore.db s)
    end
  /\ (forall k,
        usage_daily d' !! k
        = match usageStore.deleteDailyFails a with
          | None => if String.ltb (key_day k) (time.FormatDay cutoff) then None
                    else usage_daily (usageStore.db s) !! k
          | Some _ => usage_daily (usageStore.db s) !! k
          end)
  /\ requests_seq d' = requests_seq (usageStore.db s).
Proof.
  intros Hdays Hopen. cbn zeta. unfold usageStore.applyRetention.
  destruct (Z.leb_spec (usageStore.retentionDays s) 0) as [Hle|_]; [lia|].
  rewrite Hopen.
  set (cutoff := usageStore.retentionCutoff _ _). set (day := time.FormatDay cutoff).
  clearbody day. clearbody cutoff.
  assert (Hdaily : forall (m : gmap dailyKey dailyRow) k,
            filter (fun kv : dailyKey * dailyRow => String.ltb (key_day kv.1) day = false) m
              !! k
            = if String.ltb (key_day k) day then None else m !! k).
  { intros m k. rewrite map_lookup_filter.
    destruct (m !! k) as [row|]; cbn [mbind option_bind];
      [|destruct (String.ltb _ _); reflexivity].
    destruct (String.ltb (key_day k) day) eqn:Hlt.
    - rewrite option_guard_False; [reflexivity|]. intros Hkeep.
      change (String.ltb (key_day k) day = false) in Hkeep. congruence.
    - rewrite option_guard_True; [reflexivity|exact Hlt]. }
  destruct a as [[e1|] [e2|]]; cbn [usageStore.deleteRequestsFails
    usageStore.deleteDailyFails usageStore.db usageStore.with_db deleteDailyBefore
    deleteRequestsBefore usage_requests usage_daily requests_seq]; auto.
Qed.

(** X12: the horizon of a retention pass.  For a retention of one day up
    to [longestRetention] days the duration is computed exactly: the cutoff
    is [now - days * 24h].  A pass of an open store keeps the fact rows
    whose stored timestamp does not sort before the text of the cutoff and
    deletes the others; when the cutoff and the timestamps of the rows are
    of the years 0 to 9999 these are the rows whose timestamp is not before
    the cutoff.  It keeps the daily rows whose day does not precede the day
    of the cutoff, and the largest id handed out stays.  The two statements
    are independent: when the engine refuses one of them, that table stays
    as it was and the other statement is run all the same. *)
Theorem retention_horizon (s : usageStore.t) (now : time.Time)
    (a : usageStore.retentionAnswers) :
  0 < usageStore.retentionDays s <= longestRetention ->
  usageStore.dbClosed s = false ->
  let cutoff := now - usageStore.retentionDays s * (24 * time.Hour) in
  let d' := usageStore.db (usageStore.applyRetention s now a) in
  usage_requests d'
  = match usageStore.deleteRequestsFails a with
    | None => List.filter (fun r => negb (String.ltb (TimeString (req_timestamp r))
                                                     (TimeString cutoff)))
                (usage_requests (usageStore.db s))
    | Some _ => usage_requests (usageStore.db s)
    end
  /\ (fourDigitYear cutoff ->
      Forall (fun r => fourDigitYear (req_timestamp r)) (usage_requests (usageStore.db s)) ->
      usage_requests d'
      = match usageStore.deleteRequestsFails a with
        | None => List.filter (fun r => cutoff <=? req_timestamp r)
                    (usage_requests (usageStore.db s))
        | Some _ => usage_requests (usageStore.db s)
        end)
  /\ (forall k,
        usage_daily d' !! k
        = match usageStore.deleteDailyFails a with
          | None => if String.ltb (key_day k) (time.FormatDay cutoff) then None
                    else usage_daily (usageStore.db s) !! k
          | Some _ => usage_daily (usageStore.db s) !! k
          end)
  /\ requests_seq d' = requests_seq (usageStore.db s).
Proof.
  intros Hdays Hopen. cbn zeta.
  rewrite <- (retentionCutoff_exact _ now Hdays).
  destruct (applyRetention_open s now a ltac:(lia) Hopen) as (Hrows & Hdaily & Hseq).
  cbn zeta in Hrows, Hdaily, Hseq.
  split; [exact Hrows|]. split; [|split; [exact Hdaily|exact Hseq]].
  intros Hcut Hall. rewrite Hrows. destruct (usageStore.deleteRequestsFails a); [reflexivity|].
  apply List.filter_ext_in. intros r Hin. apply kept_rows_four_digits; [exact Hcut|].
  rewrite List.Forall_forall in Hall. apply Hall, Hin.
Qed.

(** The store of the first test, two days after its record and thirty
    days after it. *)
Lemma retention_horizon_witness :
  let later := Timestamp qwenRecord + 2 * 24 * time.Hour in
  0 < usageStore.retentionDays qwenStore <= longestRetention
  /\ usageStore.dbClosed qwenStore = false
  /\ fourDigitYear (later - 14 * (24 * time.Hour))
  /\ fourDigitYear (thirtyDaysLater - 14 * (24 * time.Hour))
  /\ Forall (fun r => fourDigitYear (req_timestamp r))
        (usage_requests (usageStore.db qwenStore))
  /\ length (usage_requests (usageStore.db
               (usageStore.applyRetention qwenStore later quietRetention))) = 1%nat
  /\ usage_requests (usageStore.db
        (usageStore.applyRetention qwenStore thirtyDaysLater quietRetention)) = [].
Proof.
  cbn zeta.
  assert (H1 : 0 < usageStore.retentionDays qwenStore <= longestRetention)
    by (cbn; unfold longestRetention; lia).
  assert (H2 : usageStore.dbClosed qwenStore = false) by reflexivity.
  assert (H3 : fourDigitYear (Timestamp qwenRecord + 2 * 24 * time.Hour
                              - 14 * (24 * time.Hour)))
    by (split; apply Z.leb_le; vm_compute; reflexivity).
  assert (H4 : fourDigitYear (thirtyDaysLater - 14 * (24 * time.Hour)))
    by (split; apply Z.leb_le; vm_compute; reflexivity).
  assert (H5 : Forall (fun r => fourDigitYear (req_timestamp r))
                 (usage_requests (usageStore.db qwenStore))).
  { constructor; [|constructor]. split; apply Z.leb_le; vm_compute; reflexivity. }
  split; [exact H1|]. split; [exact H2|]. split; [exact H3|]. split; [exact H4|].
  split; [exact H5|]. split.
  - rewrite (proj1 (proj2 (retention_horizon qwenStore _ quietRetention H1 H2)) H3 H5).
    reflexivity.
  - rewrite (proj1 (proj2 (retention_horizon qwenStore thirtyDaysLater quietRetention H1 H2))
               H4 H5).
    reflexivity.
Defined.

(** X13: past [longestRetention] days the duration no longer fits in 64
    bits of nanoseconds and wraps around: for a retention of up to twice
    as many days the cutoff of a pass lies after the clock, not before.
    While the year of that cutoff still has four digits, the pass of an
    open store deletes every fact row whose timestamp is not after the
    clock: the longer retention keeps nothing. *)
Theorem retention_overflow (s : usageStore.t) (now : time.Time)
    (a : usageStore.retentionAnswers) :
  longestRetention < usageStore.retentionDays s <= 2 * longestRetention + 1 ->
  usageStore.dbClosed s = false ->
  usageStore.deleteRequestsFails a = None ->
  fourDigitYear (usageStore.retentionCutoff (usageStore.retentionDays s) now) ->
  now < usageStore.retentionCutoff (usageStore.retentionDays s) now
  /\ Forall (fun r => now < req_timestamp r)
        (usage_requests (usageStore.db (usageStore.applyRetention s now a))).
Proof.
  intros Hdays Hopen Hfirst Hcut.
  assert (Hlater : now < usageStore.retentionCutoff (usageStore.retentionDays s) now).
  { rewrite (retentionCutoff_wraps _ now Hdays). unfold longestRetention in Hdays.
    unfold time.Hour. change (3600 * 10 ^ 9) with 3600000000000.
    change (2 ^ 64) with 18446744073709551616. lia. }
  split; [exact Hlater|].
  assert (Hpos : 0 < usageStore.retentionDays s) by (unfold longestRetention in Hdays; lia).
  destruct (applyRetention_open s now a Hpos Hopen) as (Hrows & _). cbn zeta in Hrows.
  rewrite Hrows, Hfirst. clear Hrows.
  set (cutoff := usageStore.retentionCutoff (usageStore.retentionDays s) now) in *.
  clearbody cutoff.
  apply List.Forall_forall. intros r Hin.
  apply List.filter_In in Hin as [_ Hkeep]. apply negb_true_iff in Hkeep.
  destruct (Z_lt_le_dec (yearOf (req_timestamp r)) 0) as [Hneg|Hnonneg].
  { rewrite (TimeString_negative_year _ _ Hneg Hcut) in Hkeep. discriminate Hkeep. }
  destruct (Z_le_gt_dec (yearOf (req_timestamp r)) 9999) as [Hfour|Hfive].
  - rewrite TimeString_ltb in Hkeep by (try exact Hcut; split; assumption).
    apply Z.ltb_ge in Hkeep. lia.
  - destruct (Z_lt_le_dec now (req_timestamp r)) as [Hok|Hle]; [exact Hok|].
    pose proof (yearOf_monotone _ _ Hle) as Hy1.
    pose proof (yearOf_monotone now cutoff ltac:(lia)) as Hy2.
    destruct Hcut as [_ Hcut]. lia.
Qed.

Lemma retention_overflow_witness :
  longestRetention < usageStore.retentionDays centuriesStore <= 2 * longestRetention + 1
  /\ usageStore.dbClosed centuriesStore = false
  /\ usageStore.deleteRequestsFails quietRetention = None
  /\ fourDigitYear (usageStore.retentionCutoff (usageStore.retentionDays centuriesStore)
                      (Timestamp qwenRecord))
  /\ usage_requests (usageStore.db centuriesStore) <> []
  /\ Forall (fun r => Timestamp qwenRecord < req_timestamp r)
        (usage_requests (usageStore.db
           (usageStore.applyRetention centuriesStore (Timestamp qwenRecord) quietRetention))).
Proof.
  assert (H1 : longestRetention < usageStore.retentionDays centuriesStore
               <= 2 * longestRetention + 1) by (cbn; unfold longestRetention; lia).
  assert (H2 : usageStore.dbClosed centuriesStore = false) by reflexivity.
  assert (H3 : usageStore.deleteRequestsFails quietRetention = None) by reflexivity.
  assert (H4 : fourDigitYear (usageStore.retentionCutoff
                                (usageStore.retentionDays centuriesStore)
                                (Timestamp qwenRecord)))
    by (split; apply Z.leb_le; vm_compute; reflexivity).
  split; [exact H1|]. split; [exact H2|]. split; [exact H3|]. split; [exact H4|].
  split; [discriminate|].
  exact (proj2 (retention_overflow centuriesStore (Timestamp qwenRecord) quietRetention
                  H1 H2 H3 H4)).
Defined.

(** Once the year of the wrapped cutoff has five digits its text sorts
    before the texts of today's timestamps: on the first of January 9800
    the cutoff is of the year 10092 and the pass keeps the row of 2026. *)
Example retention_overflow_year_9800 :
  yearOf (usageStore.retentionCutoff (usageStore.retentionDays centuriesStore) year9800)
  = 10092
  /\ usage_requests (usageStore.db
        (usageStore.applyRetention centuriesStore year9800 quietRetention))
     = usage_requests (usageStore.db centuriesStore).
Proof. split; vm_compute; reflexivity. Qed.

(** ** Reconfiguration *)

Lemma newUsageStore_fresh (fs : openAnswer) (opts : DatabaseOptions) (store : usageStore.t) :
  newUsageStore fs opts = inr store ->
  usageStore.stop store = false
  /\ usageStore.dbClosed store = false
  /\ usageStore.running store = true
  /\ usageStore.queue store = []
  /\ usageStore.retentionDays store = RetentionDays opts.
Proof.
  unfold newUsageStore. destruct (String.eqb _ ""); [discriminate|].
  destruct fs; try discriminate. intros [= <-]. cbn. auto 6.
Qed.

Lemma closeStore_live (w : World) (a : nat) (s : usageStore.t) (c : usageStore.closing) :
  stores w !! a = Some s -> usageStore.stop s = false ->
  exists s',
    closeStore w (Some a) c
    = Returns {| stores := <[a := s']> (stores w); allocated := allocated w;
                 currentUsageStore := currentUsageStore w;
                 currentDBConfig := currentDBConfig w |}
    /\ usageStore.stop s' = true
    /\ usageStore.dbClosed s' = true
    /\ usageStore.queue s' = [].
Proof.
  intros Hs Hstop.
  destruct (close_fields s c Hstop) as (s' & Hclose & Hst & _ & Hclosed & Hq & _).
  exists s'. unfold closeStore. rewrite Hs, Hclose. auto.
Qed.

Section Reconfiguration.

Variable filepath_Clean : string -> string.

(** X14: one call of [ConfigureDatabase], from a world whose current store
    is in use.  The call returns: it neither panics nor blocks.  When it
    returns an error, the world is as before: the store that was current
    stays current and untouched, and the configuration is not updated, so
    the same options are tried again by the next call.  When it returns no
    error and the options differ from the current configuration, the store
    that was current is no longer current and has been closed, its queue
    drained; the new current store, when there is one, is in use. *)
Theorem ConfigureDatabase_swaps_stores (w : World) (fs : openAnswer)
    (c : usageStore.closing) (opts : DatabaseOptions) :
  live w ->
  exists w' r,
    ConfigureDatabase filepath_Clean w fs c opts = Returns (w', r)
    /\ live w'
    /\ (r <> None ->
        w' = w
        /\ configsEqual (currentDBConfig w)
             (Some (normalizeDatabaseOptions filepath_Clean opts)) = false)
    /\ (r = None ->
        configsEqual (currentDBConfig w)
          (Some (normalizeDatabaseOptions filepath_Clean opts)) = false ->
        forall a, currentUsageStore w = Some a ->
          currentUsageStore w' <> Some a
          /\ exists s', stores w' !! a = Some s'
                        /\ usageStore.stop s' = true
                        /\ usageStore.dbClosed s' = true
                        /\ usageStore.queue s' = []).
Proof.
  intros Hlive. unfold ConfigureDatabase.
  set (normalized := normalizeDatabaseOptions filepath_Clean opts).
  destruct (configsEqual (currentDBConfig w) (Some normalized)) eqn:Heq.
  { exists w, None. split; [reflexivity|]. split; [exact Hlive|].
    split; [intros H; contradiction|intros _ H; discriminate H]. }
  destruct (negb (Enabled normalized) || String.eqb (Path normalized) "").
  - destruct (currentUsageStore w) as [a|] eqn:Hcur.
    + destruct (Hlive a Hcur) as (Hlt & s & Hs & Hstop & _).
      set (w1 := {| stores := stores w; allocated := allocated w;
                    currentUsageStore := None; currentDBConfig := Some normalized |}).
      destruct (closeStore_live w1 a s c Hs Hstop) as (s' & Hclose & Hst & Hclosed & Hq).
      rewrite Hclose. eexists _, None. split; [reflexivity|].
      split; [intros b Hb; discriminate Hb|].
      split; [intros H; contradiction|].
      intros _ _ b [= <-]. split; [discriminate|].
      exists s'. cbn. rewrite lookup_insert_eq. auto.
    + cbn. eexists _, None. split; [reflexivity|].
      split; [intros b Hb; discriminate Hb|].
      split; [intros H; contradiction|]. intros _ _ b Hb. discriminate Hb.
  - destruct (newUsageStore fs normalized) as [err|store] eqn:Hnew.
    { exists w, (Some err). split; [reflexivity|]. split; [exact Hlive|].
      split; [auto|intros H; discriminate H]. }
    destruct (newUsageStore_fresh _ _ _ Hnew) as (Nstop & Nclosed & Nrun & _).
    destruct (currentUsageStore w) as [a|] eqn:Hcur.
    + destruct (Hlive a Hcur) as (Hlt & s & Hs & Hstop & _).
      set (w1 := {| stores := <[allocated w := store]> (stores w);
                    allocated := S (allocated w);
                    currentUsageStore := Some (allocated w);
                    currentDBConfig := currentDBConfig w |}).
      assert (Hs1 : stores w1 !! a = Some s).
      { cbn. rewrite lookup_insert_ne by lia. exact Hs. }
      destruct (closeStore_live w1 a s c Hs1 Hstop) as (s' & Hclose & Hst & Hclosed & Hq).
      rewrite Hclose. eexists _, None. split; [reflexivity|]. split; [|split].
      * intros b. cbn. intros [= <-]. split; [lia|]. exists store.
        rewrite lookup_insert_ne by lia. rewrite lookup_insert_eq. auto.
      * intros H; contradiction.
      * intros _ _ b [= <-]. cbn. split; [intros [= H]; lia|].
        exists s'. rewrite lookup_insert_eq. auto.
    + cbn. eexists _, None. split; [reflexivity|]. split; [|split].
      * intros b. cbn. intros [= <-]. split; [lia|]. exists store.
        rewrite lookup_insert_eq. auto.
      * intros H; contradiction.
      * intros _ _ b Hb. discriminate Hb.
Qed.

Lemma live_initialWorld : live initialWorld.
Proof. intros a H. discriminate H. Defined.

End Reconfiguration.

Lemma live_testWorld : live testWorld.
Proof.
  intros a [= <-]. split; [cbn; lia|]. exists (freshStore 2).
  split; [reflexivity|]. cbn. auto.
Defined.

(** From the world of the second test, with its store current, to another
    file: the store of the test is closed and the new one is current. *)
Lemma ConfigureDatabase_swaps_stores_witness :
  live testWorld
  /\ exists w',
       ConfigureDatabase cleanPath testWorld (Opened emptyDatabase) quietClosing otherOptions
       = Returns (w', None)
       /\ live w'
       /\ currentUsageStore testWorld = Some O
       /\ currentUsageStore w' = Some 1%nat
       /\ exists s', stores w' !! O = Some s'
                     /\ usageStore.stop s' = true
                     /\ usageStore.dbClosed s' = true
                     /\ usageStore.queue s' = [].
Proof.
  split; [exact live_testWorld|].
  destruct (ConfigureDatabase_swaps_stores cleanPath testWorld (Opened emptyDatabase)
              quietClosing otherOptions live_testWorld)
    as (w' & r & Hret & Hlive & _ & Hswap).
  assert (Hrun : exists w0,
            ConfigureDatabase cleanPath testWorld (Opened emptyDatabase) quietClosing
              otherOptions = Returns (w0, None)
            /\ currentUsageStore w0 = Some 1%nat)
    by (eexists; split; reflexivity).
  destruct Hrun as (w0 & Hrun & Hcur). rewrite Hrun in Hret. injection Hret as <- <-.
  exists w0. split; [exact Hrun|]. split; [exact Hlive|]. split; [reflexivity|].
  split; [exact Hcur|].
  exact (proj2 (Hswap eq_refl eq_refl O eq_refl)).
Defined.

(** ** The package, call after call *)

Lemma run_frame (s : usageStore.t) (a : sql.answers) :
  let s' := fst (usageStore.run s a) in
  usageStore.stop s' = usageStore.stop s
  /\ usageStore.dbClosed s' = usageStore.dbClosed s
  /\ (usageStore.stop s = false -> usageStore.running s' = usageStore.running s).
Proof.
  cbn zeta. unfold usageStore.run. destruct (usageStore.running s) eqn:Hrun; [|cbn; auto].
  destruct (usageStore.queue s) as [|rec rest].
  - destruct (usageStore.stop s) eqn:Hstop; cbn; rewrite ?Hstop; auto.
  - destruct (insert_frame (usageStore.with_queue s rest) a rec) as (_ & H2 & H3 & H4 & _).
    cbn zeta in *. rewrite H2, H3, H4. cbn. auto.
Qed.

Lemma onStore_invariant (w : World) (a : nat) (f : usageStore.t -> usageStore.t) :
  (forall s, usageStore.stop (f s) = usageStore.stop s
             /\ usageStore.dbClosed (f s) = usageStore.dbClosed s
             /\ (usageStore.stop s = false ->
                 usageStore.running (f s) = usageStore.running s)) ->
  live w /\ tidy w -> live (onStore w a f) /\ tidy (onStore w a f).
Proof.
  intros Hf [Hlive Htidy]. unfold onStore.
  destruct (stores w !! a) as [s|] eqn:Hs; [|auto].
  destruct (Hf s) as (F1 & F2 & F3). split.
  - intros b Hb. cbn in Hb. destruct (Hlive b Hb) as (Hlt & s0 & Hs0 & Hstop & Hopen & Hrun).
    split; [exact Hlt|]. cbn. destruct (decide (a = b)) as [->|Hne].
    + rewrite Hs in Hs0. injection Hs0 as <-. exists (f s).
      rewrite lookup_insert_eq, F1, F2, (F3 Hstop). auto.
    + exists s0. rewrite lookup_insert_ne by exact Hne. auto.
  - intros b s0. cbn. intros Hb. apply lookup_insert_Some in Hb as [[<- <-]|[Hne Hb]].
    + destruct (Htidy a s Hs) as [Hlt Hcase]. split; [exact Hlt|].
      rewrite F1, F2. exact Hcase.
    + exact (Htidy b s0 Hb).
Qed.

Section PackageCalls.

Variable filepath_Clean : string -> string.
Variable normaliseDetail : coreusage.Detail -> TokenStats.

Lemma HandleUsage_invariant (w w' : World) (ctx : context.Context)
    (record : coreusage.Record_) (now : time.Time) (pick : selected) (r : option error) :
  live w /\ tidy w ->
  databasePlugin.HandleUsage normaliseDetail w ctx record now pick = Returns (w', r) ->
  (live w' /\ tidy w') /\ r = None.
Proof.
  intros [Hlive Htidy]. unfold databasePlugin.HandleUsage.
  destruct (currentUsageStore w) as [a|] eqn:Hcur; [|intros [= <- <-]; auto].
  destruct (Hlive a Hcur) as (Hlt & s & Hs & Hstop & Hopen & Hrun). rewrite Hs.
  unfold databasePlugin.handleOn.
  destruct (databasePlugin.dbRecordOf normaliseDetail ctx record now) as [rec| |];
    try discriminate.
  unfold usageStore.enqueue. rewrite Hstop.
  destruct (_ <? _)%nat; [|discriminate]. intros [= <- <-]. split; [|reflexivity]. split.
  - intros b. cbn. intros [= <-]. split; [exact Hlt|].
    eexists. rewrite lookup_insert_eq. split; [reflexivity|]. cbn. auto.
  - intros b s0. cbn. intros Hb. apply lookup_insert_Some in Hb as [[<- <-]|[Hne Hb]].
    + split; [exact Hlt|]. left. reflexivity.
    + destruct (Htidy b s0 Hb) as [H1 H2]. rewrite Hcur in H2. auto.
Qed.

Lemma ConfigureDatabase_invariant (w w' : World) (fs : openAnswer)
    (c : usageStore.closing) (opts : DatabaseOptions) (r : option error) :
  live w /\ tidy w ->
  ConfigureDatabase filepath_Clean w fs c opts = Returns (w', r) ->
  live w' /\ tidy w'.
Proof.
  intros [Hlive Htidy]. unfold ConfigureDatabase.
  set (normalized := normalizeDatabaseOptions filepath_Clean opts).
  destruct (configsEqual (currentDBConfig w) (Some normalized)); [intros [= <- _]; auto|].
  assert (Hothers : forall b s0, stores w !! b = Some s0 -> currentUsageStore w <> Some b ->
                      (b < allocated w)%nat
                      /\ usageStore.stop s0 = true /\ usageStore.dbClosed s0 = true).
  { intros b s0 Hb Hne. destruct (Htidy b s0 Hb) as [Hlt [Hcur|Hclosed]];
      [contradiction|auto]. }
  destruct (negb (Enabled normalized) || String.eqb (Path normalized) "").
  - destruct (currentUsageStore w) as [a|] eqn:Hcur.
    + destruct (Hlive a Hcur) as (Hlt & s & Hs & Hstop & _).
      set (w1 := {| stores := stores w; allocated := allocated w;
                    currentUsageStore := None; currentDBConfig := Some normalized |}).
      destruct (closeStore_live w1 a s c Hs Hstop) as (s' & Hclose & Hst & Hclosed & _).
      rewrite Hclose. intros [= <- _]. split; [intros b Hb; discriminate Hb|].
      intros b s0. cbn. intros Hb. apply lookup_insert_Some in Hb as [[<- <-]|[Hne Hb]].
      * auto.
      * destruct (Hothers b s0 Hb) as (H1 & H2 & H3); [congruence|auto].
    + cbn. intros [= <- _]. split; [intros b Hb; discriminate Hb|].
      intros b s0. cbn. intros Hb.
      destruct (Hothers b s0 Hb) as (H1 & H2 & H3); [discriminate|auto].
  - destruct (newUsageStore fs normalized) as [err|store] eqn:Hnew;
      [intros [= <- _]; auto|].
    destruct (newUsageStore_fresh _ _ _ Hnew) as (Nstop & Nclosed & Nrun & _).
    destruct (currentUsageStore w) as [a|] eqn:Hcur.
    + destruct (Hlive a Hcur) as (Hlt & s & Hs & Hstop & _).
      set (w1 := {| stores := <[allocated w := store]> (stores w);
                    allocated := S (allocated w);
                    currentUsageStore := Some (allocated w);
                    currentDBConfig := currentDBConfig w |}).
      assert (Hs1 : stores w1 !! a = Some s).
      { cbn. rewrite lookup_insert_ne by lia. exact Hs. }
      destruct (closeStore_live w1 a s c Hs1 Hstop) as (s' & Hclose & Hst & Hclosed & _).
      rewrite Hclose. intros [= <- _]. split.
      * intros b. cbn. intros [= <-]. split; [lia|]. exists store.
        rewrite lookup_insert_ne by lia. rewrite lookup_insert_eq. auto.
      * intros b s0. cbn. intros Hb. apply lookup_insert_Some in Hb as [[<- <-]|[Hne Hb]].
        { split; [lia|auto]. }
        apply lookup_insert_Some in Hb as [[<- <-]|[Hne' Hb]].
        { split; [lia|auto]. }
        destruct (Hothers b s0 Hb) as (H1 & H2 & H3); [congruence|].
        split; [lia|auto].
    + cbn. intros [= <- _]. split.
      * intros b. cbn. intros [= <-]. split; [lia|]. exists store.
        rewrite lookup_insert_eq. auto.
      * intros b s0. cbn. intros Hb. apply lookup_insert_Some in Hb as [[<- <-]|[Hne' Hb]].
        { split; [lia|auto]. }
        destruct (Hothers b s0 Hb) as (H1 & H2 & H3); [discriminate|].
        split; [lia|auto].
Qed.

Lemma ConfigureDatabase_returns (w : World) (fs : openAnswer)
    (c : usageStore.closing) (opts : DatabaseOptions) :
  live w ->
  exists w' r, ConfigureDatabase filepath_Clean w fs c opts = Returns (w', r).
Proof.
  intros Hlive. unfold ConfigureDatabase.
  set (normalized := normalizeDatabaseOptions filepath_Clean opts).
  destruct (configsEqual (currentDBConfig w) (Some normalized)); [eauto|].
  destruct (negb (Enabled normalized) || String.eqb (Path normalized) "").
  - destruct (currentUsageStore w) as [a|] eqn:Hcur; [|cbn; eauto].
    destruct (Hlive a Hcur) as (Hlt & s & Hs & Hstop & _).
    set (w1 := {| stores := stores w; allocated := allocated w;
                  currentUsageStore := None; currentDBConfig := Some normalized |}).
    destruct (closeStore_live w1 a s c Hs Hstop) as (s' & Hclose & _).
    rewrite Hclose. eauto.
  - destruct (newUsageStore fs normalized) as [err|store]; [eauto|].
    destruct (currentUsageStore w) as [a|] eqn:Hcur; [|cbn; eauto].
    destruct (Hlive a Hcur) as (Hlt & s & Hs & Hstop & _).
    set (w1 := {| stores := <[allocated w := store]> (stores w);
                  allocated := S (allocated w);
                  currentUsageStore := Some (allocated w);
                  currentDBConfig := currentDBConfig w |}).
    assert (Hs1 : stores w1 !! a = Some s).
    { cbn. rewrite lookup_insert_ne by lia. exact Hs. }
    destruct (closeStore_live w1 a s c Hs1 Hstop) as (s' & Hclose & _).
    rewrite Hclose. eauto.
Qed.

Lemma reachableWorld_invariant (w : World) :
  reachableWorld filepath_Clean normaliseDetail w -> live w /\ tidy w.
Proof.
  induction 1 as [|w w' c r _ IH Hstep].
  - split; [intros a H; discriminate H|]. intros a s H. cbn in H.
    rewrite lookup_empty in H. discriminate H.
  - destruct c as [fs c opts|ctx record now pick|a answers|a now answers];
      cbn [packageStep] in Hstep.
    + exact (ConfigureDatabase_invariant _ _ _ _ _ _ IH Hstep).
    + exact (proj1 (HandleUsage_invariant _ _ _ _ _ _ _ IH Hstep)).
    + injection Hstep as <- _. apply onStore_invariant; [|exact IH].
      intros s. apply run_frame.
    + injection Hstep as <- _. apply onStore_invariant; [|exact IH].
      intros s. destruct (applyRetention_frame s now answers) as (_ & H2 & H3 & H4 & _).
      cbn zeta in *. auto.
Qed.

(** X15: the package, call after call.  In every world reached from the
    start through calls of [ConfigureDatabase] and [HandleUsage], rounds of
    the workers and retention passes, one after the other: the current
    store, when there is one, is in use ([stop] open, handle open, worker
    running); every other store ever made has been closed, so none is left
    behind; [ConfigureDatabase] returns, so no store is ever closed twice;
    and a call of [HandleUsage] that returns has no warning to log: the
    refusal of a stopped store is met only by a call that overlaps a
    reconfiguration. *)
Theorem package_stores_in_order (w : World) :
  reachableWorld filepath_Clean normaliseDetail w ->
  live w
  /\ (forall a s, stores w !! a = Some s -> currentUsageStore w <> Some a ->
        usageStore.stop s = true /\ usageStore.dbClosed s = true)
  /\ (forall fs c opts, exists w' r,
        ConfigureDatabase filepath_Clean w fs c opts = Returns (w', r))
  /\ (forall ctx record now pick w' r,
        databasePlugin.HandleUsage normaliseDetail w ctx record now pick = Returns (w', r) ->
        r = None).
Proof.
  intros Hreach. pose proof (reachableWorld_invariant w Hreach) as [Hlive Htidy].
  split; [exact Hlive|]. split; [|split].
  - intros a s Hs Hne. destruct (Htidy a s Hs) as [_ [Hcur|Hclosed]];
      [contradiction|exact Hclosed].
  - intros fs c opts. apply ConfigureDatabase_returns, Hlive.
  - intros ctx record now pick w' r Hcall.
    exact (proj2 (HandleUsage_invariant _ _ _ _ _ _ _ (conj Hlive Htidy) Hcall)).
Qed.

End PackageCalls.

Lemma package_stores_in_order_witness :
  reachableWorld cleanPath copyDetail testWorld
  /\ live testWorld.
Proof.
  assert (H : reachableWorld cleanPath copyDetail testWorld).
  { apply (reachable_call cleanPath copyDetail initialWorld testWorld
             (Configured (Opened emptyDatabase) quietClosing testOptions) None).
    - apply reachable_start.
    - reflexivity. }
  split; [exact H|].
  exact (proj1 (package_stores_in_order cleanPath copyDetail testWorld H)).
Defined.

(** ** The exporter, further *)

Lemma trimLeft_fixed (fuel : nat) (encs : list (list Z)) (l : list Z) :
  strings.leadingSpace encs l = None -> strings.trimLeft fuel encs l = l.
Proof. intros H. destruct fuel; cbn; [reflexivity|]. rewrite H. reflexivity. Qed.

(** A string with no white space at either end is its own trimming. *)
Lemma TrimSpace_fixed (s : string) :
  strings.leadingSpace strings.spaceEncodings (Hex.bytes_of_string s) = None ->
  trailingSpace (Hex.bytes_of_string s) = None ->
  strings.TrimSpace s = s.
Proof.
  intros Hlead Htrail. unfold strings.TrimSpace, strings.TrimLeftSpace.
  rewrite (trimLeft_fixed _ _ _ Hlead). unfold strings.TrimRightSpace.
  unfold trailingSpace in Htrail. rewrite (trimLeft_fixed _ _ _ Htrail), rev_involutive.
  apply string_of_bytes_of_string.
Qed.

Lemma TrimSpace_trimmed (s : string) :
  strings.leadingSpace strings.spaceEncodings (Hex.bytes_of_string (strings.TrimSpace s)) = None
  /\ trailingSpace (Hex.bytes_of_string (strings.TrimSpace s)) = None.
Proof.
  unfold strings.TrimSpace. set (l := Hex.bytes_of_string s).
  destruct (TrimLeftSpace_split l) as (pre & Hpre & Hl).
  destruct (TrimRightSpace_split (strings.TrimLeftSpace l)) as (post & Hpost & Hr).
  assert (Hbytes : Forall isByte (strings.TrimRightSpace (strings.TrimLeftSpace l))).
  { pose proof (bytes_of_string_bytes s) as Hall. fold l in Hall.
    rewrite Hl, Hr in Hall. apply Forall_app in Hall as [_ Hall].
    apply Forall_app in Hall as [Hall _]. exact Hall. }
  rewrite (bytes_of_string_of_bytes _ Hbytes). split.
  - apply TrimRightSpace_keeps_front, TrimLeftSpace_done.
  - apply TrimRightSpace_done.
Qed.

Lemma TrimSpace_idempotent (s : string) :
  strings.TrimSpace (strings.TrimSpace s) = strings.TrimSpace s.
Proof. destruct (TrimSpace_trimmed s) as [H1 H2]. apply TrimSpace_fixed; assumption. Qed.

(** X16: the stored endpoint is stable.  Trimming is idempotent, so
    setting the endpoint to the value read back leaves the plugin as it
    is; and an endpoint that neither starts nor ends with a white-space
    rune is stored as given, white space inside it included. *)
Theorem endpoint_is_stable (p : OTLPPlugin.t) (s : string) :
  let p1 := OTLPPlugin.SetEndpoint p s in
  strings.TrimSpace (OTLPPlugin.GetEndpoint p1) = OTLPPlugin.GetEndpoint p1
  /\ OTLPPlugin.SetEndpoint p1 (OTLPPlugin.GetEndpoint p1) = p1
  /\ (strings.leadingSpace strings.spaceEncodings (Hex.bytes_of_string s) = None ->
      trailingSpace (Hex.bytes_of_string s) = None ->
      OTLPPlugin.GetEndpoint p1 = s).
Proof.
  cbn zeta. unfold OTLPPlugin.GetEndpoint, OTLPPlugin.SetEndpoint.
  cbn [OTLPPlugin.endpoint OTLPPlugin.enabled OTLPPlugin.batch OTLPPlugin.batchSize
       OTLPPlugin.tickerStopped OTLPPlugin.stopChan].
  rewrite TrimSpace_idempotent. split; [reflexivity|]. split; [reflexivity|].
  apply TrimSpace_fixed.
Qed.

(** X17: what an enabled exporter does with one usage record.  After
    [SetEnabled true] and [SetEndpoint e], a call of [HandleUsage] whose
    context is not nil converts the record once, hands at most one request
    to the client, addressed to the trimmed [e], and leaves the plugin as it
    is: nothing is queued and nothing is retried.  It logs one message
    unless the collector answered with a status from 200 to 299; when the
    event cannot be marshalled or the request cannot be made, nothing leaves
    the process. *)
Theorem enabled_exporter_posts_once (p : OTLPPlugin.t) (e : string)
    (ctx : context.Context) (record : coreusage.Record_) (a : OTLPPlugin.sendAnswer) :
  ctx <> context.Nil ->
  let p' := OTLPPlugin.SetEndpoint (OTLPPlugin.SetEnabled p true) e in
  exists event effects,
    OTLPPlugin.convertRecordToEvent ctx record = Returns event
    /\ OTLPPlugin.step p' (OTLPPlugin.CallHandleUsage ctx record a) = Returns (p', effects)
    /\ OTLPPlugin.conversions effects = [event]
    /\ OTLPPlugin.posts effects
       = (if handedOver a then [(strings.TrimSpace e, event)] else [])
    /\ length (logs effects) = (if accepted a then 0 else 1)%nat.
Proof.
  intros Hctx. cbn zeta.
  assert (Hconv : exists event, OTLPPlugin.convertRecordToEvent ctx record = Returns event).
  { destruct ctx as [|[| |g]]; [contradiction| | |]; cbn; eauto. }
  destruct Hconv as [event Hconv]. exists event.
  cbn [OTLPPlugin.step]. unfold OTLPPlugin.HandleUsage.
  cbn [OTLPPlugin.SetEndpoint OTLPPlugin.SetEnabled OTLPPlugin.enabled negb].
  rewrite Hconv.
  destruct a as [err|err|err|code status]; cbn [OTLPPlugin.sendEvent OTLPPlugin.endpoint].
  - eexists. split; [reflexivity|]. split; [reflexivity|]. cbn. auto.
  - eexists. split; [reflexivity|]. split; [reflexivity|]. cbn. auto.
  - eexists. split; [reflexivity|]. split; [reflexivity|]. cbn. auto.
  - eexists. split; [reflexivity|]. split; [reflexivity|].
    cbn [handedOver accepted]. rewrite (Z.leb_antisym code 200), (Z.ltb_antisym 300 code).
    destruct (code <? 200), (300 <=? code); cbn; auto.
Qed.

Lemma enabled_exporter_posts_once_witness :
  respondedWith 429 <> context.Nil
  /\ exists event effects,
       OTLPPlugin.convertRecordToEvent (respondedWith 429) (claudeRecord true 0) = Returns event
       /\ OTLPPlugin.posts effects = [("http://collector:4318/v1/logs", event)]
       /\ length (logs effects) = 1%nat.
Proof.
  assert (H : respondedWith 429 <> context.Nil) by discriminate.
  split; [exact H|].
  destruct (enabled_exporter_posts_once (OTLPPlugin.NewOTLPPlugin "")
              " http://collector:4318/v1/logs " (respondedWith 429) (claudeRecord true 0)
              (OTLPPlugin.Responded 503 "503 Service Unavailable") H)
    as (event & effects & Hconv & _ & _ & Hposts & Hlogs).
  exists event, effects. split; [exact Hconv|]. split; [exact Hposts|exact Hlogs].
Defined.

(** X18: [Close] stops the ticker and closes the stop channel, and
    nothing else: the enabled flag and the endpoint stay, so a call of
    [HandleUsage] after [Close] does what it did before and an enabled
    exporter keeps sending; a tick that finds the stop channel closed and
    is picked first does nothing; and a second [Close] panics on the closed
    channel. *)
Theorem Close_does_not_disable (p p' : OTLPPlugin.t) (answers : nat -> OTLPPlugin.sendAnswer)
    (effects : list OTLPPlugin.effect) :
  OTLPPlugin.Close p answers = Returns (p', effects) ->
  OTLPPlugin.stopChan p' = true
  /\ OTLPPlugin.tickerStopped p' = true
  /\ OTLPPlugin.batch p' = []
  /\ OTLPPlugin.IsEnabled p' = OTLPPlugin.IsEnabled p
  /\ OTLPPlugin.GetEndpoint p' = OTLPPlugin.GetEndpoint p
  /\ (forall ctx record a,
        OTLPPlugin.HandleUsage p' ctx record a = OTLPPlugin.HandleUsage p ctx record a)
  /\ (forall answers', OTLPPlugin.periodicFlush p' FirstCase answers' = (p', []))
  /\ (forall answers', OTLPPlugin.Close p' answers' = Panics "close of closed channel").
Proof.
  unfold OTLPPlugin.Close. cbn [OTLPPlugin.stopChan].
  destruct (OTLPPlugin.stopChan p) eqn:Hstop; [discriminate|].
  intros [= Hflush].
  assert (Hfields : OTLPPlugin.stopChan p' = true /\ OTLPPlugin.tickerStopped p' = true
                    /\ OTLPPlugin.batch p' = []
                    /\ OTLPPlugin.enabled p' = OTLPPlugin.enabled p
                    /\ OTLPPlugin.endpoint p' = OTLPPlugin.endpoint p).
  { revert Hflush. unfold OTLPPlugin.flushBatch. cbn [OTLPPlugin.batch].
    destruct (OTLPPlugin.batch p) eqn:Hb; intros [= <- _]; cbn; auto. }
  destruct Hfields as (H1 & H2 & H3 & H4 & H5).
  split; [exact H1|]. split; [exact H2|]. split; [exact H3|]. split; [exact H4|].
  split; [exact H5|]. split; [|split].
  - intros ctx record a. unfold OTLPPlugin.HandleUsage. rewrite H4.
    destruct (negb (OTLPPlugin.enabled p)); [reflexivity|].
    destruct (OTLPPlugin.convertRecordToEvent ctx record) as [event| |]; try reflexivity.
    destruct a as [err|err|err|code status]; cbn [OTLPPlugin.sendEvent]; rewrite ?H5;
      reflexivity.
  - intros answers'. unfold OTLPPlugin.periodicFlush. rewrite H1. reflexivity.
  - intros answers'. cbn. rewrite H1. reflexivity.
Qed.

Lemma Close_does_not_disable_witness :
  exists p' effects,
    OTLPPlugin.Close (OTLPPlugin.NewOTLPPlugin "") alwaysOK = Returns (p', effects)
    /\ OTLPPlugin.IsEnabled p' = true.
Proof.
  eexists _, _. split; [reflexivity|].
  exact (proj1 (proj2 (proj2 (proj2
    (Close_does_not_disable (OTLPPlugin.NewOTLPPlugin "") _ alwaysOK _ eq_refl))))).
Defined.

Lemma sendBatch_conversions (p : OTLPPlugin.t) (records : list coreusage.Record_)
    (answers : nat -> OTLPPlugin.sendAnswer) :
  Forall2 (fun record event =>
             OTLPPlugin.convertRecordToEvent context.Background record = Returns event)
    records (OTLPPlugin.conversions (OTLPPlugin.sendBatch p records answers))
  /\ Forall (fun post => fst post = OTLPPlugin.endpoint p)
        (OTLPPlugin.posts (OTLPPlugin.sendBatch p records answers))
  /\ (length (OTLPPlugin.posts (OTLPPlugin.sendBatch p records answers))
      <= length records)%nat.
Proof.
  revert answers. induction records as [|record rest IH]; intros answers.
  - cbn. split; [constructor|]. split; [constructor|lia].
  - destruct (IH (fun n => answers (S n))) as (IH1 & IH2 & IH3).
    cbn [OTLPPlugin.sendBatch]. unfold OTLPPlugin.conversions, OTLPPlugin.posts in *.
    rewrite !flat_map_app.
    assert (Hconv : exists event,
              OTLPPlugin.convertRecordToEvent context.Background record = Returns event)
      by (cbn; eauto).
    destruct Hconv as [event Hconv]. rewrite Hconv.
    destruct (answers O) as [err|err|err|code status]; cbn [OTLPPlugin.sendEvent];
      try destruct ((code <? 200) || (300 <=? code)); cbn [OTLPPlugin.logged app flat_map];
      (split; [constructor; [exact Hconv|exact IH1]|]);
      (split; [repeat constructor; exact IH2|cbn [length]; lia]).
Qed.

(** X19: what [flushBatch] does with a batch, whatever it holds.  It
    empties the batch and then converts each record of the copy once, in
    order, under the background context (so with status 200 and without
    account, conversation or turn), hands at most one request per record to
    the client, each addressed to the endpoint, and reports failures to
    the log only: a record whose send fails is dropped, not put back.  A
    second flush finds the batch empty and does nothing. *)
Theorem flushBatch_sends_each_once (p : OTLPPlugin.t)
    (answers answers' : nat -> OTLPPlugin.sendAnswer) :
  let p' := fst (OTLPPlugin.flushBatch p answers) in
  let effects := snd (OTLPPlugin.flushBatch p answers) in
  OTLPPlugin.batch p' = []
  /\ Forall2 (fun record event =>
                OTLPPlugin.convertRecordToEvent context.Background record = Returns event
                /\ OTLPPlugin.StatusCode event = 200
                /\ OTLPPlugin.AccountEmail event = "")
       (OTLPPlugin.batch p) (OTLPPlugin.conversions effects)
  /\ Forall (fun post => fst post = OTLPPlugin.endpoint p) (OTLPPlugin.posts effects)
  /\ (length (OTLPPlugin.posts effects) <= length (OTLPPlugin.batch p))%nat
  /\ OTLPPlugin.flushBatch p' answers' = (p', []).
Proof.
  cbn zeta. destruct (OTLPPlugin.batch p) as [|record rest] eqn:Hb.
  - rewrite (flushBatch_empty p answers Hb). cbn [fst snd].
    split; [exact Hb|]. split; [constructor|].
    split; [constructor|]. split; [cbn; lia|]. apply flushBatch_empty, Hb.
  - set (p' := {| OTLPPlugin.endpoint := OTLPPlugin.endpoint p;
                  OTLPPlugin.enabled := OTLPPlugin.enabled p;
                  OTLPPlugin.batch := [];
                  OTLPPlugin.batchSize := OTLPPlugin.batchSize p;
                  OTLPPlugin.tickerStopped := OTLPPlugin.tickerStopped p;
                  OTLPPlugin.stopChan := OTLPPlugin.stopChan p |}).
    assert (Hflush : OTLPPlugin.flushBatch p answers
                     = (p', OTLPPlugin.sendBatch p' (record :: rest) answers)).
    { unfold OTLPPlugin.flushBatch. rewrite Hb. reflexivity. }
    rewrite Hflush. cbn [fst snd].
    destruct (sendBatch_conversions p' (record :: rest) answers) as (H1 & H2 & H3).
    split; [reflexivity|]. split; [|split; [exact H2|split; [exact H3|reflexivity]]].
    eapply Forall2_impl; [exact H1|]. cbn beta. intros r ev Hev.
    split; [exact Hev|]. cbn in Hev. injection Hev as <-. split; reflexivity.
Qed.

(** ** The management handlers *)

(** X20: the two endpoint handlers.  With the exporter registered, the
    handler that sets the endpoint stores the trimmed value but answers
    with the value as it was sent; the handler that reads it answers with
    the trimmed one, so the two responses differ exactly when the value
    sent has white space around it.  Without a registered exporter the set
    is acknowledged with 200 all the same and changes nothing: the read
    keeps answering the default endpoint.  A body that cannot be bound is
    answered with 400 and the error, and nothing is set. *)
Theorem management_endpoint_handlers (g : option OTLPPlugin.t) (raw : string) (err : error) :
  let set := management.SetOTLPEndpoint g (inr raw) in
  snd set = (200, [("endpoint", management.JSONString raw);
                   ("message", management.JSONString "OTLP endpoint updated")])
  /\ management.GetOTLPEndpoint (fst set)
     = (200, [("endpoint",
               management.JSONString
                 (match g with
                  | Some _ => strings.TrimSpace raw
                  | None => "http://127.0.0.1:4318/v1/logs"
                  end))])
  /\ (management.GetOTLPEndpoint (fst set)
      = (200, [("endpoint", management.JSONString raw)])
      <-> match g with
          | Some _ => strings.TrimSpace raw = raw
          | None => raw = "http://127.0.0.1:4318/v1/logs"
          end)
  /\ management.GetOTLPEnabled (fst set) = management.GetOTLPEnabled g
  /\ management.SetOTLPEndpoint g (inl err)
     = (g, (400, [("error", management.JSONString err)])).
Proof.
  cbn zeta. destruct g as [p|].
  - assert (Hget : management.GetOTLPEndpoint
                     (fst (management.SetOTLPEndpoint (Some p) (inr raw)))
                   = (200, [("endpoint", management.JSONString (strings.TrimSpace raw))]))
      by reflexivity.
    rewrite Hget. split; [reflexivity|]. split; [reflexivity|]. split; [|split; reflexivity].
    split; [intros [= H]; exact H|intros H; rewrite H; reflexivity].
  - assert (Hget : management.GetOTLPEndpoint
                     (fst (management.SetOTLPEndpoint None (inr raw)))
                   = (200, [("endpoint",
                             management.JSONString "http://127.0.0.1:4318/v1/logs")]))
      by reflexivity.
    rewrite Hget. split; [reflexivity|]. split; [reflexivity|]. split; [|split; reflexivity].
    split; [intros [= H]; symmetry; exact H|intros H; rewrite H; reflexivity].
Qed.

(** X21: the two handlers of the enabled flag, and the exporter behind
    them.  Before registration the read answers true.  Once the exporter is
    registered from the environment it is enabled and sends to the value of
    the environment variable as it is, not trimmed, or to the default
    endpoint when the variable is empty.  After the handler has set the flag
    to false the read answers false and [HandleUsage] sends nothing; after
    it has set it to true the read answers true.  Without a registered
    exporter the handler acknowledges the value sent, yet the read keeps
    answering true. *)
Theorem management_enabled_handlers (env : string) (enabled : bool) (err : error) :
  management.GetOTLPEnabled None = (200, [("enabled", management.JSONBool true)])
  /\ management.GetOTLPEnabled (RegisterOTLPPlugin env)
     = (200, [("enabled", management.JSONBool true)])
  /\ management.GetOTLPEndpoint (RegisterOTLPPlugin env)
     = (200, [("endpoint",
               management.JSONString
                 (if nonEmpty env then env else "http://127.0.0.1:4318/v1/logs"))])
  /\ (let set := management.SetOTLPEnabled (RegisterOTLPPlugin env) (inr enabled) in
      snd set = (200, [("enabled", management.JSONBool enabled);
                       ("message", management.JSONString "OTLP telemetry status updated")])
      /\ management.GetOTLPEnabled (fst set)
         = (200, [("enabled", management.JSONBool enabled)])
      /\ management.GetOTLPEndpoint (fst set)
         = management.GetOTLPEndpoint (RegisterOTLPPlugin env)
      /\ forall p, fst set = Some p ->
           enabled = false ->
           forall ctx record a, OTLPPlugin.HandleUsage p ctx record a = Returns [])
  /\ (let set := management.SetOTLPEnabled None (inr enabled) in
      snd set = (200, [("enabled", management.JSONBool enabled);
                       ("message", management.JSONString "OTLP telemetry status updated")])
      /\ management.GetOTLPEnabled (fst set)
         = (200, [("enabled", management.JSONBool true)]))
  /\ (forall g, management.SetOTLPEnabled g (inl err)
                = (g, (400, [("error", management.JSONString err)]))).
Proof.
  split; [reflexivity|]. split; [reflexivity|]. split.
  { unfold management.GetOTLPEndpoint, RegisterOTLPPlugin, OTLPEndpoint,
      OTLPPlugin.GetEndpoint, OTLPPlugin.NewOTLPPlugin, nonEmpty. cbn.
    destruct (String.eqb env ""); reflexivity. }
  split; [|split; [|reflexivity]].
  - cbn zeta. split; [reflexivity|]. split; [reflexivity|]. split; [reflexivity|].
    cbn. intros p [= <-] ->. intros ctx record a. reflexivity.
  - cbn zeta. split; reflexivity.
Qed.

(** ** Back-pressure and lost records *)

(** X22: back-pressure.  On a store whose [stop] is open, a call of
    [HandleUsage] that builds its record puts it at the end of the queue
    when the queue holds fewer than 2048 records, and otherwise does not
    return: the caller is held until the worker has taken a record.  One
    round of the worker, whether its insert succeeds or fails, makes room
    for that call. *)
Theorem full_queue_blocks_caller (normaliseDetail : coreusage.Detail -> TokenStats)
    (s : usageStore.t) (ctx : context.Context) (record : coreusage.Record_)
    (now : time.Time) (pick : selected) (rec : dbRecord) :
  usageStore.stop s = false ->
  databasePlugin.dbRecordOf normaliseDetail ctx record now = Returns rec ->
  databasePlugin.handleOn normaliseDetail s ctx record now pick
  = (if (length (usageStore.queue s) <? 2048)%nat
     then Returns (usageStore.with_queue s (usageStore.queue s ++ [rec])%list, None)
     else Blocks)
  /\ (usageStore.running s = true ->
      length (usageStore.queue s) = 2048%nat ->
      forall a,
        let s1 := fst (usageStore.run s a) in
        length (usageStore.queue s1) = 2047%nat
        /\ databasePlugin.handleOn normaliseDetail s1 ctx record now pick
           = Returns (usageStore.with_queue s1 (usageStore.queue s1 ++ [rec])%list, None)).
Proof.
  intros Hstop Hrec.
  assert (Hhandle : forall s0, usageStore.stop s0 = false ->
            databasePlugin.handleOn normaliseDetail s0 ctx record now pick
            = (if (length (usageStore.queue s0) <? 2048)%nat
               then Returns (usageStore.with_queue s0 (usageStore.queue s0 ++ [rec])%list, None)
               else Blocks)).
  { intros s0 H0. unfold databasePlugin.handleOn, usageStore.enqueue.
    rewrite Hrec, H0. unfold usageStore.queueCapacity.
    destruct (_ <? _)%nat; reflexivity. }
  split; [apply Hhandle, Hstop|].
  intros Hrun Hfull a. cbn zeta.
  destruct (run_frame s a) as (Hstop1 & _). cbn zeta in Hstop1.
  assert (Hlen : length (usageStore.queue (fst (usageStore.run s a))) = 2047%nat).
  { unfold usageStore.run. rewrite Hrun.
    destruct (usageStore.queue s) as [|first rest]; [discriminate Hfull|].
    destruct (insert_frame (usageStore.with_queue s rest) a first) as (Hq & _).
    cbn zeta in Hq. rewrite Hq. cbn in Hfull |- *. lia. }
  split; [exact Hlen|].
  rewrite Hhandle by (rewrite Hstop1; exact Hstop). rewrite Hlen. reflexivity.
Qed.

Lemma full_queue_blocks_caller_witness :
  usageStore.stop fullStore = false
  /\ exists rec,
       databasePlugin.dbRecordOf copyDetail (respondedWith 200) (claudeRecord false 10) 0
       = Returns rec
       /\ databasePlugin.handleOn copyDetail fullStore (respondedWith 200)
            (claudeRecord false 10) 0 FirstCase = Blocks.
Proof.
  assert (H1 : usageStore.stop fullStore = false) by reflexivity.
  split; [exact H1|]. eexists. split; [reflexivity|].
  exact (proj1 (full_queue_blocks_caller copyDetail fullStore (respondedWith 200)
                  (claudeRecord false 10) 0 FirstCase _ H1 eq_refl)).
Defined.

(** X23: a failed insert loses the record.  When the worker takes a record
    and the engine refuses one of the four calls of the insert, or the
    handle is closed, the round leaves the database as it was, reports the
    error to the log, and the record is gone from the queue: it is not put
    back and not tried again. *)
Theorem failed_insert_drops_record (normaliseDetail : coreusage.Detail -> TokenStats)
    (s : usageStore.t) (a : sql.answers) (rec : dbRecord) (rest : list dbRecord) :
  usageStore.running s = true ->
  usageStore.queue s = rec :: rest ->
  a <> sql.allSucceed \/ usageStore.dbClosed s = true ->
  databasePlugin.step normaliseDetail s (databasePlugin.Worked a)
  = (usageStore.with_queue s rest, [])
  /\ snd (usageStore.run s a) <> None
  /\ forall events,
       let later := databasePlugin.steps normaliseDetail (usageStore.with_queue s rest) events in
       (snd later ++ usageStore.queue (fst later))%list
         `sublist_of` (rest ++ offered normaliseDetail events)%list.
Proof.
  intros Hrun Hq Hfail.
  assert (Herr : exists err, usageStore.insert (usageStore.with_queue s rest) a rec
                             = (usageStore.with_queue s rest, Some err)).
  { pose proof (insert_result (usageStore.with_queue s rest) a rec) as Hres.
    destruct (usageStore.insert (usageStore.with_queue s rest) a rec) as [s' [err|]] eqn:Hins;
      cbn [fst snd] in Hres.
    - exists err. rewrite Hres. reflexivity.
    - exfalso. apply insert_no_error in Hins as [Hopen Hall]. cbn in Hopen.
      destruct Hfail as [Hne|Hclosed]; [exact (Hne Hall)|congruence]. }
  destruct Herr as [err Herr]. split; [|split].
  - cbn [databasePlugin.step]. unfold usageStore.run. rewrite Hrun, Hq, Herr. reflexivity.
  - unfold usageStore.run. rewrite Hrun, Hq, Herr. discriminate.
  - intros events. cbn zeta.
    pose proof (steps_in_order normaliseDetail (usageStore.with_queue s rest) events) as H.
    exact H.
Qed.

Lemma failed_insert_drops_record_witness :
  let s := usageStore.with_queue (freshStore 14) [qwenRecord] in
  usageStore.running s = true
  /\ usageStore.queue s = [qwenRecord]
  /\ (commitBusy <> sql.allSucceed \/ usageStore.dbClosed s = true)
  /\ databasePlugin.step copyDetail s (databasePlugin.Worked commitBusy)
     = (usageStore.with_queue s [], []).
Proof.
  cbn zeta.
  assert (H1 : usageStore.running (usageStore.with_queue (freshStore 14) [qwenRecord]) = true)
    by reflexivity.
  assert (H2 : usageStore.queue (usageStore.with_queue (freshStore 14) [qwenRecord])
               = [qwenRecord]) by reflexivity.
  assert (H3 : commitBusy <> sql.allSucceed
               \/ usageStore.dbClosed (usageStore.with_queue (freshStore 14) [qwenRecord])
                  = true) by (left; discriminate).
  split; [exact H1|]. split; [exact H2|]. split; [exact H3|].
  exact (proj1 (failed_insert_drops_record copyDetail _ commitBusy qwenRecord [] H1 H2 H3)).
Defined.

(** ** Normalised options *)

(** X24: normalising options.  The retention of normalised options is
    positive and the enabled flag is kept.  When cleaning a clean path
    changes nothing, as is the case of [filepath.Clean], normalising is
    idempotent, so [ConfigureDatabase] does the same with options and with
    their normal form; and whenever the current configuration is the
    normal form of the options, the call returns at once and leaves the
    world as it is. *)
Theorem normalized_options (filepath_Clean : string -> string) (opts : DatabaseOptions) :
  (forall path, filepath_Clean (filepath_Clean path) = filepath_Clean path) ->
  let normalized := normalizeDatabaseOptions filepath_Clean opts in
  0 < RetentionDays normalized
  /\ Enabled normalized = Enabled opts
  /\ normalizeDatabaseOptions filepath_Clean normalized = normalized
  /\ (forall w fs c,
        ConfigureDatabase filepath_Clean w fs c normalized
        = ConfigureDatabase filepath_Clean w fs c opts)
  /\ (forall w fs c,
        currentDBConfig w = Some normalized ->
        ConfigureDatabase filepath_Clean w fs c opts = Returns (w, None)).
Proof.
  intros Hclean. cbn zeta.
  assert (Hidem : normalizeDatabaseOptions filepath_Clean
                    (normalizeDatabaseOptions filepath_Clean opts)
                  = normalizeDatabaseOptions filepath_Clean opts).
  { unfold normalizeDatabaseOptions. cbn [Enabled Path RetentionDays]. f_equal.
    - destruct (nonEmpty (Path opts)) eqn:Hp.
      + rewrite Hclean. destruct (nonEmpty (filepath_Clean (Path opts))); reflexivity.
      + rewrite Hp. reflexivity.
    - destruct (Z.leb_spec (RetentionDays opts) 0) as [Hle|Hgt]; [reflexivity|].
      destruct (Z.leb_spec (RetentionDays opts) 0); [lia|reflexivity]. }
  split; [|split; [reflexivity|split; [exact Hidem|split]]].
  - unfold normalizeDatabaseOptions. cbn.
    destruct (Z.leb_spec (RetentionDays opts) 0); lia.
  - intros w fs c. unfold ConfigureDatabase. rewrite Hidem. reflexivity.
  - intros w fs c Hcur. unfold ConfigureDatabase. rewrite Hcur, configsEqual_refl.
    reflexivity.
Qed.

Lemma normalized_options_witness :
  (forall path, cleanPath (cleanPath path) = cleanPath path)
  /\ 0 < RetentionDays (normalizeDatabaseOptions cleanPath negativeOptions).
Proof.
  assert (H : forall path, cleanPath (cleanPath path) = cleanPath path)
    by (intros path; reflexivity).
  split; [exact H|].
  exact (proj1 (normalized_options cleanPath negativeOptions H)).
Defined.

(** ** The daily aggregate, by the calls of [HandleUsage] *)



Section Provenance.

Variable normaliseDetail : coreusage.Detail -> TokenStats.









End Provenance.


